(** * PassKeeper: the record codec, the vault engine and the Randomizer

    A shallow embedding of [src/StorageEngine.cpp] and of the Randomizer
    translation unit, together with the properties of the record codec,
    of the read path and of the random generators.

    Conventions.
    - [int], [uint32_t], [size_t] values are integers of [Z]; where the
      C++ arithmetic wraps, the wrap is written out ([u32]).
    - [QByteArray] is a list of bytes ([byte]); [Z_of_byte] and
      [byte_of_Z] convert between a byte and its value.
    - [std::string] is a list of characters.
    - The store [std::multiset<DataRow>] is the list of its elements in
      iteration order.
    - Code that draws from the pool runs in [Run]: it takes the Randomizer
      object and returns a value and the new object, or nothing when the
      C++ program has no defined result (an out-of-bounds read, a thrown
      [std::length_error], a loop that does not end). *)

From Stdlib Require Import ZArith Lia Ascii String Strings.Byte List
  Sorting.Sorted Sorting.Permutation.
From stdpp Require Import base tactics option list sorting.

Local Open Scope Z_scope.

(** ** Machine integers *)

(** Conversion to [uint32_t]. *)
Definition u32 (x : Z) : Z := x mod 2 ^ 32.

(** [x << n] on [uint32_t]. *)
Definition shl32 (x n : Z) : Z := u32 (Z.shiftl x n).

(** C++ leaves a shift of a [uint32_t] by 32 or more undefined.  Every
    target shifts a zero to zero; on a non-zero value the targets differ,
    and the shift is taken to have no result. *)
Definition shl32_defined (x n : Z) : bool := (n <? 32) || (x =? 0).

(** [~x] on [uint32_t]. *)
Definition not32 (x : Z) : Z := u32 (Z.lnot x).

(** [~( ((uint32_t)-1) << n )]: the mask of the [n] low bits. *)
Definition low_mask (n : Z) : Z := not32 (shl32 (u32 (-1)) n).

Definition is_u32 (x : Z) : Prop := 0 <= x < 2 ^ 32.

(** The largest [int]. *)
Definition INT_MAX : Z := 2 ^ 31 - 1.

(** ** std::string *)

Abbreviation std_string := (list ascii).

Definition str (s : string) : std_string := list_ascii_of_string s.

(** A [char] array initialised from a literal: the characters and the
    terminating NUL. *)
Definition char_array (s : string) : list ascii := str s ++ [zero].

(** ** The Randomizer object *)

Record Randomizer := mkRandomizer {
  pool : list Z;        (* uint32_t pool[8] *)
  poolSize : Z;         (* int poolSize: unread bits *)
  refills : nat         (* calls of RAND_bytes made so far; not in the
                           object, it names the next answer of the CSPRNG *)
}.

(** The state of a program run: a result and the object after it, or
    nothing. *)
Definition Run (A : Type) : Type := Randomizer -> option (A * Randomizer).

Definition ret {A} (a : A) : Run A := fun st => Some (a, st).

Definition bind {A B} (m : Run A) (k : A -> Run B) : Run B :=
  fun st => match m st with
            | Some (a, st') => k a st'
            | None => None
            end.

Definition undefined {A} : Run A := fun _ => None.

Notation "x <-- m ;; k" := (bind m (fun x => k))
  (at level 100, m at next level, right associativity).

(** Reading [arr[i]]. *)
Definition index {A} (arr : list A) (i : Z) : Run A :=
  fun st => if i <? 0 then None
            else match arr !! Z.to_nat i with
                 | Some a => Some (a, st)
                 | None => None
                 end.

(** Randomizer::Randomizer(): [poolSize( 0 )]; the limbs are whatever the
    allocation holds. *)
Definition Randomizer_new (garbage : list Z) : Randomizer :=
  mkRandomizer garbage 0 0.

(** The tables of the generators. *)

Definition passwordCharSet : list ascii :=
  char_array "ACDEFGHJKLMNPQRSTUVWXYZabcdefghijkmnpqrstuvwxyz0123456789#*?:+=_".

Definition hexCharSet : list ascii := char_array "0123456789abcdef".

Record LitInfo := mkLit {
  value : std_string;
  canDup : bool;
  weight : Z
}.

Definition lit (s : string) (d : Z) (w : Z) : LitInfo :=
  mkLit (str s) (negb (d =? 0)) w.

Definition vowelSet : list LitInfo :=
  [ lit "e" 1 5040273; lit "a" 0 3406646; lit "o" 1 3221018;
    lit "i" 0 3063451; lit "u" 0 1159547; lit "y" 0 886281 ].

Definition consonantSet : list LitInfo :=
  [ lit "n" 1 1965342; lit "r" 1 1703266; lit "t" 0 1674560;
    lit "s" 1 1466326; lit "d" 1 1221783; lit "l" 1 1125424;
    lit EmptyString 0 1048588; lit "th" 0 899191; lit "c" 1 766989;
    lit "m" 1 738749; lit "f" 1 651700; lit "w" 0 592582;
    lit "g" 1 573031; lit "p" 0 514533; lit "b" 0 421277;
    lit "v" 0 313281; lit "sh" 0 310333; lit "h" 0 263783;
    lit "ch" 0 201716; lit "k" 0 195044; lit "x" 0 48877;
    lit "qu" 0 31809; lit "j" 0 29171; lit "z" 0 19861 ].

Definition wordEndSet : list LitInfo :=
  [ lit EmptyString 0 4194304; lit "t" 0 1331525; lit "s" 0 1249585;
    lit "r" 0 1167645; lit "ck" 0 1085706; lit "y" 0 1029371;
    lit "k" 0 1003765; lit "x" 0 921825; lit "n" 0 839885;
    lit "th" 0 757945; lit "v" 0 676005; lit "sh" 0 594065;
    lit "p" 0 512125; lit "b" 0 430185; lit "l" 0 348245;
    lit "z" 0 266305; lit "ty" 0 221238; lit "cy" 0 147492 ].

Section Generators.

(** The system CSPRNG: the answer of the [k]-th call of
    [RAND_bytes] on the whole pool, either the eight fresh limbs or a
    failure. *)
Variable RAND_bytes : nat -> option (list Z).

(** The [while( count > 0 )] loop of [getBits].  Every turn with a
    positive [limbRem] lowers [count], so [count] turns are enough; with
    none left the loop has not ended.  Both branches start with
    [res << count]. *)
Fixpoint getBits_loop (fuel : nat) (res count : Z) (pl : list Z) (ps : Z)
  : option (Z * list Z * Z) :=
  if 0 <? count then
    match fuel with
    | O => None
    | S fuel' =>
      let limbNo := Z.quot (ps - 1) 32 in
      let limbRem := ps - limbNo * 32 in
      if limbNo <? 0 then None else
      match pl !! Z.to_nat limbNo with
      | None => None
      | Some limb =>
        if negb (shl32_defined res count) then None else
        if limbRem <=? count then
          getBits_loop fuel' (Z.lor (shl32 res count) limb)
                       (count - limbRem) pl (ps - limbRem)
        else
          getBits_loop fuel'
            (Z.lor (shl32 res count) (Z.shiftr limb (limbRem - count)))
            0
            (<[Z.to_nat limbNo := Z.land limb (low_mask (limbRem - count))]> pl)
            (ps - count)
      end
    end
  else Some (res, pl, ps).

(** bool Randomizer::getBits( uint32_t *dst, int count ): [Some t] is
    [true] with [*dst = t], [None] is [false]. *)
Definition getBits (count : Z) : Run (option Z) := fun st =>
  let finish res count pl ps n :=
    match getBits_loop (Z.to_nat count) res count pl ps with
    | Some (res', pl', ps') => Some (Some res', mkRandomizer pl' ps' n)
    | None => None
    end in
  if poolSize st <? count then
    match pool st !! 0%nat with
    | None => None
    | Some limb0 =>
      let res := Z.land limb0 (low_mask (poolSize st)) in
      let count' := count - poolSize st in
      match RAND_bytes (refills st) with
      | None => Some (None, mkRandomizer (pool st) 0 (S (refills st)))
      | Some fresh => finish res count' fresh 256 (S (refills st))
      end
    end
  else finish 0 count (pool st) (poolSize st) (refills st).

(** The weighted walk of [getLiteral] over the table. *)
Fixpoint getLiteral_walk (table : list LitInfo) (t : Z) : option LitInfo :=
  match table with
  | [] => None
  | i :: rest => if t <? weight i then Some i
                 else getLiteral_walk rest (u32 (t - weight i))
  end.

(** const LitInfo *Randomizer::getLiteral( stBegin, stSizeBytes ):
    [None] is the NULL pointer. *)
Definition getLiteral (table : list LitInfo) : Run (option LitInfo) :=
  t <-- getBits 24 ;;
  match t with
  | None => ret None
  | Some t => ret (getLiteral_walk table t)
  end.

(** uint32_t Randomizer::makeNumber( uint32_t modulo ).  The first draw
    fills the low half of the 64-bit [t], the second the high half. *)
Definition makeNumber (modulo : Z) : Run Z :=
  lo <-- getBits 32 ;;
  match lo with
  | None => ret modulo
  | Some lo =>
    hi <-- getBits 32 ;;
    match hi with
    | None => ret modulo
    | Some hi =>
      if modulo =? 0 then undefined
      else ret (u32 ((lo + hi * 2 ^ 32) mod modulo))
    end
  end.

(** The inner loop of [makePin]: [res.push_back( '0' + (t % 10) ); t /= 10]
    four times. *)
Fixpoint push_digits (j : nat) (t : Z) (res : std_string) : std_string :=
  match j with
  | O => res
  | S j' => push_digits j' (t / 10)
              (res ++ [ascii_of_N (Z.to_N ((48 + t mod 10) mod 256))])
  end.

(** The loop [for( int i = 0; i < length; i += 4 )] of [makePin], by the
    number of its turns. *)
Fixpoint makePin_loop (turns : nat) (res : std_string) : Run std_string :=
  match turns with
  | O => ret res
  | S turns' =>
    t <-- makeNumber 10000 ;;
    makePin_loop turns' (push_digits 4 t res)
  end.

(** [res.reserve( n )] on the value of an [int] expression: the
    expression has no value when it leaves the range of [int]; a negative
    [int] becomes a [size_t] above [max_size()] and [reserve] throws
    [std::length_error]. *)
Definition reserve (n : Z) : Run unit :=
  if (n <? 0) || (INT_MAX <? n) then undefined else ret tt.

(** [res.resize( n )]: cut, or fill with NUL characters. *)
Definition resize (n : nat) (res : std_string) : std_string :=
  take n res ++ replicate (n - length res) zero.

(** std::string Randomizer::makePin( int length ).  [length + 3] is
    computed in [int]; when it has a value, the counter [i] of the loop
    [for( int i = 0; i < length; i += 4 )] ends at most there and stays
    an [int] too.  A negative length makes [resize] throw. *)
Definition makePin (length : Z) : Run std_string :=
  _ <-- reserve (length + 3) ;;
  res <-- makePin_loop (Z.to_nat ((length + 3) / 4)) [] ;;
  if length <? 0 then undefined
  else ret (resize (Z.to_nat length) res).

(** The loop [for( int i = 0; i < length; ++i )] of [makePassword]. *)
Fixpoint makePassword_loop (turns : nat) (res : std_string) : Run std_string :=
  match turns with
  | O => ret res
  | S turns' =>
    t <-- getBits 6 ;;
    match t with
    | None => ret res
    | Some t =>
      c <-- index passwordCharSet t ;;
      makePassword_loop turns' (res ++ [c])
    end
  end.

(** std::string Randomizer::makePassword( int length ).  A negative length
    makes [reserve] throw. *)
Definition makePassword (length : Z) : Run std_string :=
  if length <? 0 then undefined
  else makePassword_loop (Z.to_nat length) [].

(** The loop [for( int i = 0; i < bytes; ++i )] of [makeHexBlock]. *)
Fixpoint makeHexBlock_loop (turns : nat) (res : std_string) : Run std_string :=
  match turns with
  | O => ret res
  | S turns' =>
    t <-- getBits 8 ;;
    match t with
    | None => ret res
    | Some t =>
      lo <-- index hexCharSet (Z.land t 15) ;;
      hi <-- index hexCharSet (Z.shiftr t 4) ;;
      makeHexBlock_loop turns' (res ++ [lo] ++ [hi])
    end
  end.

(** std::string Randomizer::makeHexBlock( int bytes ).  [bytes * 2] is
    computed in [int]. *)
Definition makeHexBlock (bytes : Z) : Run std_string :=
  _ <-- reserve (bytes * 2) ;;
  makeHexBlock_loop (Z.to_nat bytes) [].

(** The first loop of [makeName]: the syllable count.  [None] is the
    early [return res] (with [res] still empty). *)
Fixpoint makeName_count (turns : nat) (syllableCount : Z)
  : Run (option Z) :=
  match turns with
  | O => ret (Some syllableCount)
  | S turns' =>
    t <-- getBits 1 ;;
    match t with
    | None => ret None
    | Some t => makeName_count turns' (syllableCount + t)
    end
  end.

(** The second loop of [makeName], at syllable [i] with [turns] syllables
    to go.  The result is the string and whether the loop ran to its end
    ([false]: the function returned from inside). *)
Fixpoint makeName_syllables (turns : nat) (i : Z) (res : std_string)
  : Run (std_string * bool) :=
  match turns with
  | O => ret (res, true)
  | S turns' =>
    literal <-- getLiteral consonantSet ;;
    match literal with
    | None => ret (res, false)
    | Some literal =>
      t <-- getBits 4 ;;
      match t with
      | None => ret (res, false)
      | Some t =>
        let res := if negb (i =? 0) || (4 <=? t)
                   then res ++ value literal else res in
        let vowel res :=
          literal <-- getLiteral vowelSet ;;
          match literal with
          | None => ret (res, false)
          | Some literal =>
            t <-- getBits 4 ;;
            match t with
            | None => ret (res, false)
            | Some t =>
              let res := res ++ value literal in
              let res :=
                if (t =? 0) && canDup literal && (1 <? Z.of_nat (length res))
                then res ++ value literal else res in
              makeName_syllables turns' (i + 1) res
            end
          end in
        if (t =? 0) && canDup literal && negb (i =? 0) then
          (* Consonant duplication *)
          vowel (res ++ value literal)
        else if 12 <=? t then
          (* Additional consonant *)
          literal <-- getLiteral consonantSet ;;
          match literal with
          | None => ret (res, false)
          | Some literal =>
            t <-- getBits 4 ;;
            match t with
            | None => ret (res, false)
            | Some t => vowel res
            end
          end
        else vowel res
      end
    end
  end.

(** std::string Randomizer::makeName( int minSyllables, int maxSyllables ). *)
Definition makeName (minSyllables maxSyllables : Z) : Run std_string :=
  n <-- makeName_count (Z.to_nat (maxSyllables - minSyllables)) minSyllables ;;
  match n with
  | None => ret []
  | Some syllableCount =>
    r <-- makeName_syllables (Z.to_nat syllableCount) 0 [] ;;
    match r with
    | (res, false) => ret res
    | (res, true) =>
      literal <-- getLiteral wordEndSet ;;
      match literal with
      | None => ret res
      | Some literal => ret (res ++ value literal)
      end
    end
  end.

End Generators.

(** ** The invariant of the pool *)

(** Eight 32-bit limbs, at most 256 unread bits, and the limb holding the
    highest unread bit has its consumed high bits masked to zero: it is
    below [2 ^ limbRem]. *)
Definition pool_ok (pl : list Z) (ps : Z) : Prop :=
  length pl = 8%nat /\ Forall is_u32 pl /\ 0 <= ps <= 256 /\
  forall limb, 0 < ps ->
    pl !! Z.to_nat ((ps - 1) / 32) = Some limb ->
    limb < 2 ^ (ps - (ps - 1) / 32 * 32).

Definition pool_inv (st : Randomizer) : Prop :=
  pool_ok (pool st) (poolSize st).

(** What [RAND_bytes] hands back on success: 32 bytes, that is eight
    limbs of 32 bits. *)
Definition csprng_ok (RAND_bytes : nat -> option (list Z)) : Prop :=
  forall k fresh, RAND_bytes k = Some fresh ->
    length fresh = 8%nat /\ Forall is_u32 fresh.

(** ** Notions used to state the properties of the generators *)

(** A refill was refused between two states of a run. *)
Definition refill_failed (RAND_bytes : nat -> option (list Z))
    (st st' : Randomizer) : Prop :=
  exists k, (refills st <= k < refills st')%nat /\ RAND_bytes k = None.

(** The values of the successive draws of [bits] bits, at most [turns] of
    them, up to the first one that is refused. *)
Fixpoint drawn_values (RAND_bytes : nat -> option (list Z)) (bits : Z)
    (turns : nat) (st : Randomizer) : list Z :=
  match turns with
  | O => []
  | S turns' =>
    match getBits RAND_bytes bits st with
    | Some (Some t, st') => t :: drawn_values RAND_bytes bits turns' st'
    | _ => []
    end
  end.

(** The 64 characters of the password alphabet and the 16 hex digits: the
    tables without their terminating NUL. *)
Definition password_alphabet : list ascii := take 64 passwordCharSet.

Definition hex_alphabet : list ascii := take 16 hexCharSet.

Definition password_char (t : Z) : ascii :=
  nth (Z.to_nat t) password_alphabet zero.

Definition hex_digit (d : Z) : ascii := nth (Z.to_nat d) hex_alphabet zero.

(** The two characters of one byte: the digit of the low nibble, then the
    digit of the high nibble. *)
Definition hex_pair (t : Z) : std_string :=
  [hex_digit (t mod 16); hex_digit (t / 16)].

(** A character in '0'..'9'. *)
Definition is_decimal_digit (c : ascii) : Prop :=
  (48 <= N_of_ascii c <= 57)%N.

(** ** Sample pools and CSPRNG answers *)

(** What an allocation may hold before the first refill. *)
Definition stale_limbs : list Z := [7; 7; 7; 7; 7; 7; 7; 7].

(** A CSPRNG that refuses every call. *)
Definition csprng_refusing : nat -> option (list Z) := fun _ => None.

(** A CSPRNG that answers the first call with [limbs] and refuses the
    following ones. *)
Definition csprng_once (limbs : list Z) : nat -> option (list Z) :=
  fun k => match k with O => Some limbs | S _ => None end.

(** Limbs whose first eight bits (the top of limb 7) are 0xAB. *)
Definition limbs_AB : list Z := [0; 0; 0; 0; 0; 0; 0; 0xAB000000].

(** Limbs read by [makeName( 1, 1 )] as the draws
    24 bits: 0 (consonant "n"), 4 bits: 12, 24 bits: 1965342 (consonant
    "r"), 4 bits: 5, 24 bits: 0 (vowel "e"), 4 bits: 1,
    24 bits: 4194304 (word end "t"). *)
Definition limbs_name : list Z := [0; 0; 0; 0; 0; 5120; 3755074816; 193].

(** * The record codec *)

(** ** Bytes and sizes *)

Abbreviation QByteArray := (list byte).

Definition Z_of_byte (b : byte) : Z := Z.of_N (Byte.to_N b).

(** Conversion to [unsigned char]. *)
Definition byte_of_Z (z : Z) : byte :=
  match Byte.of_N (Z.to_N (z mod 256)) with
  | Some b => b
  | None => x00
  end.

(** The bytes of a literal. *)
Definition bytes (s : string) : QByteArray := list_byte_of_string s.

Definition LONG_MAX : Z := 2 ^ 63 - 1.

(** Conversions to [int] and to [size_t] (LP64). *)
Definition to_int (x : Z) : Z := (x + 2 ^ 31) mod 2 ^ 32 - 2 ^ 31.
Definition to_size_t (x : Z) : Z := x mod 2 ^ 64.

(** ** The ASN.1 routines of OpenSSL

    The codec calls [ASN1_object_size], [ASN1_put_object] and
    [ASN1_get_object] of OpenSSL, whose code is not part of the
    repository. *)

Definition V_ASN1_UNIVERSAL : Z := 0x00.
Definition V_ASN1_CONTEXT_SPECIFIC : Z := 0x80.
Definition V_ASN1_PRIVATE : Z := 0xc0.
Definition V_ASN1_CONSTRUCTED : Z := 0x20.
Definition V_ASN1_PRIMITIVE_TAG : Z := 0x1f.
Definition V_ASN1_SEQUENCE : Z := 16.
Definition V_ASN1_SET : Z := 17.

(** The loops [for (i = 0; x > 0; i++) x >>= k]: the number of [k]-bit
    groups of [x].  An [int] is zero after at most 31 shifts. *)
Fixpoint count_groups (fuel : nat) (k x : Z) : Z :=
  match fuel with
  | O => 0
  | S fuel' =>
    if 0 <? x then 1 + count_groups fuel' k (Z.shiftr x k) else 0
  end.

(** Modelled from the spec: OpenSSL's [ASN1_object_size], the size of a
    frame with its header (section 4.3: one identifier byte for the tags
    in use, a length in DER short form below 128 and in long form from
    128 on); -1 when the size does not fit an [int]. *)
Definition ASN1_object_size (constructed length tag : Z) : Z :=
  if length <? 0 then -1
  else
    let ret := 1 in
    let ret := if 31 <=? tag then ret + count_groups 32 7 tag else ret in
    let ret :=
      if constructed =? 2 then ret + 3
      else
        let ret := ret + 1 in
        if 127 <? length then ret + count_groups 32 8 length else ret in
    if INT_MAX - length <=? ret then -1 else ret + length.

(** The [i] low 8-bit groups of [x], the highest first. *)
Fixpoint be_octets (i : nat) (x : Z) : list byte :=
  match i with
  | O => []
  | S i' => be_octets i' (Z.shiftr x 8) ++ [byte_of_Z (Z.land x 0xff)]
  end.

(** The [i] low 7-bit groups of a tag, the highest first, each but the
    last with its high bit set. *)
Fixpoint tag_octets (i : nat) (tag : Z) (last : bool) : list byte :=
  match i with
  | O => []
  | S i' =>
    tag_octets i' (Z.shiftr tag 7) false ++
    [byte_of_Z (if last then Z.land tag 0x7f
                else Z.lor (Z.land tag 0x7f) 0x80)]
  end.

(** Modelled from the spec: OpenSSL's [asn1_put_length], the DER length:
    one byte up to 127, else the count of length bytes with the high bit
    set and the length bytes in big-endian order. *)
Definition asn1_put_length (length : Z) : list byte :=
  if length <=? 127 then [byte_of_Z length]
  else
    let i := count_groups 32 8 length in
    byte_of_Z (Z.lor i 0x80) :: be_octets (Z.to_nat i) length.

(** Modelled from the spec: OpenSSL's [ASN1_put_object], the header of a
    frame: the identifier (class, constructed bit, tag) and the length.
    The result is the bytes stored from [*pp] on. *)
Definition ASN1_put_object (constructed length tag xclass : Z) : list byte :=
  let i := if constructed =? 0 then 0 else V_ASN1_CONSTRUCTED in
  let i := Z.lor i (Z.land xclass V_ASN1_PRIVATE) in
  let ident :=
    if tag <? 31 then [byte_of_Z (Z.lor i (Z.land tag V_ASN1_PRIMITIVE_TAG))]
    else byte_of_Z (Z.lor i V_ASN1_PRIMITIVE_TAG)
           :: tag_octets (Z.to_nat (count_groups 32 7 tag)) tag true in
  ident ++ (if constructed =? 2 then [byte_of_Z 0x80]
            else asn1_put_length length).

(** What [ASN1_get_object] hands back: on a header it cannot read, the
    value 0x80 and nothing else; otherwise its return value, the tag, the
    class and the length it stores, and the bytes from the new [*pp]
    on. *)
Inductive asn1_object :=
| Asn1Error
| Asn1Object (ret tag xclass length : Z) (rest : list byte).

(** The identifier bytes of a tag above 30. *)
Fixpoint get_high_tag (p : list byte) (l : Z) : option (Z * list byte) :=
  match p with
  | [] => None
  | b :: p' =>
    let l := Z.lor (Z.shiftl l 7) (Z.land (Z_of_byte b) 0x7f) in
    match p' with
    | [] => None
    | _ :: _ =>
      if Z.land (Z_of_byte b) 0x80 =? 0 then Some (l, p')
      else if Z.shiftr INT_MAX 7 <? l then None
           else get_high_tag p' l
    end
  end.

(** [while (i > 0 && *p == 0) { p++; i--; }] *)
Fixpoint skip_zeroes (i : nat) (p : list byte) : nat * list byte :=
  match i, p with
  | S i', b :: p' => if Z_of_byte b =? 0 then skip_zeroes i' p' else (i, p)
  | _, _ => (i, p)
  end.

(** [ret <<= 8; ret |= *p++] over the length bytes. *)
Definition read_octets (octets : list byte) : Z :=
  fold_left (fun ret b => Z.lor (Z.shiftl ret 8) (Z_of_byte b)) octets 0.

(** Modelled from the spec: OpenSSL's [asn1_get_length]: the indefinite
    flag, the length and the bytes after it; [None] when it returns 0. *)
Definition asn1_get_length (p : list byte) : option (Z * Z * list byte) :=
  match p with
  | [] => None
  | b :: p1 =>
    if Z_of_byte b =? 0x80 then Some (1, 0, p1)
    else
      let i := Z.land (Z_of_byte b) 0x7f in
      if Z.land (Z_of_byte b) 0x80 =? 0 then Some (0, i, p1)
      else if Z.of_nat (length p1) <? i + 1 then None
      else
        let '(i, p2) := skip_zeroes (Z.to_nat i) p1 in
        if (8 <? i)%nat then None
        else
          let ret := read_octets (take i p2) in
          if LONG_MAX <? ret then None else Some (0, ret, drop i p2)
  end.

(** Modelled from the spec: OpenSSL's [ASN1_get_object] on the bytes from
    [*pp] to the end of the region ([omax] is their number). *)
Definition ASN1_get_object (p : list byte) : asn1_object :=
  match p with
  | [] => Asn1Error
  | b :: p1 =>
    let ret := Z.land (Z_of_byte b) V_ASN1_CONSTRUCTED in
    let xclass := Z.land (Z_of_byte b) V_ASN1_PRIVATE in
    let i := Z.land (Z_of_byte b) V_ASN1_PRIMITIVE_TAG in
    let tagged :=
      match p1 with
      | [] => None
      | _ :: _ =>
        if i =? V_ASN1_PRIMITIVE_TAG then get_high_tag p1 0 else Some (i, p1)
      end in
    match tagged with
    | None => Asn1Error
    | Some (tag, p2) =>
      match asn1_get_length p2 with
      | None => Asn1Error
      | Some (inf, len, p3) =>
        if negb (inf =? 0) && (Z.land ret V_ASN1_CONSTRUCTED =? 0)
        then Asn1Error
        else
          let ret := if Z.of_nat (length p3) <? len
                     then Z.lor ret 0x80 else ret in
          Asn1Object (Z.lor ret inf) tag xclass len p3
      end
    end
  end.

(** The frames in use: the outer sequence, the record set, and the four
    cells. *)
Definition frame_kinds : list (Z * Z * Z) :=
  [ (1, V_ASN1_SEQUENCE, V_ASN1_UNIVERSAL);
    (1, V_ASN1_SET, V_ASN1_UNIVERSAL);
    (0, 0, V_ASN1_CONTEXT_SPECIFIC);
    (0, 1, V_ASN1_CONTEXT_SPECIFIC);
    (0, 2, V_ASN1_CONTEXT_SPECIFIC);
    (0, 16, V_ASN1_CONTEXT_SPECIFIC) ].

(** ** DataRow *)

(** [QByteArray cells[DATA_COLS_COUNT]], by role. *)
Record DataRow := mkDataRow {
  cell_service : QByteArray;     (* cells[0] *)
  cell_login : QByteArray;       (* cells[1] *)
  cell_password : QByteArray;    (* cells[2] *)
  cell_comment : QByteArray      (* cells[3] *)
}.

Definition cells (r : DataRow) : list QByteArray :=
  [cell_service r; cell_login r; cell_password r; cell_comment r].

Definition cellTags : list Z := [0; 1; 2; 16].

(** DataRow::DataRow() *)
Definition DataRow_new : DataRow := mkDataRow [] [] [] [].

(** The inner [for] of the parsing constructor: append to the cell whose
    tag matches, if any. *)
Definition append_cell (r : DataRow) (tag : Z) (bs : QByteArray) : DataRow :=
  if tag =? 0 then
    mkDataRow (cell_service r ++ bs) (cell_login r) (cell_password r) (cell_comment r)
  else if tag =? 1 then
    mkDataRow (cell_service r) (cell_login r ++ bs) (cell_password r) (cell_comment r)
  else if tag =? 2 then
    mkDataRow (cell_service r) (cell_login r) (cell_password r ++ bs) (cell_comment r)
  else if tag =? 16 then
    mkDataRow (cell_service r) (cell_login r) (cell_password r) (cell_comment r ++ bs)
  else r.

(** The loop [while( curPtr < entryEnd )] of the parsing constructor on
    the bytes from [curPtr] to [entryEnd].  Each turn takes at least the
    two bytes of a header, so as many turns as there are bytes are
    enough. *)
Fixpoint parse_cells (fuel : nat) (body : list byte) (r : DataRow) : DataRow :=
  match fuel, body with
  | S fuel', _ :: _ =>
    match ASN1_get_object body with
    | Asn1Error => r
    | Asn1Object ret tag xclass len rest =>
      if negb (ret =? 0) || negb (xclass =? V_ASN1_CONTEXT_SPECIFIC) then r
      else parse_cells fuel' (drop (Z.to_nat len) rest)
                       (append_cell r tag (take (Z.to_nat len) rest))
    end
  | _, _ => r
  end.

(** DataRow::DataRow( const uint8_t **ptr, const uint8_t *endPtr ) on the
    bytes from [*ptr] to [endPtr]: the row and the bytes from the new
    [*ptr] on. *)
Definition DataRow_parse (p : list byte) : DataRow * list byte :=
  match ASN1_get_object p with
  | Asn1Error => (DataRow_new, [])
  | Asn1Object ret tag xclass len rest =>
    if negb (ret =? V_ASN1_CONSTRUCTED) || negb (tag =? V_ASN1_SET)
       || negb (xclass =? V_ASN1_UNIVERSAL)
       || (Z.of_nat (length rest) <? len)
    then (DataRow_new, [])
    else
      let body := take (Z.to_nat len) rest in
      (parse_cells (length body) body DataRow_new, drop (Z.to_nat len) rest)
  end.

(** One turn of the first loop of [encode]: a non-empty cell adds the
    size of its frame. *)
Definition add_cell_size (entryDataSize tag : Z) (cell : QByteArray) : Z :=
  match cell with
  | [] => entryDataSize
  | _ :: _ =>
    to_size_t (entryDataSize + ASN1_object_size 0 (Z.of_nat (length cell)) tag)
  end.

(** The first loop of [encode]: the sum of the cell frame sizes. *)
Definition entry_data_size (r : DataRow) : Z :=
  fold_left (fun entryDataSize '(tag, cell) =>
               add_cell_size entryDataSize tag cell)
            (combine cellTags (cells r)) 0.

(** One turn of the second loop of [encode]: the frame of a non-empty
    cell. *)
Definition put_cell (tag : Z) (cell : QByteArray) : list byte :=
  match cell with
  | [] => []
  | _ :: _ =>
    ASN1_put_object 0 (Z.of_nat (length cell)) tag V_ASN1_CONTEXT_SPECIFIC
    ++ cell
  end.

(** The second loop of [encode]: the cell frames. *)
Definition put_cells (r : DataRow) : list byte :=
  flat_map (fun '(tag, cell) => put_cell tag cell)
           (combine cellTags (cells r)).

(** size_t DataRow::encode( uint8_t *dst, size_t maxSize ) const: the
    value returned and the bytes stored from [dst] on ([dst] is [false]
    for the NULL pointer). *)
Definition encode (r : DataRow) (dst : bool) (maxSize : Z) : Z * list byte :=
  let entryDataSize := entry_data_size r in
  if entryDataSize =? 0 then (0, [])
  else
    let entrySize :=
      to_size_t (ASN1_object_size 1 (to_int entryDataSize) V_ASN1_SET) in
    if dst then
      if maxSize <? entrySize then (0, [])
      else (entrySize,
            ASN1_put_object 1 (to_int entryDataSize) V_ASN1_SET V_ASN1_UNIVERSAL
            ++ put_cells r)
    else (entrySize, []).

(** [strcmp] on the NUL-terminated data of two byte arrays; the end of a
    list is its terminating NUL. *)
Fixpoint strcmp (s1 s2 : list byte) : Z :=
  match s1, s2 with
  | [], [] => 0
  | [], c2 :: _ => 0 - Z_of_byte c2
  | c1 :: _, [] => Z_of_byte c1 - 0
  | c1 :: s1', c2 :: s2' =>
    if Z_of_byte c1 =? Z_of_byte c2
    then (if Z_of_byte c1 =? 0 then 0 else strcmp s1' s2')
    else Z_of_byte c1 - Z_of_byte c2
  end.

(** The loop of [operator<] over the cells. *)
Fixpoint cells_lt (xs ys : list QByteArray) : bool :=
  match xs, ys with
  | x :: xs', y :: ys' =>
    let cmpRes := strcmp x y in
    if cmpRes <? 0 then true
    else if 0 <? cmpRes then false
    else cells_lt xs' ys'
  | _, _ => false
  end.

(** bool DataRow::operator < ( const DataRow &other ) const *)
Definition DataRow_lt (r other : DataRow) : bool :=
  cells_lt (cells r) (cells other).

(** [std::multiset<DataRow>::insert]: the element goes to the upper bound
    of its key, before the first element that is greater. *)
Fixpoint multiset_insert (x : DataRow) (s : list DataRow) : list DataRow :=
  match s with
  | [] => [x]
  | y :: s' => if DataRow_lt x y then x :: s
               else y :: multiset_insert x s'
  end.

(** * The vault engine *)

Record StorageEngine := mkStorageEngine {
  data : list DataRow;          (* std::multiset<DataRow>, in order *)
  dbFileName : string;
  errorDescription : string;
  key : QByteArray
}.

Definition set_error (st : StorageEngine) (msg : string) : StorageEngine :=
  mkStorageEngine (data st) (dbFileName st) msg (key st).

Definition set_data (st : StorageEngine) (rows : list DataRow) : StorageEngine :=
  mkStorageEngine rows (dbFileName st) (errorDescription st) (key st).

Definition ENC_IV_SIZE : Z := 12.
Definition ENC_MAC_SIZE : Z := 16.
Definition FILE_APPENDIX_SIZE : Z := ENC_IV_SIZE + ENC_MAC_SIZE.

(** Modelled from the spec: [EVP_CIPHER_iv_length] and
    [EVP_CIPHER_key_length] of [EVP_aes_256_gcm()] (sections 4.4 and 6.1:
    IV size 12, key length 32). *)
Definition EVP_CIPHER_iv_length : Z := 12.
Definition EVP_CIPHER_key_length : Z := 32.

(** The first part of [writeDbFile]: the outer sequence frame of the
    rows; [None] is the branch "Error serializing the data". *)
Definition encode_db (rows : list DataRow) : option QByteArray :=
  let sequenceInnerSize :=
    fold_left (fun acc r => to_size_t (acc + fst (encode r false 0))) rows 0 in
  let dataSize :=
    to_size_t (ASN1_object_size 1 (to_int sequenceInnerSize) V_ASN1_SEQUENCE) in
  let header :=
    ASN1_put_object 1 (to_int sequenceInnerSize) V_ASN1_SEQUENCE
                    V_ASN1_UNIVERSAL in
  (* writePtr as an offset into fileContent, and the bytes stored so far *)
  let '(writePtr, written) :=
    fold_left
      (fun '(writePtr, written) r =>
         let '(n, stored) := encode r true (to_size_t (dataSize - writePtr)) in
         (writePtr + n, written ++ stored))
      rows (Z.of_nat (length header), header) in
  if writePtr =? dataSize then Some written else None.

(** The loop [while( curPtr < endPtr )] of [readDbFile].  Each row takes
    at least one byte, so as many turns as there are bytes are enough. *)
Fixpoint read_rows (fuel : nat) (p : list byte) (rows : list DataRow)
  : list DataRow :=
  match fuel, p with
  | S fuel', _ :: _ =>
    let '(curEntry, p') := DataRow_parse p in
    read_rows fuel' p' (multiset_insert curEntry rows)
  | _, _ => rows
  end.

(** The last part of [readDbFile]: the structure check and the rows;
    [None] is the branch "Password DB structure is corrupted". *)
Definition decode_db (fileContent : QByteArray) : option (list DataRow) :=
  match ASN1_get_object fileContent with
  | Asn1Error => None
  | Asn1Object ret tag xclass len rest =>
    if negb (ret =? V_ASN1_CONSTRUCTED) || negb (tag =? V_ASN1_SEQUENCE)
       || negb (xclass =? V_ASN1_UNIVERSAL)
       || negb (len =? Z.of_nat (length rest))
    then None
    else Some (read_rows (length rest) rest [])
  end.

(** The characters of the messages that a literal cannot hold. *)
Definition newline : string := String (ascii_of_nat 10) EmptyString.
Definition dquote : string := String (ascii_of_nat 34) EmptyString.

(** What the file system may refuse in [writeFileContent]. *)
Inductive fs_refusal :=
| CannotCreate | CannotWrite | CannotRemoveOld | CannotRename.

Section Engine.

(** The cipher and the file system, which the engine reaches through
    OpenSSL and Qt. *)

(** [RAND_bytes( ivPtr, ENC_IV_SIZE )]: the IV, or a failure. *)
Variable RAND_bytes_iv : option QByteArray.

(** AES-256-GCM encryption under a key and an IV (context creation,
    [EVP_EncryptInit], [EVP_EncryptUpdate], [EVP_EncryptFinal] and the tag
    request): the bytes and [outLen] of the update, [outLen] of the final
    step and the tag, or a failure of one of the calls. *)
Variable EVP_encrypt :
  QByteArray -> QByteArray -> QByteArray -> option (QByteArray * Z * QByteArray).

(** AES-256-GCM decryption under a key, an IV and an expected tag: the
    bytes of the update and [outLen] of the final step, or a failure of
    one of the calls (a tag mismatch among them). *)
Variable EVP_decrypt :
  QByteArray -> QByteArray -> QByteArray -> QByteArray -> option (QByteArray * Z).

(** The refusal of the file system during a save, if any, and the name of
    the indexed file. *)
Variable fs_refuses : option fs_refusal.
Variable newFileName : string.

(** bool StorageEngine::encryptData( QByteArray *buf ): the new content
    of the buffer, [None] for [false]. *)
Definition encryptData (key buf : QByteArray) : option QByteArray :=
  if negb (EVP_CIPHER_iv_length =? ENC_IV_SIZE)
     || negb (EVP_CIPHER_key_length =? Z.of_nat (length key))
  then None
  else
    let payloadSize := Z.of_nat (length buf) in
    match RAND_bytes_iv with
    | None => None
    | Some iv =>
      match EVP_encrypt key iv buf with
      | None => None
      | Some (payload, outLen, mac) =>
        if negb (Z.of_nat (length payload) =? payloadSize)
           || negb (outLen =? 0)
        then None
        else Some (payload ++ iv ++ mac)
      end
    end.

(** bool StorageEngine::decryptData( QByteArray *buf ) *)
Definition decryptData (key buf : QByteArray) : option QByteArray :=
  if negb (EVP_CIPHER_iv_length =? ENC_IV_SIZE)
     || negb (EVP_CIPHER_key_length =? Z.of_nat (length key))
     || (Z.of_nat (length buf) <=? FILE_APPENDIX_SIZE)
  then None
  else
    let payloadSize := Z.to_nat (Z.of_nat (length buf) - FILE_APPENDIX_SIZE) in
    let payload := take payloadSize buf in
    let iv := take (Z.to_nat ENC_IV_SIZE) (drop payloadSize buf) in
    let mac := drop (Z.to_nat ENC_IV_SIZE) (drop payloadSize buf) in
    match EVP_decrypt key iv payload mac with
    | None => None
    | Some (plain, outLen) =>
      if negb (Z.of_nat (length plain) =? Z.of_nat payloadSize)
         || negb (outLen =? 0)
      then None
      else Some plain
    end.

(** bool StorageEngine::readFileContent( QByteArray *dst ) on the file at
    [dbFileName]: [None] when there is no file that can be opened. *)
Definition readFileContent (disk : option QByteArray) : option QByteArray :=
  disk.

(** bool StorageEngine::readDbFile() *)
Definition readDbFile (disk : option QByteArray) (st : StorageEngine)
  : bool * StorageEngine :=
  match readFileContent disk with
  | None =>
    (false, set_error st ("Cannot open DB file: " ++ dbFileName st))
  | Some fileContent =>
    match decryptData (key st) fileContent with
    | None => (false, set_error st "Wrong password or file corruption")
    | Some fileContent =>
      match decode_db fileContent with
      | None => (false, set_error st "Password DB structure is corrupted")
      | Some rows => (true, set_data st rows)
      end
    end
  end.

(** bool StorageEngine::writeFileContent( const QByteArray &buf ): the
    file at [dbFileName] afterwards.  The search for a free indexed name
    is left to the file system: [newFileName] is the name it settles
    on. *)
Definition writeFileContent (buf : QByteArray) (st : StorageEngine)
    (disk : option QByteArray)
  : bool * StorageEngine * option QByteArray :=
  match fs_refuses with
  | Some CannotCreate =>
    (false, set_error st "Cannot create indexed file", disk)
  | Some CannotWrite =>
    (false, set_error st "Error writing to the file", disk)
  | None | Some CannotRemoveOld | Some CannotRename =>
    match disk, fs_refuses with
    | Some _, Some CannotRemoveOld =>
      (false,
       set_error st
         ("Cannot remove previous version of DB file." ++ newline
          ++ "New one is saved under name " ++ dquote ++ newFileName
          ++ dquote ++ newline
          ++ "Please resolve it manually or try again."),
       disk)
    | _, Some CannotRename =>
      (false,
       set_error st
         ("Cannot rename new DB file." ++ newline
          ++ "It is saved under name " ++ dquote ++ newFileName
          ++ dquote ++ newline
          ++ "Please resolve it manually or try again."),
       None)
    | _, _ => (true, st, Some buf)
    end
  end.

(** bool StorageEngine::writeDbFile() *)
Definition writeDbFile (st : StorageEngine) (disk : option QByteArray)
  : bool * StorageEngine * option QByteArray :=
  match encode_db (data st) with
  | None => (false, set_error st "Error serializing the data", disk)
  | Some fileContent =>
    match encryptData (key st) fileContent with
    | None => (false, set_error st "Error encrypting the data", disk)
    | Some fileContent => writeFileContent fileContent st disk
    end
  end.

End Engine.

(** ** Notions used to state the properties of the codec *)

Definition is_empty (cell : QByteArray) : bool :=
  match cell with [] => true | _ :: _ => false end.

(** All four cells of the row are empty. *)
Definition all_empty (r : DataRow) : bool := forallb is_empty (cells r).

(** The frames of the non-empty cells of a row, in role order. *)
Definition cell_frames (r : DataRow) : list byte :=
  flat_map
    (fun '(tag, cell) =>
       ASN1_put_object 0 (Z.of_nat (length cell)) tag V_ASN1_CONTEXT_SPECIFIC
       ++ cell)
    (List.filter (fun '(_, cell) => negb (is_empty cell))
            (combine cellTags (cells r))).

(** The frame of one cell, as [encode] stores it. *)
Definition frame_of_cell (f : Z * QByteArray) : list byte :=
  ASN1_put_object 0 (Z.of_nat (length (snd f))) (fst f) V_ASN1_CONTEXT_SPECIFIC
  ++ snd f.

(** The record frame of a row: the header of a constructed universal SET
    and the cell frames. *)
Definition record_frame (r : DataRow) : list byte :=
  ASN1_put_object 1 (Z.of_nat (length (cell_frames r))) V_ASN1_SET
                  V_ASN1_UNIVERSAL
  ++ cell_frames r.

(** The outer sequence frame of a list of rows. *)
Definition sequence_frame (rows : list DataRow) : list byte :=
  ASN1_put_object 1 (Z.of_nat (length (flat_map record_frame rows)))
                  V_ASN1_SEQUENCE V_ASN1_UNIVERSAL
  ++ flat_map record_frame rows.

(** An upper bound of the size of the record frame of a row, and of the
    sequence frame of a list of rows: six bytes for each header. *)
Definition row_volume (r : DataRow) : Z :=
  fold_right (fun cell acc => Z.of_nat (length cell) + 6 + acc) 6 (cells r).

Definition rows_volume (rows : list DataRow) : Z :=
  fold_right (fun r acc => row_volume r + acc) 6 rows.

(** The rows that [writeDbFile] stores: those with a non-empty cell. *)
Definition stored_rows (rows : list DataRow) : list DataRow :=
  List.filter (fun r => negb (all_empty r)) rows.

(** The store obtained by inserting the rows one after the other. *)
Definition multiset_of (rows : list DataRow) : list DataRow :=
  fold_left (fun s r => multiset_insert r s) rows [].

(** ** The order of the store, as the specification words it *)

(** Lexicographic comparison of two lists by a comparison of their
    elements; a proper prefix comes first. *)
Fixpoint lex_compare {A : Type} (cmp : A -> A -> comparison)
    (xs ys : list A) : comparison :=
  match xs, ys with
  | [], [] => Eq
  | [], _ :: _ => Lt
  | _ :: _, [] => Gt
  | x :: xs', y :: ys' =>
    match cmp x y with
    | Eq => lex_compare cmp xs' ys'
    | c => c
    end
  end.

Definition byte_compare (x y : byte) : comparison :=
  Z.compare (Z_of_byte x) (Z_of_byte y).

(** Byte-wise lexicographic comparison of two byte strings. *)
Definition bytes_compare (a b : QByteArray) : comparison :=
  lex_compare byte_compare a b.

(** Lexicographic comparison of two tuples of cells. *)
Definition key_compare (k1 k2 : list QByteArray) : comparison :=
  lex_compare bytes_compare k1 k2.

(** What [strcmp] sees of a byte array: the bytes before the first
    NUL. *)
Fixpoint c_str (a : QByteArray) : QByteArray :=
  match a with
  | [] => []
  | b :: a' => if Z_of_byte b =? 0 then [] else b :: c_str a'
  end.

(** A byte array without a NUL byte. *)
Definition no_nul (a : QByteArray) : Prop :=
  Forall (fun b => Z_of_byte b <> 0) a.

(** The store is in order: no element is less than an earlier one. *)
Definition in_order (s : list DataRow) : Prop :=
  StronglySorted (fun a b => DataRow_lt b a = false) s.








(** ** Sample rows *)

Definition row_gmail : DataRow :=
  mkDataRow (bytes "gmail") (bytes "u") (bytes "p") [].

Definition row_bank : DataRow :=
  mkDataRow (bytes "bank") (bytes "me") [] (bytes "pin in the safe").

(** Two rows that differ behind a NUL byte of the service cell. *)
Definition row_nul_b : DataRow :=
  mkDataRow [byte_of_Z 97; x00; byte_of_Z 98] [] [] [].

Definition row_nul_c : DataRow :=
  mkDataRow [byte_of_Z 97; x00; byte_of_Z 99] [] [] [].

(** ** What the cipher library stores *)

(** [RAND_bytes( ivPtr, ENC_IV_SIZE )] stores [ENC_IV_SIZE] bytes. *)
Definition iv_sized (RAND_bytes_iv : option QByteArray) : Prop :=
  forall iv, RAND_bytes_iv = Some iv -> Z.of_nat (length iv) = ENC_IV_SIZE.

(** The tag request for [ENC_MAC_SIZE] bytes stores that many. *)
Definition mac_sized
    (EVP_encrypt : QByteArray -> QByteArray -> QByteArray ->
                   option (QByteArray * Z * QByteArray)) : Prop :=
  forall key iv buf payload outLen mac,
    EVP_encrypt key iv buf = Some (payload, outLen, mac) ->
    Z.of_nat (length mac) = ENC_MAC_SIZE.

(** ** A sample cipher and a sample engine *)

Definition sample_iv : option QByteArray := Some (repeat x01 12).

(** A stand-in for the cipher: the payload masked with the first key
    byte, and a constant tag. *)
Definition sample_encrypt (key iv buf : QByteArray)
  : option (QByteArray * Z * QByteArray) :=
  Some (map (fun b => byte_of_Z (Z.lxor (Z_of_byte b)
                                        (Z_of_byte (hd x00 key)))) buf,
        0, repeat x02 16).

Definition sample_key : QByteArray := repeat x2a 32.

Definition sample_engine : StorageEngine :=
  mkStorageEngine [] "vault.db" EmptyString sample_key.

(** * Further notions *)

(** ** The pool as a stream of bits *)

(** The limbs read as one number, limb 0 lowest. *)
Fixpoint limbs_value (pl : list Z) : Z :=
  match pl with
  | [] => 0
  | limb :: rest => limb + 2 ^ 32 * limbs_value rest
  end.

(** The unread bits of the pool, as a number below [2 ^ poolSize]: the
    bits above them have been handed out. *)
Definition unread (st : Randomizer) : Z :=
  limbs_value (pool st) mod 2 ^ poolSize st.

(** A pool right after a refill with the limbs [limbs_AB]. *)
Definition pool_AB : Randomizer := mkRandomizer limbs_AB 256 1.

(** ** The literal tables *)

(** The sum of the weights of a table. *)
Definition total_weight (table : list LitInfo) : Z :=
  fold_right (fun i acc => weight i + acc) 0 table.

(** The tables that [makeName] walks. *)
Definition literal_tables : list (list LitInfo) :=
  [vowelSet; consonantSet; wordEndSet].

(** A character in 'a'..'z'. *)
Definition is_lowercase (c : ascii) : Prop :=
  (97 <= N_of_ascii c <= 122)%N.

(** ** Runs that return *)

(** From every state that satisfies the pool invariant the run returns,
    in such a state again, a result that satisfies [Q]. *)
Definition returns {A} (m : Run A) (Q : A -> Prop) : Prop :=
  forall st, pool_inv st ->
    exists a st', m st = Some (a, st') /\ pool_inv st' /\ Q a.

(** Every refill from the state on is refused. *)
Definition csprng_down (RAND_bytes : nat -> option (list Z))
    (st : Randomizer) : Prop :=
  forall k, (refills st <= k)%nat -> RAND_bytes k = None.

(** ** Callers of the generators *)

(** static const char *randomDomainSet[] *)
Definition randomDomainSet : list std_string :=
  [str ".com"; str ".net"; str ".org"; str ".info"; str EmptyString].

Section Callers.

Variable RAND_bytes : nat -> option (list Z).

(** The branch of [MainWindow::randomizeCell] for the columns other than
    the password: a name of two to five syllables and, in the service
    column, a domain behind it. *)
Definition randomizeCell_name (col : Z) : Run std_string :=
  randomized <-- makeName RAND_bytes 2 5 ;;
  if col =? 0 then
    domainNo <-- makeNumber RAND_bytes
                   (Z.of_nat (length randomDomainSet) - 1) ;;
    suffix <-- index randomDomainSet (to_int domainNo) ;;
    ret (randomized ++ suffix)
  else ret randomized.


End Callers.

(** ** Further notions on the engine *)

(** The decryption undoes the encryption: what was encrypted under a key
    and an IV is handed back under the same key, IV and tag. *)
Definition cipher_inverse
    (EVP_encrypt : QByteArray -> QByteArray -> QByteArray ->
                   option (QByteArray * Z * QByteArray))
    (EVP_decrypt : QByteArray -> QByteArray -> QByteArray -> QByteArray ->
                   option (QByteArray * Z)) : Prop :=
  forall key iv buf payload mac,
    EVP_encrypt key iv buf = Some (payload, 0, mac) ->
    EVP_decrypt key iv payload mac = Some (buf, 0).

(** The stand-in that undoes [sample_encrypt]. *)
Definition sample_decrypt (key iv payload mac : QByteArray)
  : option (QByteArray * Z) :=
  Some (map (fun b => byte_of_Z (Z.lxor (Z_of_byte b)
                                        (Z_of_byte (hd x00 key)))) payload,
        0).

(** What a run of cell frames leaves in the cell of a role: the contents
    of the frames with the tag of the role, in their order. *)
Definition cell_content (tag : Z) (frames : list (Z * QByteArray))
  : QByteArray :=
  flat_map snd (List.filter (fun f => fst f =? tag) frames).

(** An engine that holds the two sample rows. *)
Definition sample_store : StorageEngine :=
  mkStorageEngine [row_bank; row_gmail] "vault.db" EmptyString sample_key.

(** * The command line of the application *)

(** enum AppCommand *)
Definition CMD_NOTHING : Z := 0x00.
Definition CMD_OPEN : Z := 0x01.
Definition CMD_NEWPASS : Z := 0x02.
Definition CMD_EDIT : Z := 0x04.
Definition CMD_HELP : Z := 0x08.
Definition CMD_FILEDLG : Z := 0x10.

Definition helpKeywords : list string :=
  ["help"; "-h"; "-help"; "--help"; "-?"; "/?"; "\?"]%string.

(** static int identifyCommand( const char *cmd ): [strcmp] is zero on
    equal strings. *)
Definition identifyCommand (cmd : string) : Z :=
  if String.eqb cmd "open" then Z.lor CMD_OPEN CMD_EDIT
  else if String.eqb cmd "new" then Z.lor CMD_NEWPASS CMD_EDIT
  else if String.eqb cmd "chpass" then Z.lor CMD_OPEN CMD_NEWPASS
  else if existsb (String.eqb cmd) helpKeywords then CMD_HELP
  else CMD_NOTHING.

(** How the first part of [main] ends: with an exit code, or with the
    command and the file name that the rest of [main] works on. *)
Inductive startup :=
| Exit (code : Z)
| Proceed (appCommand : Z) (fileName : string).

(** The part "Parse CLI arguments" of [main] on the arguments
    [argv[0] .. argv[argc - 1]]; [file_exists] is [QFile::exists]. *)
Definition parse_arguments (file_exists : string -> bool)
    (argv : list string) : startup :=
  match argv with
  | [] => Exit 1
  | [_] => Proceed (Z.lor (Z.lor CMD_FILEDLG CMD_NEWPASS) CMD_EDIT) EmptyString
  | _ :: argv1 :: rest =>
    let appCommand := identifyCommand argv1 in
    if negb (Z.land appCommand CMD_HELP =? 0) then Exit 0
    else if negb (CMD_NOTHING =? appCommand) then
      match rest with
      | argv2 :: _ => Proceed appCommand argv2
      | [] => Proceed (Z.lor appCommand CMD_FILEDLG) EmptyString
      end
    else
      let fileName := argv1 in
      if (length argv =? 2)%nat && file_exists fileName
      then Proceed (Z.lor CMD_OPEN CMD_EDIT) fileName
      else Exit 1
  end.

(** * The application *)

(** StorageEngine::StorageEngine( const QString &file ) *)
Definition StorageEngine_new (file : string) : StorageEngine :=
  mkStorageEngine [] file EmptyString [].

(** How [main] ends behind the parsing of the arguments: it returns a
    code, or it shows the editing window on the engine.  [disk] is the
    file at the name that [main] works on, if it got so far. *)
Inductive main_end :=
| MainReturn (code : Z) (disk : option (option QByteArray))
| MainWindow_shown (storage : StorageEngine) (disk : option QByteArray).

Section Application.

(** The user, the key derivation, the cipher and the file system. *)

(** [passwordDialog]: the text entered in the [k]-th password dialog of
    the run, or nothing when the dialog is dismissed. *)
Variable passwordDialog : nat -> option string.

(** [fileDialog( &fileName, newOne )]: the file chosen, or nothing when
    it returns [false]. *)
Variable fileDialog : bool -> option string.

(** [QString::toUtf8]. *)
Variable toUtf8 : string -> QByteArray.

(** [PKCS5_PBKDF2_HMAC] on a password and a key length, with the salt,
    the iteration count and the hash of the program: the bytes stored
    in the key, or a failure. *)
Variable PKCS5_PBKDF2_HMAC : QByteArray -> Z -> option QByteArray.

(** What the resized key holds behind a failed derivation. *)
Variable key_left : QByteArray -> QByteArray.

Variable RAND_bytes_iv : option QByteArray.
Variable EVP_encrypt :
  QByteArray -> QByteArray -> QByteArray -> option (QByteArray * Z * QByteArray).
Variable EVP_decrypt :
  QByteArray -> QByteArray -> QByteArray -> QByteArray -> option (QByteArray * Z).
Variable fs_refuses : option fs_refusal.
Variable newFileName : string.

(** [QFile::exists] and the content of the files. *)
Variable file_exists : string -> bool.
Variable file_content : string -> option QByteArray.

(** bool StorageEngine::setPassword( const QString &password ) *)
Definition setPassword (password : string) (st : StorageEngine)
  : bool * StorageEngine :=
  let passUtf8 := toUtf8 password in
  match PKCS5_PBKDF2_HMAC passUtf8 EVP_CIPHER_key_length with
  | Some derived =>
    (true,
     mkStorageEngine (data st) (dbFileName st) (errorDescription st) derived)
  | None =>
    (false,
     mkStorageEngine (data st) (dbFileName st) "Key derivation failure"
                     (key_left (key st)))
  end.

(** static bool loadDataFile( StorageEngine *storage ), with the number
    of password dialogs shown so far. *)
Definition loadDataFile (storage : StorageEngine) (disk : option QByteArray)
    (k : nat) : bool * StorageEngine * nat :=
  match passwordDialog k with
  | None => (false, storage, S k)
  | Some password =>
    let '(ok, storage) := setPassword password storage in
    if negb ok then (false, storage, S k)
    else
      let '(ok, storage) := readDbFile EVP_decrypt disk storage in
      (ok, storage, S k)
  end.

(** The loop [while( true )] of [askSetNewPassword]: the password
    entered twice, or nothing when a dialog is dismissed.  The loop ends
    when the user dismisses a dialog or enters the same text twice;
    [fuel] bounds its turns, and with none left it has not ended. *)
Fixpoint askSetNewPassword_loop (fuel : nat) (k : nat)
  : option (option string * nat) :=
  match fuel with
  | O => None
  | S fuel' =>
    match passwordDialog k with
    | None => Some (None, S k)
    | Some pass1 =>
      match passwordDialog (S k) with
      | None => Some (None, S (S k))
      | Some pass2 =>
        if String.eqb pass1 pass2 then Some (Some pass1, S (S k))
        else askSetNewPassword_loop fuel' (S (S k))
      end
    end
  end.

(** static bool askSetNewPassword( StorageEngine *storage ) *)
Definition askSetNewPassword (fuel : nat) (storage : StorageEngine) (k : nat)
  : option (bool * StorageEngine * nat) :=
  match askSetNewPassword_loop fuel k with
  | None => None
  | Some (None, k') => Some (false, storage, k')
  | Some (Some pass1, k') =>
    let '(ok, storage) := setPassword pass1 storage in
    Some (ok, storage, k')
  end.

(** int main( int argc, char **argv ) *)
Definition main (fuel : nat) (argv : list string) : option main_end :=
  (* 1. Parse CLI arguments *)
  match parse_arguments file_exists argv with
  | Exit code => Some (MainReturn code None)
  | Proceed appCommand fileName =>
    (* 2. Initialize the application *)
    let chosen :=
      if negb (Z.land appCommand CMD_FILEDLG =? 0)
      then fileDialog (Z.land appCommand CMD_OPEN =? 0)
      else Some fileName in
    match chosen with
    | None => Some (MainReturn 1 None)
    | Some fileName =>
      let storage := StorageEngine_new fileName in
      let disk := file_content fileName in
      (* 3. Execute commands *)
      let '(ok, storage, k) :=
        if negb (Z.land appCommand CMD_OPEN =? 0)
        then loadDataFile storage disk 0
        else (true, storage, 0%nat) in
      if negb ok then Some (MainReturn 1 (Some disk))
      else
        let asked :=
          if negb (Z.land appCommand CMD_NEWPASS =? 0)
          then askSetNewPassword fuel storage k
          else Some (true, storage, k) in
        match asked with
        | None => None
        | Some (false, _, _) => Some (MainReturn 1 (Some disk))
        | Some (true, storage, _) =>
          if negb (Z.land appCommand CMD_EDIT =? 0)
          then Some (MainWindow_shown storage disk)
          else
            (* No main window, just save database *)
            let '(ok, _, disk) :=
              writeDbFile RAND_bytes_iv EVP_encrypt fs_refuses newFileName
                          storage disk in
            if ok then Some (MainReturn 0 (Some disk))
            else Some (MainReturn 1 (Some disk))
        end
    end
  end.

End Application.

(** ** Notions used to state the properties of the application *)

(** The dialogs [k], [k + 1], ..., [k + 2 * j - 1] were answered, and no
    pair of them with the same text. *)
Definition mismatched (passwordDialog : nat -> option string) (k j : nat)
  : Prop :=
  forall i, (i < j)%nat ->
    exists pass1 pass2,
      passwordDialog (k + 2 * i)%nat = Some pass1 /\
      passwordDialog (k + 2 * i + 1)%nat = Some pass2 /\
      pass1 <> pass2.

(** The key derivation stores as many bytes as it is asked for. *)
Definition kdf_sized (PKCS5_PBKDF2_HMAC : QByteArray -> Z -> option QByteArray)
  : Prop :=
  forall pass keylen derived,
    PKCS5_PBKDF2_HMAC pass keylen = Some derived ->
    Z.of_nat (length derived) = keylen.

(** ** A sample user and a sample key derivation *)

(** A user who opens with "old", mistypes the new password once and then
    enters "new" twice. *)
Definition sample_dialogs (k : nat) : option string :=
  nth k [Some "old"; Some "new"; Some "mew"; Some "new"; Some "new"]%string
      None.

(** A stand-in for the key derivation: the first byte of the password,
    as many times as asked for. *)
Definition sample_kdf (pass : QByteArray) (keylen : Z) : option QByteArray :=
  Some (repeat (hd x00 pass) (Z.to_nat keylen)).

(** The file of the sample store under the key derived from "old", at
    every name. *)
Definition sample_files (name : string) : option QByteArray :=
  snd (writeDbFile sample_iv sample_encrypt None "vault.db_0"
         (mkStorageEngine [row_bank; row_gmail] "vault.db" EmptyString
                          (repeat x6f 32))
         None).

(** The same store under the key derived from "new". *)
Definition sample_file_new : option QByteArray :=
  snd (writeDbFile sample_iv sample_encrypt None "vault.db_0"
         (mkStorageEngine [row_bank; row_gmail] "vault.db" EmptyString
                          (repeat x6e 32))
         None).

(** ** The bits spent *)

(** The number of bits handed out since the object was made: the bits
    of the refills less the unread ones.  (The object starts with an
    empty pool.) *)
Definition consumed (st : Randomizer) : Z :=
  256 * Z.of_nat (refills st) - poolSize st.

(** The CSPRNG grants every refill. *)
Definition csprng_up (RAND_bytes : nat -> option (list Z)) : Prop :=
  forall k, RAND_bytes k <> None.

(** From every state that satisfies the pool invariant the run returns,
    in such a state again, a result that satisfies [Q], and it has spent
    [bits] bits of the pool. *)
Definition spends {A} (m : Run A) (bits : Z) (Q : A -> Prop) : Prop :=
  forall st, pool_inv st ->
    exists a st',
      m st = Some (a, st') /\ pool_inv st' /\
      consumed st' = consumed st + bits /\ Q a.

(** A CSPRNG that answers every call with the limbs [limbs_AB]. *)
Definition csprng_AB : nat -> option (list Z) := fun _ => Some limbs_AB.

(** * Properties *)

(** ** Facts on machine integers *)

Ltac zdiv := Z.div_mod_to_equations; Z.quot_rem_to_equations; lia.

Lemma pow2_pos (n : Z) : 0 <= n -> 0 < 2 ^ n.
Proof. intros; apply Z.pow_pos_nonneg; lia. Qed.

Lemma pow2_le (a b : Z) : 0 <= a <= b -> 2 ^ a <= 2 ^ b.
Proof. intros; apply Z.pow_le_mono_r; lia. Qed.

Lemma low_mask_ones (n : Z) : 0 <= n <= 32 -> low_mask n = Z.ones n.
Proof.
  intros Hn.
  assert (Hk : exists k : nat, n = Z.of_nat k /\ (k <= 32)%nat)
    by (exists (Z.to_nat n); lia).
  destruct Hk as (k & -> & Hk).
  do 33 (destruct k as [|k]; [vm_compute; reflexivity|]).
  lia.
Qed.

Lemma land_low_mask (x n : Z) :
  0 <= n <= 32 -> Z.land x (low_mask n) = x mod 2 ^ n.
Proof.
  intros Hn. rewrite low_mask_ones by assumption.
  apply Z.land_ones; lia.
Qed.

Lemma shl32_small (res k n : Z) :
  0 <= k <= n -> n <= 32 -> 0 <= res < 2 ^ (n - k) ->
  shl32 res k = res * 2 ^ k /\ 0 <= res * 2 ^ k < 2 ^ n.
Proof.
  intros Hk Hn Hres.
  assert (Hp : 0 < 2 ^ k) by (apply pow2_pos; lia).
  assert (Hb : 0 <= res * 2 ^ k < 2 ^ n).
  { replace n with ((n - k) + k) at 1 by lia.
    rewrite Z.pow_add_r by lia. nia. }
  split; [|exact Hb].
  unfold shl32, u32. rewrite Z.shiftl_mul_pow2 by lia.
  apply Z.mod_small.
  pose proof (pow2_le n 32). lia.
Qed.

Lemma lor_bound (a b n : Z) :
  0 <= n -> 0 <= a < 2 ^ n -> 0 <= b < 2 ^ n -> 0 <= Z.lor a b < 2 ^ n.
Proof.
  intros Hn Ha Hb.
  rewrite <- (Z.mod_small a (2 ^ n)), <- (Z.mod_small b (2 ^ n)) by assumption.
  rewrite <- !Z.land_ones by assumption.
  rewrite <- Z.land_lor_distr_l, Z.land_ones by assumption.
  apply Z.mod_pos_bound, pow2_pos; assumption.
Qed.

Lemma shiftr_bound (limb r c : Z) :
  0 <= c < r -> 0 <= limb < 2 ^ r -> 0 <= Z.shiftr limb (r - c) < 2 ^ c.
Proof.
  intros Hc Hl.
  rewrite Z.shiftr_div_pow2 by lia.
  assert (Hp : 0 < 2 ^ (r - c)) by (apply pow2_pos; lia).
  split; [apply Z.div_pos; lia|].
  apply Z.div_lt_upper_bound; [lia|].
  rewrite <- Z.pow_add_r by lia.
  replace (r - c + c) with r by lia. lia.
Qed.

Lemma limb_position (ps : Z) :
  1 <= ps <= 256 ->
  Z.quot (ps - 1) 32 = (ps - 1) / 32 /\
  0 <= (ps - 1) / 32 <= 7 /\ 1 <= ps - (ps - 1) / 32 * 32 <= 32.
Proof. intros; split; [apply Z.quot_div_nonneg; lia | zdiv]. Qed.

(** ** The bit pool *)

Lemma pool_ok_limb (pl : list Z) (ps : Z) :
  pool_ok pl ps -> 1 <= ps ->
  exists limb, pl !! Z.to_nat ((ps - 1) / 32) = Some limb /\
               0 <= limb < 2 ^ (ps - (ps - 1) / 32 * 32).
Proof.
  intros (Hlen & Hall & Hps & Hcur) Hpos.
  destruct (limb_position ps) as (_ & Hq & Hr); [lia|].
  destruct (lookup_lt_is_Some_2 pl (Z.to_nat ((ps - 1) / 32))) as [limb Hl];
    [lia|].
  exists limb; split; [exact Hl|].
  pose proof (Forall_lookup_1 _ _ _ _ Hall Hl) as Hu. unfold is_u32 in Hu.
  split; [lia | apply Hcur; [lia | exact Hl]].
Qed.

Lemma pool_ok_whole_limbs (pl : list Z) (q : Z) :
  length pl = 8%nat -> Forall is_u32 pl -> 0 <= q <= 8 ->
  pool_ok pl (q * 32).
Proof.
  intros Hlen Hall Hq. repeat split; try assumption; try lia.
  intros limb Hpos Hl.
  pose proof (Forall_lookup_1 _ _ _ _ Hall Hl) as Hu. unfold is_u32 in Hu.
  replace (q * 32 - (q * 32 - 1) / 32 * 32) with 32 by zdiv.
  lia.
Qed.

Section BitPool.

Variable RAND_bytes : nat -> option (list Z).

(** The loop of [getBits] ends, keeps the invariant and yields a value
    below [2 ^ n], [n] being the bits asked for.  A non-zero [res] only
    occurs in front of a whole fresh limb and with fewer than 32 bits to
    go, so the first branch always shifts a zero, and no shift by 32
    meets a non-zero value. *)
Lemma getBits_loop_ok (n : Z) (fuel : nat) :
  forall res count pl ps,
    pool_ok pl ps -> 0 <= count <= n -> n <= 32 -> count <= ps ->
    (Z.to_nat count <= fuel)%nat ->
    0 <= res < 2 ^ (n - count) ->
    (res = 0 \/ (ps mod 32 = 0 /\ count < 32)) ->
    exists res' pl' ps',
      getBits_loop fuel res count pl ps = Some (res', pl', ps') /\
      pool_ok pl' ps' /\ 0 <= res' < 2 ^ n.
Proof.
  induction fuel as [|fuel IH]; intros res count pl ps Hok Hc Hn Hps Hfuel Hres Hz.
  - assert (count = 0) as -> by lia. simpl.
    exists res, pl, ps. rewrite Z.sub_0_r in Hres. auto.
  - simpl. destruct (Z.ltb_spec 0 count) as [Hpos|Hle].
    2:{ assert (count = 0) as -> by lia.
        exists res, pl, ps. rewrite Z.sub_0_r in Hres. auto. }
    destruct (limb_position ps) as (Hquot & Hq & Hr); [destruct Hok as (_ & _ & ? & _); lia|].
    rewrite Hquot.
    destruct (pool_ok_limb pl ps Hok) as (limb & Hl & Hlimb); [lia|].
    set (q := (ps - 1) / 32) in *.
    destruct (Z.ltb_spec q 0) as [?|_]; [lia|].
    rewrite Hl.
    assert (Hdef : shl32_defined res count = true).
    { unfold shl32_defined. destruct Hz as [->|[_ Hc32]].
      - rewrite Z.eqb_refl. apply Bool.orb_true_r.
      - destruct (Z.ltb_spec count 32); [reflexivity | lia]. }
    rewrite Hdef. cbn [negb].
    destruct Hok as (Hlen & Hall & Hpsb & Hcur).
    destruct (Z.leb_spec (ps - q * 32) count) as [Hwhole|Hpart].
    + (* the rest of the limb is taken whole *)
      assert (res = 0) as -> by (destruct Hz as [?|[Hm ?]]; [assumption|zdiv]).
      assert (shl32 0 count = 0) as ->
        by (unfold shl32, u32; rewrite Z.shiftl_0_l; reflexivity).
      rewrite Z.lor_0_l.
      apply IH; try lia.
      * replace (ps - (ps - q * 32)) with (q * 32) by lia.
        apply pool_ok_whole_limbs; [assumption..|lia].
      * split; [lia|].
        eapply Z.lt_le_trans; [apply Hlimb|]. apply pow2_le; lia.
      * right. split; [zdiv | lia].
    + (* the high [count] bits of the rest of the limb *)
      destruct (shl32_small res count n) as (-> & Hsh); [lia..|assumption|].
      pose proof (shiftr_bound limb (ps - q * 32) count ltac:(lia) Hlimb) as Hhi.
      assert (Hhi' : 0 <= Z.shiftr limb (ps - q * 32 - count) < 2 ^ n).
      { split; [lia|]. eapply Z.lt_le_trans; [apply Hhi|]. apply pow2_le; lia. }
      rewrite land_low_mask by lia.
      eexists _, _, _. split.
      { destruct fuel; reflexivity. }
      split; [|apply lor_bound; [lia|lia|assumption]].
      assert (Hnew : 0 <= limb mod 2 ^ (ps - q * 32 - count)
                     < 2 ^ (ps - q * 32 - count))
        by (apply Z.mod_pos_bound, pow2_pos; lia).
      assert (Hq' : (ps - count - 1) / 32 = q) by (subst q; zdiv).
      repeat split.
      * rewrite length_insert; assumption.
      * apply Forall_insert; [assumption|].
        split; [lia|]. eapply Z.lt_le_trans; [apply Hnew|]. apply pow2_le; lia.
      * lia.
      * lia.
      * intros limb' _ Hl'. rewrite Hq' in Hl' |- *.
        rewrite list_lookup_insert_eq in Hl' by lia.
        injection Hl' as <-. replace (ps - count - q * 32) with (ps - q * 32 - count) by lia.
        lia.
Qed.

Hypothesis RAND_bytes_ok : csprng_ok RAND_bytes.

(** One call of [getBits]: it returns, the invariant is kept, a value
    handed out is below [2 ^ n]; the call fails exactly when it has to
    refill and the CSPRNG refuses. *)
Lemma getBits_ok (n : Z) (st : Randomizer) :
  pool_inv st -> 1 <= n <= 32 ->
  exists r st',
    getBits RAND_bytes n st = Some (r, st') /\ pool_inv st' /\
    (forall t, r = Some t -> 0 <= t < 2 ^ n) /\
    (r = None <-> poolSize st < n /\ RAND_bytes (refills st) = None) /\
    refills st' = (if poolSize st <? n then S (refills st) else refills st).
Proof.
  intros Hinv Hn. unfold getBits.
  destruct Hinv as (Hlen & Hall & Hps & Hcur).
  destruct (Z.ltb_spec (poolSize st) n) as [Hlt|Hge].
  - destruct (lookup_lt_is_Some_2 (pool st) 0) as [limb0 Hl0]; [lia|].
    rewrite Hl0.
    destruct (RAND_bytes (refills st)) as [fresh|] eqn:Hrand.
    + destruct (RAND_bytes_ok _ _ Hrand) as (Hflen & Hfall).
      rewrite land_low_mask by lia.
      assert (Hres : 0 <= limb0 mod 2 ^ poolSize st < 2 ^ poolSize st)
        by (apply Z.mod_pos_bound, pow2_pos; lia).
      destruct (getBits_loop_ok n (Z.to_nat (n - poolSize st))
                  (limb0 mod 2 ^ poolSize st) (n - poolSize st) fresh 256)
        as (res' & pl' & ps' & -> & Hok' & Hres'); try lia.
      * apply (pool_ok_whole_limbs fresh 8); [assumption..|lia].
      * replace (n - (n - poolSize st)) with (poolSize st) by lia. exact Hres.
      * destruct (Z.eq_dec (poolSize st) 0) as [H0|H0].
        -- left. rewrite H0, Z.pow_0_r. apply Z.mod_1_r.
        -- right. split; [reflexivity|lia].
      * eexists _, _. split; [reflexivity|]. split; [exact Hok'|].
        split; [intros t [= <-]; exact Hres'|].
        split; [|reflexivity].
        split; [discriminate|]. intros [_ [=]].
    + eexists _, _. split; [reflexivity|].
      split; [apply (pool_ok_whole_limbs (pool st) 0); [assumption..|lia]|].
      split; [discriminate|]. split; [|reflexivity]. split; auto.
  - destruct (getBits_loop_ok n (Z.to_nat n) 0 n (pool st) (poolSize st))
      as (res' & pl' & ps' & -> & Hok' & Hres'); try lia.
    + repeat split; assumption || lia.
    + eexists _, _. split; [reflexivity|]. split; [exact Hok'|].
      split; [intros t [= <-]; exact Hres'|].
      split; [|reflexivity].
      split; [discriminate|]. intros [? _]. lia.
Qed.

End BitPool.

Lemma Randomizer_new_inv (garbage : list Z) :
  length garbage = 8%nat -> Forall is_u32 garbage ->
  pool_inv (Randomizer_new garbage).
Proof.
  intros Hlen Hall. apply (pool_ok_whole_limbs garbage 0); [assumption..|lia].
Qed.

(** ** The generators *)

Lemma index_password (t : Z) (st : Randomizer) :
  0 <= t < 64 ->
  index passwordCharSet t st = Some (password_char t, st) /\
  In (password_char t) password_alphabet.
Proof.
  intros Ht. unfold index, password_char.
  destruct (Z.ltb_spec t 0) as [?|_]; [lia|].
  assert (Hk : (Z.to_nat t < 64)%nat) by lia.
  destruct (lookup_lt_is_Some_2 password_alphabet (Z.to_nat t) Hk) as [c Hc].
  rewrite (nth_lookup_Some _ _ zero _ Hc).
  assert (Hin : In c password_alphabet)
    by (apply list_elem_of_In; eapply list_elem_of_lookup_2; exact Hc).
  unfold password_alphabet in Hc.
  rewrite (lookup_take_lt _ _ _ Hk) in Hc.
  rewrite Hc. split; [reflexivity | exact Hin].
Qed.

Lemma index_hex (d : Z) (st : Randomizer) :
  0 <= d < 16 ->
  index hexCharSet d st = Some (hex_digit d, st) /\
  In (hex_digit d) hex_alphabet.
Proof.
  intros Hd. unfold index, hex_digit.
  destruct (Z.ltb_spec d 0) as [?|_]; [lia|].
  assert (Hk : (Z.to_nat d < 16)%nat) by lia.
  destruct (lookup_lt_is_Some_2 hex_alphabet (Z.to_nat d) Hk) as [c Hc].
  rewrite (nth_lookup_Some _ _ zero _ Hc).
  assert (Hin : In c hex_alphabet)
    by (apply list_elem_of_In; eapply list_elem_of_lookup_2; exact Hc).
  unfold hex_alphabet in Hc.
  rewrite (lookup_take_lt _ _ _ Hk) in Hc.
  rewrite Hc. split; [reflexivity | exact Hin].
Qed.

Section GeneratorFacts.

Variable RAND_bytes : nat -> option (list Z).
Hypothesis RAND_bytes_ok : csprng_ok RAND_bytes.

(** One draw, seen from a generator: either a value below [2 ^ n], with
    no refused refill, or a refused refill. *)
Lemma getBits_step (n : Z) (st : Randomizer) :
  pool_inv st -> 1 <= n <= 32 ->
  (exists t st', getBits RAND_bytes n st = Some (Some t, st') /\
     pool_inv st' /\ 0 <= t < 2 ^ n /\ (refills st <= refills st')%nat /\
     forall st2, refill_failed RAND_bytes st st2 <->
                 refill_failed RAND_bytes st' st2) \/
  (exists st', getBits RAND_bytes n st = Some (None, st') /\
     pool_inv st' /\ refills st' = S (refills st) /\
     RAND_bytes (refills st) = None).
Proof.
  intros Hinv Hn.
  destruct (getBits_ok RAND_bytes RAND_bytes_ok n st Hinv Hn)
    as (r & st' & Hrun & Hinv' & Hval & Hfail & Hrefills).
  destruct r as [t|].
  - left. exists t, st'. split; [exact Hrun|]. split; [exact Hinv'|].
    split; [apply Hval; reflexivity|].
    assert (Hno : poolSize st < n -> RAND_bytes (refills st) <> None).
    { intros Hlt Hnone. destruct Hfail as [_ Hf].
      discriminate (Hf (conj Hlt Hnone)). }
    destruct (Z.ltb_spec (poolSize st) n) as [Hlt|Hge].
    + split; [lia|]. intros st2; split; intros (k & Hk & Hnone).
      * exists k; split; [|exact Hnone].
        destruct (Nat.eq_dec k (refills st)) as [->|?];
          [destruct (Hno Hlt Hnone) | lia].
      * exists k; split; [lia | exact Hnone].
    + rewrite Hrefills. split; [lia|]. intros st2; split; intros (k & Hk & Hnone);
        exists k; split; (lia || exact Hnone).
  - right. exists st'. destruct Hfail as [Hf _].
    destruct (Hf eq_refl) as [Hlt Hnone].
    destruct (Z.ltb_spec (poolSize st) n) as [_|?]; [|lia].
    auto.
Qed.

Lemma refill_failed_refl (st : Randomizer) :
  ~ refill_failed RAND_bytes st st.
Proof. intros (k & Hk & _). lia. Qed.

(** [makePassword]: the result is made of the characters of the draws
    that succeeded; a refill is refused exactly when fewer draws
    succeeded than were asked for. *)
Lemma makePassword_loop_spec (turns : nat) :
  forall acc st, pool_inv st ->
    let drawn := drawn_values RAND_bytes 6 turns st in
    exists st',
      makePassword_loop RAND_bytes turns acc st
        = Some (acc ++ map password_char drawn, st') /\
      pool_inv st' /\
      Forall (fun t => 0 <= t < 64) drawn /\
      (length drawn <= turns)%nat /\
      (refill_failed RAND_bytes st st' <-> (length drawn < turns)%nat).
Proof.
  induction turns as [|turns IH]; intros acc st Hinv; cbn zeta.
  - exists st. simpl. rewrite app_nil_r.
    split; [reflexivity|]. split; [exact Hinv|].
    split; [constructor|]. split; [lia|].
    split; [intros H; destruct (refill_failed_refl _ H) | lia].
  - cbn [makePassword_loop drawn_values]. unfold bind at 1.
    destruct (getBits_step 6 st Hinv) as
      [(t & st1 & -> & Hinv1 & Ht & Hle & Hsame)|(st1 & -> & Hinv1 & Hnext & Hnone)];
      [lia| |].
    + change (2 ^ 6) with 64 in Ht.
      unfold bind at 1.
      destruct (index_password t st1 Ht) as [-> Hin].
      destruct (IH (acc ++ [password_char t]) st1 Hinv1)
        as (st' & -> & Hinv' & Hall & Hlen & Hfail).
      exists st'. rewrite <- app_assoc. simpl.
      split; [reflexivity|]. split; [exact Hinv'|].
      split; [constructor; assumption|].
      split; [lia|].
      rewrite Hsame, Hfail. lia.
    + exists st1. simpl. rewrite app_nil_r.
      split; [reflexivity|]. split; [exact Hinv1|].
      split; [constructor|]. split; [lia|].
      split; [lia|]. intros _. exists (refills st). split; [lia|exact Hnone].
Qed.

Lemma hex_nibbles (t : Z) :
  0 <= t < 256 ->
  Z.land t 15 = t mod 16 /\ Z.shiftr t 4 = t / 16 /\
  0 <= t mod 16 < 16 /\ 0 <= t / 16 < 16.
Proof.
  intros Ht.
  split; [change 15 with (Z.ones 4); apply Z.land_ones; lia|].
  split; [rewrite Z.shiftr_div_pow2 by lia; reflexivity|].
  zdiv.
Qed.

(** [makeHexBlock]: two characters per draw that succeeded. *)
Lemma makeHexBlock_loop_spec (turns : nat) :
  forall acc st, pool_inv st ->
    let drawn := drawn_values RAND_bytes 8 turns st in
    exists st',
      makeHexBlock_loop RAND_bytes turns acc st
        = Some (acc ++ flat_map hex_pair drawn, st') /\
      pool_inv st' /\
      Forall (fun t => 0 <= t < 256) drawn /\
      (length drawn <= turns)%nat /\
      (refill_failed RAND_bytes st st' <-> (length drawn < turns)%nat).
Proof.
  induction turns as [|turns IH]; intros acc st Hinv; cbn zeta.
  - exists st. simpl. rewrite app_nil_r.
    split; [reflexivity|]. split; [exact Hinv|].
    split; [constructor|]. split; [lia|].
    split; [intros H; destruct (refill_failed_refl _ H) | lia].
  - cbn [makeHexBlock_loop drawn_values]. unfold bind at 1.
    destruct (getBits_step 8 st Hinv) as
      [(t & st1 & -> & Hinv1 & Ht & Hle & Hsame)|(st1 & -> & Hinv1 & Hnext & Hnone)];
      [lia| |].
    + change (2 ^ 8) with 256 in Ht.
      destruct (hex_nibbles t Ht) as (-> & -> & Hlo & Hhi).
      unfold bind at 1.
      destruct (index_hex (t mod 16) st1 Hlo) as [-> _].
      unfold bind at 1.
      destruct (index_hex (t / 16) st1 Hhi) as [-> _].
      destruct (IH (acc ++ [hex_digit (t mod 16)] ++ [hex_digit (t / 16)]) st1 Hinv1)
        as (st' & -> & Hinv' & Hall & Hlen & Hfail).
      exists st'. rewrite <- app_assoc. simpl.
      split; [reflexivity|]. split; [exact Hinv'|].
      split; [constructor; assumption|].
      split; [lia|].
      rewrite Hsame, Hfail. lia.
    + exists st1. simpl. rewrite app_nil_r.
      split; [reflexivity|]. split; [exact Hinv1|].
      split; [constructor|]. split; [lia|].
      split; [lia|]. intros _. exists (refills st). split; [lia|exact Hnone].
Qed.

Lemma makeNumber_ok (modulo : Z) (st : Randomizer) :
  pool_inv st -> 0 < modulo ->
  exists t st', makeNumber RAND_bytes modulo st = Some (t, st') /\
                pool_inv st' /\ 0 <= t <= modulo.
Proof.
  intros Hinv Hm. unfold makeNumber, bind.
  destruct (getBits_step 32 st Hinv) as
    [(lo & st1 & -> & Hinv1 & Hlo & _)|(st1 & -> & Hinv1 & _)]; [lia| |].
  - destruct (getBits_step 32 st1 Hinv1) as
      [(hi & st2 & -> & Hinv2 & Hhi & _)|(st2 & -> & Hinv2 & _)]; [lia| |].
    + destruct (Z.eqb_spec modulo 0) as [?|_]; [lia|].
      eexists _, _. split; [reflexivity|]. split; [exact Hinv2|].
      assert (Hr : 0 <= (lo + hi * 2 ^ 32) mod modulo < modulo)
        by (apply Z.mod_pos_bound; lia).
      unfold u32.
      pose proof (Z.mod_pos_bound ((lo + hi * 2 ^ 32) mod modulo) (2 ^ 32) ltac:(lia)).
      pose proof (Z.mod_le ((lo + hi * 2 ^ 32) mod modulo) (2 ^ 32) ltac:(lia) ltac:(lia)).
      lia.
    + eexists _, _. split; [reflexivity|]. split; [exact Hinv2|]. lia.
  - eexists _, _. split; [reflexivity|]. split; [exact Hinv1|]. lia.
Qed.

Lemma push_digits_spec (j : nat) :
  forall t res, Forall is_decimal_digit res ->
    Forall is_decimal_digit (push_digits j t res) /\
    length (push_digits j t res) = (length res + j)%nat.
Proof.
  induction j as [|j IH]; intros t res Hres; simpl.
  - split; [assumption | lia].
  - destruct (IH (t / 10)
                (res ++ [ascii_of_N (Z.to_N ((48 + t mod 10) mod 256))]))
      as [Hall Hlen].
    + apply Forall_app; split; [assumption|].
      constructor; [|constructor].
      unfold is_decimal_digit.
      rewrite N_ascii_embedding by zdiv. zdiv.
    + split; [exact Hall|]. rewrite Hlen, length_app. simpl. lia.
Qed.

Lemma makePin_loop_spec (turns : nat) :
  forall res st, pool_inv st -> Forall is_decimal_digit res ->
    exists res' st',
      makePin_loop RAND_bytes turns res st = Some (res', st') /\
      pool_inv st' /\ Forall is_decimal_digit res' /\
      length res' = (length res + 4 * turns)%nat.
Proof.
  induction turns as [|turns IH]; intros res st Hinv Hres.
  - exists res, st. simpl.
    split; [reflexivity|]. split; [exact Hinv|]. split; [exact Hres|lia].
  - cbn [makePin_loop]. unfold bind at 1.
    destruct (makeNumber_ok 10000 st Hinv) as (t & st1 & -> & Hinv1 & _); [lia|].
    destruct (push_digits_spec 4 t res Hres) as [Hall Hlen].
    destruct (IH (push_digits 4 t res) st1 Hinv1 Hall)
      as (res' & st' & -> & Hinv' & Hall' & Hlen').
    exists res', st'.
    split; [reflexivity|]. split; [exact Hinv'|]. split; [exact Hall'|lia].
Qed.

End GeneratorFacts.

(** ** The claims on the Randomizer *)

Lemma csprng_once_ok (limbs : list Z) :
  length limbs = 8%nat -> Forall is_u32 limbs -> csprng_ok (csprng_once limbs).
Proof.
  intros Hlen Hall k fresh. destruct k; simpl; [|discriminate].
  intros [= <-]. auto.
Qed.

Lemma csprng_refusing_ok : csprng_ok csprng_refusing.
Proof. intros k fresh; discriminate. Qed.

Lemma is_u32_limbs_AB : Forall is_u32 limbs_AB.
Proof. repeat constructor; unfold is_u32; lia. Qed.

Lemma is_u32_stale_limbs : Forall is_u32 stale_limbs.
Proof. repeat constructor; unfold is_u32; lia. Qed.

Lemma makePassword_spec (RAND_bytes : nat -> option (list Z)) (len : Z)
    (st : Randomizer) :
  csprng_ok RAND_bytes -> pool_inv st -> 0 <= len ->
  let drawn := drawn_values RAND_bytes 6 (Z.to_nat len) st in
  exists st',
    makePassword RAND_bytes len st = Some (map password_char drawn, st') /\
    pool_inv st' /\
    Forall (fun t => 0 <= t < 64) drawn /\
    (length drawn <= Z.to_nat len)%nat /\
    (refill_failed RAND_bytes st st' <-> (length drawn < Z.to_nat len)%nat).
Proof.
  intros Hrand Hinv Hlen. unfold makePassword.
  destruct (Z.ltb_spec len 0) as [?|_]; [lia|].
  exact (makePassword_loop_spec RAND_bytes Hrand (Z.to_nat len) [] st Hinv).
Qed.

Lemma reserve_ok (n : Z) (st : Randomizer) :
  0 <= n <= INT_MAX -> reserve n st = Some (tt, st).
Proof.
  intros Hn. unfold reserve.
  destruct (Z.ltb_spec n 0) as [?|_]; [lia|].
  destruct (Z.ltb_spec INT_MAX n) as [?|_]; [lia|].
  reflexivity.
Qed.

Lemma reserve_refused (n : Z) (st : Randomizer) :
  n < 0 \/ INT_MAX < n -> reserve n st = None.
Proof.
  intros Hn. unfold reserve.
  destruct (Z.ltb_spec n 0) as [?|?]; [reflexivity|].
  destruct (Z.ltb_spec INT_MAX n) as [?|?]; [reflexivity|lia].
Qed.

Lemma makeHexBlock_spec (RAND_bytes : nat -> option (list Z)) (bytes : Z)
    (st : Randomizer) :
  csprng_ok RAND_bytes -> pool_inv st -> 0 <= bytes -> bytes * 2 <= INT_MAX ->
  let drawn := drawn_values RAND_bytes 8 (Z.to_nat bytes) st in
  exists st',
    makeHexBlock RAND_bytes bytes st = Some (flat_map hex_pair drawn, st') /\
    pool_inv st' /\
    Forall (fun t => 0 <= t < 256) drawn /\
    (length drawn <= Z.to_nat bytes)%nat /\
    (refill_failed RAND_bytes st st' <-> (length drawn < Z.to_nat bytes)%nat).
Proof.
  intros Hrand Hinv Hlen Hmax. unfold makeHexBlock, bind.
  rewrite reserve_ok by lia.
  exact (makeHexBlock_loop_spec RAND_bytes Hrand (Z.to_nat bytes) [] st Hinv).
Qed.

Lemma length_flat_map_hex_pair (drawn : list Z) :
  length (flat_map hex_pair drawn) = (2 * length drawn)%nat.
Proof. induction drawn as [|t drawn IH]; simpl; [reflexivity | lia]. Qed.

Lemma hex_pair_alphabet (drawn : list Z) :
  Forall (fun t => 0 <= t < 256) drawn ->
  Forall (fun c => In c hex_alphabet) (flat_map hex_pair drawn).
Proof.
  induction 1 as [|t drawn Ht _ IH]; simpl; [constructor|].
  destruct (hex_nibbles t Ht) as (_ & _ & Hlo & Hhi).
  constructor; [apply (index_hex _ (Randomizer_new [])), Hlo|].
  constructor; [apply (index_hex _ (Randomizer_new [])), Hhi|exact IH].
Qed.

Lemma password_char_alphabet (drawn : list Z) :
  Forall (fun t => 0 <= t < 64) drawn ->
  Forall (fun c => In c password_alphabet) (map password_char drawn).
Proof.
  induction 1 as [|t drawn Ht _ IH]; simpl; constructor; [|exact IH].
  apply (index_password _ (Randomizer_new [])), Ht.
Qed.

(** C10.  In a state that satisfies the pool invariant (the consumed high
    bits of the current limb are zero), a call of [getBits] for
    [1 <= n <= 32] bits returns, keeps the invariant across the draw and
    the refill, and a value it stores is below [2 ^ n]; hence
    [makePassword] reads [passwordCharSet] in bounds: it returns, and
    each character it emits is one of the 64 of the alphabet.  The
    object made by the constructor satisfies the invariant. *)
Theorem getBits_below_pow2 (RAND_bytes : nat -> option (list Z)) (n : Z)
    (st : Randomizer) :
  csprng_ok RAND_bytes -> pool_inv st -> 1 <= n <= 32 ->
  (exists r st',
     getBits RAND_bytes n st = Some (r, st') /\ pool_inv st' /\
     forall t, r = Some t -> 0 <= t < 2 ^ n) /\
  (forall len, 0 <= len ->
     exists res st',
       makePassword RAND_bytes len st = Some (res, st') /\ pool_inv st' /\
       Forall (fun c => In c password_alphabet) res) /\
  (forall garbage, length garbage = 8%nat -> Forall is_u32 garbage ->
     pool_inv (Randomizer_new garbage)).
Proof.
  intros Hrand Hinv Hn. split; [|split].
  - destruct (getBits_ok RAND_bytes Hrand n st Hinv Hn)
      as (r & st' & Hrun & Hinv' & Hval & _).
    exists r, st'. auto.
  - intros len Hlen.
    destruct (makePassword_spec RAND_bytes len st Hrand Hinv Hlen)
      as (st' & Hrun & Hinv' & Hall & _).
    eexists _, st'. split; [exact Hrun|]. split; [exact Hinv'|].
    apply password_char_alphabet, Hall.
  - apply Randomizer_new_inv.
Qed.

Lemma getBits_below_pow2_witness :
  csprng_ok (csprng_once limbs_AB) /\
  pool_inv (Randomizer_new stale_limbs) /\
  (exists r st',
     getBits (csprng_once limbs_AB) 6 (Randomizer_new stale_limbs)
       = Some (r, st') /\ pool_inv st' /\
     forall t, r = Some t -> 0 <= t < 2 ^ 6) /\
  (forall len, 0 <= len ->
     exists res st',
       makePassword (csprng_once limbs_AB) len (Randomizer_new stale_limbs)
         = Some (res, st') /\ pool_inv st' /\
       Forall (fun c => In c password_alphabet) res) /\
  (forall garbage, length garbage = 8%nat -> Forall is_u32 garbage ->
     pool_inv (Randomizer_new garbage)).
Proof.
  assert (H1 : csprng_ok (csprng_once limbs_AB))
    by (apply csprng_once_ok; [reflexivity | exact is_u32_limbs_AB]).
  assert (H2 : pool_inv (Randomizer_new stale_limbs))
    by (apply Randomizer_new_inv; [reflexivity | exact is_u32_stale_limbs]).
  split; [exact H1|]. split; [exact H2|].
  apply (getBits_below_pow2 (csprng_once limbs_AB) 6
           (Randomizer_new stale_limbs) H1 H2).
  lia.
Defined.

(** C7, as stated, fails: [makePin] computes [length + 3] in [int], and
    for the length [2 ^ 31 - 3], which is an [int] and is not negative,
    that sum is outside of [int]; the call yields no string, whatever the
    CSPRNG answers. *)
Lemma makePin_no_result_near_INT_MAX :
  0 <= 2 ^ 31 - 3 <= INT_MAX /\
  makePin csprng_refusing (2 ^ 31 - 3) (Randomizer_new stale_limbs) = None /\
  makePin (csprng_once limbs_AB) (2 ^ 31 - 3) (Randomizer_new stale_limbs)
    = None.
Proof.
  split; [unfold INT_MAX; lia|].
  split; unfold makePin, bind; rewrite reserve_refused; trivial;
    right; unfold INT_MAX; lia.
Qed.

(** C7, amended.  For every length [n] with [0 <= n] and
    [n + 3 <= INT_MAX], that is [0 <= n <= 2 ^ 31 - 4], [makePin( n )]
    returns a string of exactly [n] characters, each in '0'..'9'; this
    holds whatever the CSPRNG answers, also when a draw fails and
    [makeNumber] yields its sentinel 10000.  For a length from
    [2 ^ 31 - 3] on there is no result. *)
Theorem makePin_shape (RAND_bytes : nat -> option (list Z)) (n : Z)
    (st : Randomizer) :
  csprng_ok RAND_bytes -> pool_inv st -> 0 <= n -> n + 3 <= INT_MAX ->
  (exists res st',
     makePin RAND_bytes n st = Some (res, st') /\ pool_inv st' /\
     Z.of_nat (length res) = n /\ Forall is_decimal_digit res) /\
  (forall m, INT_MAX < m + 3 -> makePin RAND_bytes m st = None).
Proof.
  intros Hrand Hinv Hn Hmax. split.
  - unfold makePin, bind. rewrite reserve_ok by lia.
    destruct (makePin_loop_spec RAND_bytes Hrand (Z.to_nat ((n + 3) / 4)) [] st
                Hinv (List.Forall_nil _))
      as (res & st' & -> & Hinv' & Hall & Hlen).
    destruct (Z.ltb_spec n 0) as [?|_]; [lia|].
    simpl in Hlen.
    assert (Hge : (Z.to_nat n <= length res)%nat) by (rewrite Hlen; zdiv).
    eexists _, _. split; [reflexivity|]. split; [exact Hinv'|].
    unfold resize.
    replace (Z.to_nat n - length res)%nat with 0%nat by lia.
    simpl. rewrite app_nil_r.
    split; [rewrite length_take_le by exact Hge; lia|].
    apply Forall_take, Hall.
  - intros m Hm. unfold makePin, bind.
    rewrite reserve_refused by (right; exact Hm). reflexivity.
Qed.

Lemma makePin_shape_witness :
  csprng_ok csprng_refusing /\
  pool_inv (Randomizer_new stale_limbs) /\
  0 <= 6 /\ 6 + 3 <= INT_MAX /\
  (exists res st',
     makePin csprng_refusing 6 (Randomizer_new stale_limbs) = Some (res, st') /\
     pool_inv st' /\
     Z.of_nat (length res) = 6 /\ Forall is_decimal_digit res) /\
  (forall m, INT_MAX < m + 3 ->
     makePin csprng_refusing m (Randomizer_new stale_limbs) = None).
Proof.
  assert (H2 : pool_inv (Randomizer_new stale_limbs))
    by (apply Randomizer_new_inv; [reflexivity | exact is_u32_stale_limbs]).
  assert (H3 : 0 <= 6) by lia.
  assert (H4 : 6 + 3 <= INT_MAX) by (unfold INT_MAX; lia).
  split; [exact csprng_refusing_ok|]. split; [exact H2|].
  split; [exact H3|]. split; [exact H4|].
  exact (makePin_shape csprng_refusing 6 (Randomizer_new stale_limbs)
           csprng_refusing_ok H2 H3 H4).
Defined.

(** With every draw refused, the digits come from the sentinel. *)
Example makePin_refused :
  fst <$> makeNumber csprng_refusing 10000 (Randomizer_new stale_limbs)
  = Some 10000
  /\ push_digits 4 10000 [] = str "0000"
  /\ fst <$> makePin csprng_refusing 6 (Randomizer_new stale_limbs)
     = Some (str "000000").
Proof. repeat split; reflexivity. Qed.

Example hex_alphabet_lowercase : hex_alphabet = str "0123456789abcdef".
Proof. reflexivity. Qed.

(** C8, as stated, fails: [makeHexBlock] computes [bytes * 2] in [int],
    and for the byte count [2 ^ 30], which is an [int] and is not negative,
    that product is outside of [int]; the call yields no string, also with
    a CSPRNG that refuses nothing before the first draw. *)
Lemma makeHexBlock_no_result_from_2_30 :
  0 <= 2 ^ 30 <= INT_MAX /\
  makeHexBlock (csprng_once limbs_AB) (2 ^ 30) (Randomizer_new stale_limbs)
    = None.
Proof.
  split; [unfold INT_MAX; lia|].
  unfold makeHexBlock, bind. rewrite reserve_refused; trivial.
  right; unfold INT_MAX; lia.
Qed.

(** C8, amended.  For every byte count [b] with [0 <= b] and
    [b * 2 <= INT_MAX], that is [0 <= b < 2 ^ 30], [makeHexBlock( b )]
    returns, and when no refill is refused its result has length [2 * b],
    consists of lowercase hex digits and holds, for each drawn byte in
    turn, the digit of the low nibble followed by the digit of the high
    nibble; the byte 0xAB gives "ba".  For a byte count from [2 ^ 30] on
    there is no result. *)
Theorem makeHexBlock_low_nibble_first (RAND_bytes : nat -> option (list Z))
    (b : Z) (st : Randomizer) :
  csprng_ok RAND_bytes -> pool_inv st -> 0 <= b -> b * 2 <= INT_MAX ->
  (exists res st',
     makeHexBlock RAND_bytes b st = Some (res, st') /\ pool_inv st' /\
     (~ refill_failed RAND_bytes st st' ->
      let drawn := drawn_values RAND_bytes 8 (Z.to_nat b) st in
      Z.of_nat (length drawn) = b /\
      Forall (fun t => 0 <= t < 256) drawn /\
      res = flat_map hex_pair drawn /\
      Z.of_nat (length res) = 2 * b /\
      Forall (fun c => In c hex_alphabet) res)) /\
  hex_pair 0xAB = str "ba" /\
  (forall m, INT_MAX < m * 2 -> makeHexBlock RAND_bytes m st = None).
Proof.
  intros Hrand Hinv Hb Hmax. split; [|split; [reflexivity|]].
  - destruct (makeHexBlock_spec RAND_bytes b st Hrand Hinv Hb Hmax)
      as (st' & Hrun & Hinv' & Hall & Hle & Hfail).
    eexists _, st'. split; [exact Hrun|]. split; [exact Hinv'|].
    intros Hno. cbn zeta.
    assert (Hlen : length (drawn_values RAND_bytes 8 (Z.to_nat b) st)
                   = Z.to_nat b).
    { destruct (Nat.eq_dec (length (drawn_values RAND_bytes 8 (Z.to_nat b) st))
                  (Z.to_nat b)) as [?|Hne]; [assumption|].
      exfalso. apply Hno, Hfail. lia. }
    split; [lia|]. split; [exact Hall|]. split; [reflexivity|].
    split; [rewrite length_flat_map_hex_pair; lia|].
    apply hex_pair_alphabet, Hall.
  - intros m Hm. unfold makeHexBlock, bind.
    rewrite reserve_refused by (right; exact Hm). reflexivity.
Qed.

Lemma makeHexBlock_low_nibble_first_witness :
  csprng_ok (csprng_once limbs_AB) /\
  pool_inv (Randomizer_new stale_limbs) /\
  0 <= 1 /\ 1 * 2 <= INT_MAX /\
  (exists res st',
     makeHexBlock (csprng_once limbs_AB) 1 (Randomizer_new stale_limbs)
       = Some (res, st') /\ pool_inv st' /\
     (~ refill_failed (csprng_once limbs_AB) (Randomizer_new stale_limbs) st' ->
      let drawn :=
        drawn_values (csprng_once limbs_AB) 8 (Z.to_nat 1)
                     (Randomizer_new stale_limbs) in
      Z.of_nat (length drawn) = 1 /\
      Forall (fun t => 0 <= t < 256) drawn /\
      res = flat_map hex_pair drawn /\
      Z.of_nat (length res) = 2 * 1 /\
      Forall (fun c => In c hex_alphabet) res)) /\
  hex_pair 0xAB = str "ba" /\
  (forall m, INT_MAX < m * 2 ->
     makeHexBlock (csprng_once limbs_AB) m (Randomizer_new stale_limbs) = None).
Proof.
  assert (H1 : csprng_ok (csprng_once limbs_AB))
    by (apply csprng_once_ok; [reflexivity | exact is_u32_limbs_AB]).
  assert (H2 : pool_inv (Randomizer_new stale_limbs))
    by (apply Randomizer_new_inv; [reflexivity | exact is_u32_stale_limbs]).
  assert (H3 : 0 <= 1) by lia.
  assert (H4 : 1 * 2 <= INT_MAX) by (unfold INT_MAX; lia).
  split; [exact H1|]. split; [exact H2|].
  split; [exact H3|]. split; [exact H4|].
  exact (makeHexBlock_low_nibble_first (csprng_once limbs_AB) 1
           (Randomizer_new stale_limbs) H1 H2 H3 H4).
Defined.

(** The scenario of the specification: the first byte drawn is 0xAB. *)
Example makeHexBlock_AB :
  drawn_values (csprng_once limbs_AB) 8 1 (Randomizer_new stale_limbs) = [0xAB]
  /\ fst <$> makeHexBlock (csprng_once limbs_AB) 1 (Randomizer_new stale_limbs)
     = Some (str "ba").
Proof. split; reflexivity. Qed.

(** C4, as stated, fails: a refill refused in the middle of
    [makePassword( 43 )] leaves the 42 characters drawn so far as the
    result, and a refill refused in [makePin( 4 )] gives the digits of the
    sentinel; neither result is empty. *)
Lemma refused_refill_result_not_empty :
  exists st1 st2,
    makePassword (csprng_once limbs_AB) 43 (Randomizer_new stale_limbs)
      = Some (str "v1AAAAAAAAAAAAAAAAAAAAAAAAAAAAAAAAAAAAAAAA", st1) /\
    refill_failed (csprng_once limbs_AB) (Randomizer_new stale_limbs) st1 /\
    makePin csprng_refusing 4 (Randomizer_new stale_limbs)
      = Some (str "0000", st2) /\
    refill_failed csprng_refusing (Randomizer_new stale_limbs) st2 /\
    str "v1AAAAAAAAAAAAAAAAAAAAAAAAAAAAAAAAAAAAAAAA" <> [] /\
    str "0000" <> [].
Proof.
  eexists _, _.
  split; [vm_compute; reflexivity|].
  split; [exists 1%nat; split; [simpl; lia | reflexivity]|].
  split; [vm_compute; reflexivity|].
  split; [exists 0%nat; split; [simpl; lia | reflexivity]|].
  split; discriminate.
Qed.

(** C4, amended.  When a refill is refused during [makePassword( len )],
    [0 <= len], or during [makeHexBlock( bytes )], [0 <= bytes] and
    [bytes * 2 <= INT_MAX], the generator stops and returns the characters
    of the draws that succeeded before the refusal: fewer characters than
    asked for, and none only when the first draw is refused. *)
Theorem generators_return_prefix_on_refusal
    (RAND_bytes : nat -> option (list Z)) (len bytes : Z) (st : Randomizer) :
  csprng_ok RAND_bytes -> pool_inv st ->
  0 <= len -> 0 <= bytes -> bytes * 2 <= INT_MAX ->
  (exists st',
     makePassword RAND_bytes len st
       = Some (map password_char
                 (drawn_values RAND_bytes 6 (Z.to_nat len) st), st') /\
     (refill_failed RAND_bytes st st' ->
      (length (drawn_values RAND_bytes 6 (Z.to_nat len) st)
       < Z.to_nat len)%nat)) /\
  (exists st',
     makeHexBlock RAND_bytes bytes st
       = Some (flat_map hex_pair
                 (drawn_values RAND_bytes 8 (Z.to_nat bytes) st), st') /\
     (refill_failed RAND_bytes st st' ->
      (length (drawn_values RAND_bytes 8 (Z.to_nat bytes) st)
       < Z.to_nat bytes)%nat)).
Proof.
  intros Hrand Hinv Hlen Hbytes Hmax. split.
  - destruct (makePassword_spec RAND_bytes len st Hrand Hinv Hlen)
      as (st' & Hrun & _ & _ & _ & Hfail).
    exists st'. split; [exact Hrun | apply Hfail].
  - destruct (makeHexBlock_spec RAND_bytes bytes st Hrand Hinv Hbytes Hmax)
      as (st' & Hrun & _ & _ & _ & Hfail).
    exists st'. split; [exact Hrun | apply Hfail].
Qed.

Lemma generators_return_prefix_on_refusal_witness :
  csprng_ok (csprng_once limbs_AB) /\
  pool_inv (Randomizer_new stale_limbs) /\
  0 <= 43 /\ 43 * 2 <= INT_MAX /\
  (exists st',
     makePassword (csprng_once limbs_AB) 43 (Randomizer_new stale_limbs)
       = Some (map password_char
                 (drawn_values (csprng_once limbs_AB) 6 (Z.to_nat 43)
                    (Randomizer_new stale_limbs)), st') /\
     (refill_failed (csprng_once limbs_AB) (Randomizer_new stale_limbs) st' ->
      (length (drawn_values (csprng_once limbs_AB) 6 (Z.to_nat 43)
                 (Randomizer_new stale_limbs))
       < Z.to_nat 43)%nat)) /\
  (exists st',
     makeHexBlock (csprng_once limbs_AB) 43 (Randomizer_new stale_limbs)
       = Some (flat_map hex_pair
                 (drawn_values (csprng_once limbs_AB) 8 (Z.to_nat 43)
                    (Randomizer_new stale_limbs)), st') /\
     (refill_failed (csprng_once limbs_AB) (Randomizer_new stale_limbs) st' ->
      (length (drawn_values (csprng_once limbs_AB) 8 (Z.to_nat 43)
                 (Randomizer_new stale_limbs))
       < Z.to_nat 43)%nat)).
Proof.
  assert (H1 : csprng_ok (csprng_once limbs_AB))
    by (apply csprng_once_ok; [reflexivity | exact is_u32_limbs_AB]).
  assert (H2 : pool_inv (Randomizer_new stale_limbs))
    by (apply Randomizer_new_inv; [reflexivity | exact is_u32_stale_limbs]).
  assert (H3 : 0 <= 43) by lia.
  assert (H4 : 43 * 2 <= INT_MAX) by (unfold INT_MAX; lia).
  split; [exact H1|]. split; [exact H2|].
  split; [exact H3|]. split; [exact H4|].
  exact (generators_return_prefix_on_refusal (csprng_once limbs_AB) 43 43
           (Randomizer_new stale_limbs) H1 H2 H3 H3 H4).
Defined.

(** C3.  The code at a syllable whose 4-bit value is 12: the first
    consonant "n" is emitted, a second consonant "r" is drawn together
    with a new 4-bit value, and the name returned is "net": the second
    consonant is not in it. *)
Theorem makeName_second_consonant_dropped :
  exists C1 C2 st1 st2 st3 st4,
    getLiteral (csprng_once limbs_name) consonantSet
               (Randomizer_new stale_limbs) = Some (Some C1, st1) /\
    value C1 = str "n" /\
    getBits (csprng_once limbs_name) 4 st1 = Some (Some 12, st2) /\
    getLiteral (csprng_once limbs_name) consonantSet st2
      = Some (Some C2, st3) /\
    value C2 = str "r" /\
    getBits (csprng_once limbs_name) 4 st3 = Some (Some 5, st4) /\
    fst <$> makeName (csprng_once limbs_name) 1 1 (Randomizer_new stale_limbs)
      = Some (str "net").
Proof.
  eexists _, _, _, _, _, _.
  repeat (split; [vm_compute; reflexivity|]).
  vm_compute; reflexivity.
Qed.

(** ** Bytes *)

Lemma Z_of_byte_range (b : byte) : 0 <= Z_of_byte b < 256.
Proof.
  unfold Z_of_byte. pose proof (Byte.to_N_bounded b). lia.
Qed.

Lemma Z_of_byte_of_Z (z : Z) : Z_of_byte (byte_of_Z z) = z mod 256.
Proof.
  unfold Z_of_byte, byte_of_Z.
  assert (Hr : 0 <= z mod 256 < 256) by (apply Z.mod_pos_bound; lia).
  destruct (Byte.of_N (Z.to_N (z mod 256))) as [b|] eqn:Hb.
  - apply Byte.to_of_N in Hb. rewrite Hb. lia.
  - apply Byte.of_N_None_iff in Hb. lia.
Qed.

Lemma Z_of_byte_of_Z_small (z : Z) :
  0 <= z < 256 -> Z_of_byte (byte_of_Z z) = z.
Proof. intros Hz. rewrite Z_of_byte_of_Z. apply Z.mod_small, Hz. Qed.

(** ** The DER length *)

Lemma count_groups8_spec (fuel : nat) :
  forall (x : Z) (n : nat),
    0 <= x < 2 ^ (8 * Z.of_nat n) -> (n <= fuel)%nat ->
    exists i : nat,
      count_groups fuel 8 x = Z.of_nat i /\ (i <= n)%nat /\
      x < 2 ^ (8 * Z.of_nat i) /\
      (0 < x -> (1 <= i)%nat /\ 2 ^ (8 * (Z.of_nat i - 1)) <= x).
Proof.
  induction fuel as [|fuel IH]; intros x n Hx Hn.
  - assert (n = 0%nat) as -> by lia. simpl in Hx.
    exists 0%nat. simpl. repeat split; lia.
  - cbn [count_groups]. destruct (Z.ltb_spec 0 x) as [Hpos|Hle].
    + destruct n as [|n].
      { simpl in Hx. lia. }
      assert (Hsh : Z.shiftr x 8 = x / 256)
        by (rewrite Z.shiftr_div_pow2 by lia; reflexivity).
      assert (Hpow : 2 ^ (8 * Z.of_nat (S n)) = 256 * 2 ^ (8 * Z.of_nat n)).
      { replace (8 * Z.of_nat (S n)) with (8 + 8 * Z.of_nat n) by lia.
        rewrite Z.pow_add_r by lia. reflexivity. }
      destruct (IH (x / 256) n) as (i & Hi & Hin & Hup & Hlow); [|lia|].
      { split; [apply Z.div_pos; lia|].
        apply Z.div_lt_upper_bound; lia. }
      exists (S i). rewrite Hsh, Hi.
      assert (Hpow' : 2 ^ (8 * Z.of_nat (S i)) = 256 * 2 ^ (8 * Z.of_nat i)).
      { replace (8 * Z.of_nat (S i)) with (8 + 8 * Z.of_nat i) by lia.
        rewrite Z.pow_add_r by lia. reflexivity. }
      split; [lia|]. split; [lia|].
      split; [rewrite Hpow'; zdiv|].
      intros _. split; [lia|].
      replace (Z.of_nat (S i) - 1) with (Z.of_nat i) by lia.
      destruct (Z.ltb_spec 0 (x / 256)) as [Hq|Hq].
      * destruct (Hlow Hq) as [Hi1 Hlo].
        replace (8 * Z.of_nat i) with (8 + 8 * (Z.of_nat i - 1)) by lia.
        rewrite Z.pow_add_r by lia. change (2 ^ 8) with 256. zdiv.
      * assert (x / 256 = 0) as Hq0 by (pose proof (Z.div_pos x 256); lia).
        rewrite Hq0 in Hi. destruct fuel; simpl in Hi;
          (assert (i = 0%nat) as -> by lia); simpl; lia.
    + exists 0%nat. simpl. repeat split; try lia.
Qed.

Lemma length_be_octets (i : nat) :
  forall x, length (be_octets i x) = i.
Proof.
  induction i as [|i IH]; intros x; simpl; [reflexivity|].
  rewrite length_app, IH. simpl. lia.
Qed.

Lemma lor_shiftl8 (hi lo : Z) :
  0 <= hi -> 0 <= lo < 256 -> Z.lor (Z.shiftl hi 8) lo = hi * 256 + lo.
Proof.
  intros Hhi Hlo.
  assert (Hland : Z.land (Z.shiftl hi 8) lo = 0).
  { apply Z.bits_inj'. intros k Hk. rewrite Z.land_spec, Z.bits_0.
    destruct (Z.ltb_spec k 8).
    - rewrite Z.shiftl_spec_low by lia. reflexivity.
    - replace (Z.testbit lo k) with false; [apply Bool.andb_false_r|].
      symmetry. destruct (Z.eq_dec lo 0) as [->|?]; [apply Z.bits_0|].
      apply Z.bits_above_log2; [lia|]. apply Z.log2_lt_pow2; [lia|].
      eapply Z.lt_le_trans; [apply Hlo|].
      change 256 with (2 ^ 8). apply pow2_le; lia. }
  rewrite <- Z.lxor_lor by exact Hland.
  rewrite <- Z.add_nocarry_lxor by exact Hland.
  rewrite Z.shiftl_mul_pow2 by lia. reflexivity.
Qed.

Lemma read_octets_be (i : nat) :
  forall x acc, 0 <= x -> 0 <= acc ->
    fold_left (fun ret b => Z.lor (Z.shiftl ret 8) (Z_of_byte b))
              (be_octets i x) acc
    = acc * 2 ^ (8 * Z.of_nat i) + x mod 2 ^ (8 * Z.of_nat i).
Proof.
  induction i as [|i IH]; intros x acc Hx Hacc.
  - simpl. rewrite Z.mod_1_r. lia.
  - cbn [be_octets]. rewrite fold_left_app. cbn [fold_left].
    rewrite IH by (try assumption; rewrite Z.shiftr_div_pow2 by lia;
                   apply Z.div_pos; lia).
    change 0xff with (Z.ones 8). rewrite Z.land_ones by lia.
    rewrite Z_of_byte_of_Z. change (2 ^ 8) with 256.
    rewrite Z.mod_mod by lia.
    rewrite Z.shiftr_div_pow2 by lia. change (2 ^ 8) with 256.
    assert (Hp : 0 < 2 ^ (8 * Z.of_nat i)) by (apply pow2_pos; lia).
    rewrite lor_shiftl8.
    + replace (8 * Z.of_nat (S i)) with (8 + 8 * Z.of_nat i) by lia.
      rewrite Z.pow_add_r by lia. change (2 ^ 8) with 256.
      rewrite (Z.rem_mul_r x 256 (2 ^ (8 * Z.of_nat i))) by lia.
      lia.
    + pose proof (Z.mod_pos_bound (x / 256) (2 ^ (8 * Z.of_nat i)) Hp). nia.
    + apply Z.mod_pos_bound; lia.
Qed.

Lemma be_octets_head (i : nat) :
  forall x, 2 ^ (8 * Z.of_nat i) <= x < 2 ^ (8 * Z.of_nat (S i)) ->
    exists b tl, be_octets (S i) x = b :: tl /\ Z_of_byte b <> 0.
Proof.
  induction i as [|i IH]; intros x Hx.
  - simpl in Hx. cbn [be_octets]. simpl app.
    eexists _, _. split; [reflexivity|].
    change 0xff with (Z.ones 8). rewrite Z.land_ones by lia.
    rewrite Z_of_byte_of_Z. change (2 ^ 8) with 256.
    rewrite Z.mod_mod by lia. rewrite Z.mod_small; lia.
  - change (be_octets (S (S i)) x)
      with (be_octets (S i) (Z.shiftr x 8) ++ [byte_of_Z (Z.land x 0xff)]).
    destruct (IH (Z.shiftr x 8)) as (b & tl & -> & Hb).
    + rewrite Z.shiftr_div_pow2 by lia. change (2 ^ 8) with 256.
      replace (8 * Z.of_nat (S (S i))) with (8 + 8 * Z.of_nat (S i)) in Hx by lia.
      replace (8 * Z.of_nat (S i)) with (8 + 8 * Z.of_nat i) in Hx |- * by lia.
      rewrite !Z.pow_add_r in Hx by lia. rewrite Z.pow_add_r by lia.
      change (2 ^ 8) with 256 in *.
      assert (Hp : 0 < 2 ^ (8 * Z.of_nat i)) by (apply pow2_pos; lia).
      split; [apply Z.div_le_lower_bound; lia|].
      apply Z.div_lt_upper_bound; lia.
    + eexists _, _. split; [reflexivity | exact Hb].
Qed.

Lemma skip_zeroes_nonzero (i : nat) (b : byte) (p : list byte) :
  Z_of_byte b <> 0 -> skip_zeroes (S i) (b :: p) = (S i, b :: p).
Proof.
  intros Hb. simpl. destruct (Z.eqb_spec (Z_of_byte b) 0); [contradiction|].
  reflexivity.
Qed.

Lemma land_short_length (len : Z) :
  0 <= len <= 127 -> Z.land len 0x7f = len /\ Z.land len 0x80 = 0.
Proof.
  intros Hlen.
  assert (H7 : Z.land len 0x7f = len).
  { change 0x7f with (Z.ones 7). rewrite Z.land_ones by lia.
    apply Z.mod_small. change (2 ^ 7) with 128. lia. }
  split; [exact H7|].
  rewrite <- H7, <- Z.land_assoc. change (Z.land 0x7f 0x80) with 0.
  apply Z.land_0_r.
Qed.

(** The parser reads back the length that [asn1_put_length] stores, when
    the content follows. *)
Lemma asn1_get_put_length (len : Z) (rest : list byte) :
  0 <= len <= INT_MAX -> len <= Z.of_nat (length rest) ->
  asn1_get_length (asn1_put_length len ++ rest) = Some (0, len, rest).
Proof.
  intros Hlen Hrest. unfold asn1_put_length.
  destruct (Z.leb_spec len 127) as [Hshort|Hlong].
  - cbn [app]. unfold asn1_get_length.
    rewrite Z_of_byte_of_Z_small by lia.
    destruct (land_short_length len) as [-> ->]; [lia|].
    destruct (Z.eqb_spec len 0x80) as [?|_]; [lia|]. reflexivity.
  - destruct (count_groups8_spec 32 len 4) as (i & -> & Hi4 & Hup & Hlow);
      [unfold INT_MAX in Hlen; simpl; lia | lia |].
    destruct (Hlow ltac:(lia)) as [Hi1 Hlo].
    rewrite Nat2Z.id.
    destruct i as [|i]; [lia|].
    destruct (be_octets_head i len) as (b & tl & Hoct & Hb).
    { split; [|exact Hup].
      replace (8 * Z.of_nat i) with (8 * (Z.of_nat (S i) - 1)) by lia.
      exact Hlo. }
    pose proof (length_be_octets (S i) len) as Hlenoct.
    assert (Hread : read_octets (be_octets (S i) len) = len).
    { unfold read_octets. rewrite read_octets_be by lia.
      rewrite Z.mod_small by lia. lia. }
    assert (Hfirst :
      Z_of_byte (byte_of_Z (Z.lor (Z.of_nat (S i)) 0x80)) = Z.of_nat (S i) + 128
      /\ Z.land (Z.of_nat (S i) + 128) 0x7f = Z.of_nat (S i)
      /\ Z.land (Z.of_nat (S i) + 128) 0x80 = 128).
    { destruct i as [|[|[|[|]]]]; try lia; repeat split; reflexivity. }
    destruct Hfirst as (Hf1 & Hf2 & Hf3).
    rewrite <- app_comm_cons. unfold asn1_get_length.
    rewrite Hf1, Hf2, Hf3.
    destruct (Z.eqb_spec (Z.of_nat (S i) + 128) 0x80) as [?|_]; [lia|].
    change (128 =? 0) with false. cbv iota.
    rewrite length_app, Hlenoct, Nat2Z.id.
    destruct (Z.ltb_spec (Z.of_nat (S i + length rest)) (Z.of_nat (S i) + 1))
      as [?|_]; [lia|].
    rewrite Hoct. rewrite <- app_comm_cons, skip_zeroes_nonzero by exact Hb.
    rewrite app_comm_cons, <- Hoct.
    destruct (Nat.ltb_spec 8 (S i)) as [?|_]; [lia|].
    rewrite take_app_length' by (symmetry; exact Hlenoct).
    rewrite drop_app_length' by (symmetry; exact Hlenoct).
    rewrite Hread.
    destruct (Z.ltb_spec LONG_MAX len) as [Hbig|_];
      [unfold LONG_MAX, INT_MAX in *; lia | reflexivity].
Qed.

Lemma length_asn1_put_length (len : Z) :
  0 <= len <= INT_MAX ->
  Z.of_nat (length (asn1_put_length len))
  = 1 + (if 127 <? len then count_groups 32 8 len else 0)
  /\ 1 <= Z.of_nat (length (asn1_put_length len)) <= 5.
Proof.
  intros Hlen. unfold asn1_put_length.
  destruct (Z.leb_spec len 127) as [Hshort|Hlong];
    destruct (Z.ltb_spec 127 len) as [Hl|Hl]; try lia.
  - cbn [length]. lia.
  - destruct (count_groups8_spec 32 len 4) as (i & Hi & Hi4 & _);
      [unfold INT_MAX in Hlen; cbn; lia | lia |].
    rewrite Hi, Nat2Z.id. cbn [length]. rewrite length_be_octets. lia.
Qed.

Lemma frame_kinds_ident (constructed tag xclass : Z) :
  In (constructed, tag, xclass) frame_kinds ->
  (tag <? 31) = true /\ (31 <=? tag) = false /\ (constructed =? 2) = false /\
  let v := Z_of_byte (byte_of_Z
             (Z.lor (Z.lor (if constructed =? 0 then 0 else V_ASN1_CONSTRUCTED)
                           (Z.land xclass V_ASN1_PRIVATE))
                    (Z.land tag V_ASN1_PRIMITIVE_TAG))) in
  Z.land v V_ASN1_CONSTRUCTED
    = (if constructed =? 0 then 0 else V_ASN1_CONSTRUCTED) /\
  Z.land v V_ASN1_PRIVATE = xclass /\
  Z.land v V_ASN1_PRIMITIVE_TAG = tag /\
  (tag =? V_ASN1_PRIMITIVE_TAG) = false.
Proof.
  intros Hkind.
  destruct Hkind as [H|[H|[H|[H|[H|[H|[]]]]]]]; injection H as <- <- <-;
    vm_compute; repeat split; reflexivity.
Qed.

Lemma put_object_low_tag (constructed tag xclass len : Z) :
  (tag <? 31) = true -> (constructed =? 2) = false ->
  ASN1_put_object constructed len tag xclass
  = byte_of_Z
      (Z.lor (Z.lor (if constructed =? 0 then 0 else V_ASN1_CONSTRUCTED)
                    (Z.land xclass V_ASN1_PRIVATE))
             (Z.land tag V_ASN1_PRIMITIVE_TAG))
    :: asn1_put_length len.
Proof.
  intros Htag Hc. unfold ASN1_put_object. rewrite Htag, Hc. reflexivity.
Qed.

(** The size computed by [ASN1_object_size] is the size of the header
    stored by [ASN1_put_object] plus the content. *)
Lemma object_size_put (constructed tag xclass len : Z) :
  In (constructed, tag, xclass) frame_kinds ->
  0 <= len -> len + 6 < INT_MAX ->
  ASN1_object_size constructed len tag
  = Z.of_nat (length (ASN1_put_object constructed len tag xclass)) + len
  /\ 2 <= Z.of_nat (length (ASN1_put_object constructed len tag xclass)) <= 6.
Proof.
  intros Hkind Hlen Hfit.
  destruct (frame_kinds_ident _ _ _ Hkind) as (Htag & Htag' & Hc & _).
  destruct (length_asn1_put_length len) as [Hl Hl5]; [lia|].
  rewrite put_object_low_tag by assumption.
  cbn [length]. rewrite Nat2Z.inj_succ.
  split; [|lia].
  unfold ASN1_object_size. rewrite Htag', Hc.
  destruct (Z.ltb_spec len 0) as [?|_]; [lia|].
  rewrite Hl.
  destruct (Z.ltb_spec 127 len) as [Hlong|Hshort].
  - destruct (Z.leb_spec (INT_MAX - len) (1 + 1 + count_groups 32 8 len)); lia.
  - destruct (Z.leb_spec (INT_MAX - len) (1 + 1)); lia.
Qed.

(** [ASN1_get_object] reads back a header stored by [ASN1_put_object],
    when the content follows it. *)
Lemma get_put_object (constructed tag xclass len : Z) (rest : list byte) :
  In (constructed, tag, xclass) frame_kinds ->
  0 <= len <= INT_MAX -> len <= Z.of_nat (length rest) ->
  ASN1_get_object (ASN1_put_object constructed len tag xclass ++ rest)
  = Asn1Object (if constructed =? 0 then 0 else V_ASN1_CONSTRUCTED)
               tag xclass len rest.
Proof.
  intros Hkind Hlen Hrest.
  destruct (frame_kinds_ident _ _ _ Hkind)
    as (Htag & _ & Hc & Hret & Hclass & Hi & Hlow).
  cbv zeta in Hret, Hclass, Hi.
  pose proof (asn1_get_put_length len rest Hlen Hrest) as Hget.
  destruct (length_asn1_put_length len Hlen) as [_ Hl].
  rewrite put_object_low_tag by assumption.
  destruct (asn1_put_length len) as [|l0 ls] eqn:Hput; [cbn in Hl; lia|].
  rewrite <- !app_comm_cons in *.
  unfold ASN1_get_object. cbv zeta.
  rewrite Hret, Hclass, Hi, Hlow, Hget.
  assert (Hbits : Z.land (if constructed =? 0 then 0 else V_ASN1_CONSTRUCTED)
                         V_ASN1_CONSTRUCTED
                  = (if constructed =? 0 then 0 else V_ASN1_CONSTRUCTED))
    by (destruct (constructed =? 0); reflexivity).
  change (negb (0 =? 0)) with false. cbn [andb].
  destruct (Z.ltb_spec (Z.of_nat (length rest)) len) as [?|_]; [lia|].
  rewrite Z.lor_0_r. reflexivity.
Qed.

(** ** Rows *)

Lemma to_size_t_small (x : Z) : 0 <= x <= INT_MAX -> to_size_t x = x.
Proof. intros Hx. apply Z.mod_small. unfold INT_MAX in Hx. lia. Qed.

Lemma to_int_small (x : Z) : 0 <= x <= INT_MAX -> to_int x = x.
Proof.
  intros Hx. unfold to_int, INT_MAX in *. rewrite Z.mod_small; lia.
Qed.

Lemma cell_kind (tag : Z) :
  In tag cellTags -> In (0, tag, V_ASN1_CONTEXT_SPECIFIC) frame_kinds.
Proof.
  intros [<-|[<-|[<-|[<-|[]]]]]; unfold frame_kinds; simpl; tauto.
Qed.

Lemma put_cell_size (acc tag : Z) (cell : QByteArray) :
  In tag cellTags -> 0 <= acc ->
  acc + Z.of_nat (length cell) + 6 < INT_MAX ->
  add_cell_size acc tag cell = acc + Z.of_nat (length (put_cell tag cell)) /\
  Z.of_nat (length (put_cell tag cell)) <= Z.of_nat (length cell) + 6 /\
  (cell <> [] -> 3 <= Z.of_nat (length (put_cell tag cell))).
Proof.
  intros Htag Hacc Hfit. destruct cell as [|b cell].
  - cbn. split; [lia|]. split; [lia|]. intros []; reflexivity.
  - unfold add_cell_size, put_cell.
    set (n := Z.of_nat (length (b :: cell))) in *.
    assert (Hn : 1 <= n) by (subst n; cbn [length]; lia).
    destruct (object_size_put 0 tag V_ASN1_CONTEXT_SPECIFIC n
                (cell_kind tag Htag)) as [-> Hhdr]; [lia..|].
    rewrite length_app, Nat2Z.inj_add. fold n.
    rewrite to_size_t_small by lia.
    split; [lia|]. split; [lia|]. intros _. lia.
Qed.

Lemma row_volume_eq (c0 c1 c2 c3 : QByteArray) :
  row_volume (mkDataRow c0 c1 c2 c3)
  = Z.of_nat (length c0) + Z.of_nat (length c1) + Z.of_nat (length c2)
    + Z.of_nat (length c3) + 30.
Proof. unfold row_volume. cbn [cells fold_right cell_service cell_login cell_password cell_comment]. lia. Qed.

Lemma entry_data_size_put_cells (r : DataRow) :
  row_volume r < INT_MAX ->
  entry_data_size r = Z.of_nat (length (put_cells r)) /\
  Z.of_nat (length (put_cells r)) <= row_volume r - 6.
Proof.
  destruct r as [c0 c1 c2 c3]. rewrite row_volume_eq. intros Hfit.
  unfold entry_data_size, put_cells.
  cbn [cells cellTags combine fold_left flat_map cell_service cell_login
       cell_password cell_comment].
  destruct (put_cell_size 0 0 c0) as (-> & H0 & _); [simpl; tauto|lia..|].
  destruct (put_cell_size (0 + Z.of_nat (length (put_cell 0 c0))) 1 c1)
    as (-> & H1 & _); [simpl; tauto|lia..|].
  destruct (put_cell_size
              (0 + Z.of_nat (length (put_cell 0 c0))
               + Z.of_nat (length (put_cell 1 c1))) 2 c2)
    as (-> & H2 & _); [simpl; tauto|lia..|].
  destruct (put_cell_size
              (0 + Z.of_nat (length (put_cell 0 c0))
               + Z.of_nat (length (put_cell 1 c1))
               + Z.of_nat (length (put_cell 2 c2))) 16 c3)
    as (-> & H3 & _); [simpl; tauto|lia..|].
  rewrite !length_app. cbn [length]. lia.
Qed.

Lemma put_cells_cell_frames (r : DataRow) : put_cells r = cell_frames r.
Proof.
  destruct r as [[|b0 c0] [|b1 c1] [|b2 c2] [|b3 c3]]; reflexivity.
Qed.

Lemma all_empty_put_cells (r : DataRow) :
  all_empty r = true <-> put_cells r = [].
Proof.
  destruct r as [[|b0 c0] [|b1 c1] [|b2 c2] [|b3 c3]];
    split; intros H; try reflexivity; try discriminate H;
    exfalso; unfold put_cells in H;
    cbn [cells cellTags combine flat_map cell_service cell_login
         cell_password cell_comment put_cell] in H;
    repeat match type of H with
           | [] ++ _ = _ => rewrite app_nil_l in H
           end;
    apply (f_equal (@length byte)) in H;
    rewrite !length_app in H; cbn [length] in H; lia.
Qed.

Lemma all_empty_encode (r : DataRow) (dst : bool) (maxSize : Z) :
  all_empty r = true -> encode r dst maxSize = (0, []).
Proof.
  destruct r as [[|b0 c0] [|b1 c1] [|b2 c2] [|b3 c3]]; intros H;
    try discriminate H. reflexivity.
Qed.

(** [encode] on a row with a non-empty cell: the size of its record
    frame and, with a destination of that size or more, the record
    frame. *)
Lemma encode_record_frame (r : DataRow) (maxSize : Z) :
  all_empty r = false -> row_volume r < INT_MAX ->
  let size := Z.of_nat (length (record_frame r)) in
  3 <= Z.of_nat (length (cell_frames r)) <= row_volume r - 6 /\
  5 <= size <= row_volume r /\
  encode r false maxSize = (size, []) /\
  encode r true maxSize
  = (if maxSize <? size then (0, []) else (size, record_frame r)).
Proof.
  intros Hne Hfit. cbv zeta.
  destruct (entry_data_size_put_cells r Hfit) as [Hsize Hle].
  assert (Hpos : 3 <= Z.of_nat (length (put_cells r))).
  { destruct r as [c0 c1 c2 c3]. rewrite row_volume_eq in Hfit.
    unfold put_cells.
    cbn [cells cellTags combine flat_map cell_service cell_login
         cell_password cell_comment].
    rewrite !length_app.
    destruct (put_cell_size 0 0 c0) as (_ & _ & H0); [simpl; tauto|lia..|].
    destruct (put_cell_size 0 1 c1) as (_ & _ & H1); [simpl; tauto|lia..|].
    destruct (put_cell_size 0 2 c2) as (_ & _ & H2); [simpl; tauto|lia..|].
    destruct (put_cell_size 0 16 c3) as (_ & _ & H3); [simpl; tauto|lia..|].
    destruct c0; [|specialize (H0 ltac:(discriminate)); lia].
    destruct c1; [|specialize (H1 ltac:(discriminate)); lia].
    destruct c2; [|specialize (H2 ltac:(discriminate)); lia].
    destruct c3; [|specialize (H3 ltac:(discriminate)); lia].
    discriminate Hne. }
  split; [rewrite <- put_cells_cell_frames; lia|].
  unfold record_frame, encode. rewrite <- put_cells_cell_frames, Hsize.
  set (n := Z.of_nat (length (put_cells r))) in *.
  destruct (Z.eqb_spec n 0) as [?|_]; [lia|].
  rewrite to_int_small by lia.
  destruct (object_size_put 1 V_ASN1_SET V_ASN1_UNIVERSAL n) as [-> Hhdr];
    [unfold frame_kinds; simpl; tauto | lia..|].
  rewrite length_app, Nat2Z.inj_add. fold n.
  rewrite to_size_t_small by lia.
  split; [lia|]. split; reflexivity.
Qed.

Lemma parse_cells_step (fuel : nat) (body : list byte) (r : DataRow) :
  body <> [] ->
  parse_cells (S fuel) body r
  = match ASN1_get_object body with
    | Asn1Error => r
    | Asn1Object ret tag xclass len rest =>
      if negb (ret =? 0) || negb (xclass =? V_ASN1_CONTEXT_SPECIFIC) then r
      else parse_cells fuel (drop (Z.to_nat len) rest)
                       (append_cell r tag (take (Z.to_nat len) rest))
    end.
Proof. destruct body; [contradiction | reflexivity]. Qed.

Lemma parse_cells_nil (fuel : nat) (r : DataRow) : parse_cells fuel [] r = r.
Proof. destruct fuel; reflexivity. Qed.

Lemma frame_of_cell_not_nil (f : Z * QByteArray) :
  In (fst f) cellTags -> Z.of_nat (length (snd f)) + 6 < INT_MAX ->
  frame_of_cell f <> [].
Proof.
  intros Htag Hfit Hnil.
  destruct (object_size_put 0 (fst f) V_ASN1_CONTEXT_SPECIFIC
              (Z.of_nat (length (snd f))) (cell_kind _ Htag)) as [_ Hhdr];
    [lia..|].
  apply (f_equal (@length byte)) in Hnil. unfold frame_of_cell in Hnil.
  rewrite length_app in Hnil. simpl in Hnil. lia.
Qed.

(** The cell loop of the parsing constructor reads a run of cell frames
    back, frame by frame. *)
Lemma parse_cells_frames (frames : list (Z * QByteArray)) :
  forall fuel r0,
    Forall (fun f => In (fst f) cellTags /\
                     Z.of_nat (length (snd f)) + 6 < INT_MAX) frames ->
    (length frames <= fuel)%nat ->
    parse_cells fuel (flat_map frame_of_cell frames) r0
    = fold_left (fun r f => append_cell r (fst f) (snd f)) frames r0.
Proof.
  induction frames as [|f frames IH]; intros fuel r0 Hall Hfuel.
  - apply parse_cells_nil.
  - apply Forall_cons_1 in Hall. destruct Hall as [[Htag Hfit] Hall].
    destruct fuel as [|fuel]; [simpl in Hfuel; lia|].
    cbn [flat_map fold_left].
    rewrite parse_cells_step.
    2:{ intros Hnil. apply app_eq_nil in Hnil.
        destruct Hnil as [Hnil _].
        exact (frame_of_cell_not_nil f Htag Hfit Hnil). }
    assert (Hlen : 0 <= Z.of_nat (length (snd f)) <= INT_MAX)
      by (unfold INT_MAX in *; lia).
    assert (Hrest : Z.of_nat (length (snd f))
                    <= Z.of_nat (length (snd f ++ flat_map frame_of_cell frames)))
      by (rewrite length_app; lia).
    unfold frame_of_cell at 1. rewrite <- app_assoc.
    rewrite (get_put_object 0 (fst f) V_ASN1_CONTEXT_SPECIFIC _ _
               (cell_kind _ Htag) Hlen Hrest).
    change (negb (0 =? 0)) with false.
    change (negb (V_ASN1_CONTEXT_SPECIFIC =? V_ASN1_CONTEXT_SPECIFIC)) with false.
    change ((if 0 =? 0 then 0 else V_ASN1_CONSTRUCTED)) with 0.
    cbn [orb negb Z.eqb].
    rewrite Nat2Z.id, take_app_length, drop_app_length.
    apply IH; [exact Hall | simpl in Hfuel; lia].
Qed.

Lemma cell_frames_frames (r : DataRow) :
  cell_frames r
  = flat_map frame_of_cell
      (List.filter (fun f => negb (is_empty (snd f)))
                   (combine cellTags (cells r))).
Proof.
  destruct r as [[|b0 c0] [|b1 c1] [|b2 c2] [|b3 c3]]; reflexivity.
Qed.

Lemma append_cells_back (r : DataRow) :
  fold_left (fun r f => append_cell r (fst f) (snd f))
    (List.filter (fun f => negb (is_empty (snd f)))
                 (combine cellTags (cells r)))
    DataRow_new
  = r.
Proof.
  destruct r as [[|b0 c0] [|b1 c1] [|b2 c2] [|b3 c3]]; reflexivity.
Qed.

Lemma length_frames (frames : list (Z * QByteArray)) :
  Forall (fun f => In (fst f) cellTags /\
                   Z.of_nat (length (snd f)) + 6 < INT_MAX) frames ->
  (length frames <= length (flat_map frame_of_cell frames))%nat.
Proof.
  induction 1 as [|f frames [Htag Hfit] _ IH]; [reflexivity|].
  cbn [flat_map length]. rewrite length_app.
  pose proof (frame_of_cell_not_nil f Htag Hfit) as Hne.
  destruct (frame_of_cell f); [contradiction|]. cbn [length]. lia.
Qed.

Lemma parse_cells_cell_frames (r : DataRow) (fuel : nat) :
  row_volume r < INT_MAX -> (length (cell_frames r) <= fuel)%nat ->
  parse_cells fuel (cell_frames r) DataRow_new = r.
Proof.
  intros Hfit Hfuel.
  assert (Hall :
    Forall (fun f => In (fst f) cellTags /\
                     Z.of_nat (length (snd f)) + 6 < INT_MAX)
      (List.filter (fun f => negb (is_empty (snd f)))
                   (combine cellTags (cells r)))).
  { apply List.Forall_forall. intros [tag cell] Hin.
    apply filter_In in Hin. destruct Hin as [Hin _].
    destruct r as [c0 c1 c2 c3]. rewrite row_volume_eq in Hfit.
    cbn [cells cellTags combine cell_service cell_login cell_password
         cell_comment] in Hin.
    cbn [fst snd].
    destruct Hin as [H|[H|[H|[H|[]]]]]; injection H as <- <-;
      (split; [simpl; tauto | lia]). }
  rewrite cell_frames_frames in Hfuel |- *.
  rewrite parse_cells_frames.
  - apply append_cells_back.
  - exact Hall.
  - pose proof (length_frames _ Hall). lia.
Qed.

(** The parsing constructor reads a record frame back and leaves the
    pointer behind it. *)
Lemma DataRow_parse_record_frame (r : DataRow) (rest : list byte) :
  all_empty r = false -> row_volume r < INT_MAX ->
  DataRow_parse (record_frame r ++ rest) = (r, rest).
Proof.
  intros Hne Hfit.
  destruct (encode_record_frame r 0 Hne Hfit) as (Hpos & _).
  assert (Hkind : In (1, V_ASN1_SET, V_ASN1_UNIVERSAL) frame_kinds)
    by (unfold frame_kinds; simpl; tauto).
  assert (Hlen : 0 <= Z.of_nat (length (cell_frames r)) <= INT_MAX)
    by (unfold INT_MAX in *; lia).
  assert (Hrest : Z.of_nat (length (cell_frames r))
                  <= Z.of_nat (length (cell_frames r ++ rest)))
    by (rewrite length_app; lia).
  unfold DataRow_parse, record_frame. rewrite <- app_assoc.
  rewrite (get_put_object 1 V_ASN1_SET V_ASN1_UNIVERSAL _ _ Hkind Hlen Hrest).
  change (negb ((if 1 =? 0 then 0 else V_ASN1_CONSTRUCTED) =? V_ASN1_CONSTRUCTED))
    with false.
  change (negb (V_ASN1_SET =? V_ASN1_SET)) with false.
  change (negb (V_ASN1_UNIVERSAL =? V_ASN1_UNIVERSAL)) with false.
  cbn [orb].
  destruct (Z.ltb_spec (Z.of_nat (length (cell_frames r ++ rest)))
              (Z.of_nat (length (cell_frames r)))) as [Hlt|_];
    [rewrite length_app in Hlt; lia|].
  rewrite Nat2Z.id, take_app_length, drop_app_length.
  rewrite parse_cells_cell_frames by (assumption || lia).
  reflexivity.
Qed.

(** ** The sequence of rows *)

Lemma rows_volume_cons (r : DataRow) (rows : list DataRow) :
  rows_volume (r :: rows) = row_volume r + rows_volume rows.
Proof. reflexivity. Qed.

Lemma row_volume_pos (r : DataRow) : 30 <= row_volume r.
Proof. destruct r as [c0 c1 c2 c3]. rewrite row_volume_eq. lia. Qed.

Lemma rows_volume_pos (rows : list DataRow) : 6 <= rows_volume rows.
Proof.
  induction rows as [|r rows IH]; [unfold rows_volume; simpl; lia|].
  rewrite rows_volume_cons. pose proof (row_volume_pos r). lia.
Qed.

Lemma stored_rows_cons (r : DataRow) (rows : list DataRow) :
  stored_rows (r :: rows)
  = if all_empty r then stored_rows rows else r :: stored_rows rows.
Proof. unfold stored_rows. simpl. destruct (all_empty r); reflexivity. Qed.

Lemma length_stored_frames (rows : list DataRow) :
  rows_volume rows < INT_MAX ->
  Z.of_nat (length (flat_map record_frame (stored_rows rows)))
  <= rows_volume rows - 6.
Proof.
  induction rows as [|r rows IH]; intros Hfit.
  - unfold rows_volume. simpl. lia.
  - rewrite rows_volume_cons in *. pose proof (rows_volume_pos rows).
    pose proof (row_volume_pos r).
    rewrite stored_rows_cons. destruct (all_empty r) eqn:Hr.
    + specialize (IH ltac:(lia)). lia.
    + destruct (encode_record_frame r 0 Hr) as (_ & Hsize & _); [lia|].
      cbn [flat_map]. rewrite length_app. specialize (IH ltac:(lia)). lia.
Qed.

(** The first loop of [writeDbFile]: the sum of the record frame sizes. *)
Lemma inner_size_spec (rows : list DataRow) :
  forall acc, 0 <= acc -> acc + rows_volume rows < INT_MAX ->
    fold_left (fun acc r => to_size_t (acc + fst (encode r false 0))) rows acc
    = acc + Z.of_nat (length (flat_map record_frame (stored_rows rows))).
Proof.
  induction rows as [|r rows IH]; intros acc Hacc Hfit.
  - simpl. lia.
  - rewrite rows_volume_cons in Hfit. pose proof (rows_volume_pos rows).
    pose proof (row_volume_pos r).
    cbn [fold_left]. rewrite stored_rows_cons.
    destruct (all_empty r) eqn:Hr.
    + rewrite all_empty_encode by exact Hr. cbn [fst].
      rewrite Z.add_0_r, to_size_t_small by lia. apply IH; lia.
    + destruct (encode_record_frame r 0 Hr) as (_ & Hsize & -> & _); [lia|].
      cbn [fst flat_map]. rewrite to_size_t_small by lia.
      rewrite IH by lia. rewrite length_app. lia.
Qed.

(** The second loop of [writeDbFile]: the record frames, one behind the
    other. *)
Lemma write_rows_spec (dataSize : Z) (rows : list DataRow) :
  forall writePtr written,
    0 <= writePtr ->
    writePtr + Z.of_nat (length (flat_map record_frame (stored_rows rows)))
      <= dataSize ->
    dataSize <= INT_MAX -> rows_volume rows < INT_MAX ->
    fold_left
      (fun '(writePtr, written) r =>
         let '(n, stored) := encode r true (to_size_t (dataSize - writePtr)) in
         (writePtr + n, written ++ stored))
      rows (writePtr, written)
    = (writePtr + Z.of_nat (length (flat_map record_frame (stored_rows rows))),
       written ++ flat_map record_frame (stored_rows rows)).
Proof.
  induction rows as [|r rows IH]; intros writePtr written Hwp Hroom Hsize Hfit.
  - simpl. rewrite app_nil_r. f_equal. lia.
  - rewrite rows_volume_cons in Hfit. pose proof (rows_volume_pos rows).
    pose proof (row_volume_pos r).
    cbn [fold_left]. rewrite stored_rows_cons in *.
    destruct (all_empty r) eqn:Hr.
    + rewrite all_empty_encode by exact Hr.
      rewrite Z.add_0_r, app_nil_r. apply IH; lia.
    + destruct (encode_record_frame r (to_size_t (dataSize - writePtr)) Hr)
        as (_ & Hframe & _ & ->); [lia|].
      cbn [flat_map] in Hroom |- *. rewrite length_app in Hroom |- *.
      rewrite to_size_t_small by lia.
      destruct (Z.ltb_spec (dataSize - writePtr)
                  (Z.of_nat (length (record_frame r)))) as [?|_]; [lia|].
      rewrite IH by lia. rewrite <- app_assoc. f_equal. lia.
Qed.

(** [writeDbFile] serializes the store as the outer sequence frame of
    its rows that have a non-empty cell. *)
Lemma encode_db_spec (rows : list DataRow) :
  rows_volume rows < INT_MAX ->
  encode_db rows = Some (sequence_frame (stored_rows rows)).
Proof.
  intros Hfit. pose proof (length_stored_frames rows Hfit) as Hinner.
  pose proof (rows_volume_pos rows).
  unfold encode_db. rewrite inner_size_spec by lia. rewrite Z.add_0_l.
  set (inner := Z.of_nat (length (flat_map record_frame (stored_rows rows)))) in *.
  rewrite to_int_small by lia.
  destruct (object_size_put 1 V_ASN1_SEQUENCE V_ASN1_UNIVERSAL inner)
    as [-> Hhdr]; [unfold frame_kinds; simpl; tauto | lia..|].
  set (header := ASN1_put_object 1 inner V_ASN1_SEQUENCE V_ASN1_UNIVERSAL) in *.
  rewrite to_size_t_small by lia.
  rewrite (write_rows_spec _ rows) by (fold inner; lia).
  fold inner. rewrite Z.eqb_refl. reflexivity.
Qed.

Lemma read_rows_step (fuel : nat) (p : list byte) (rows : list DataRow) :
  p <> [] ->
  read_rows (S fuel) p rows
  = read_rows fuel (snd (DataRow_parse p))
              (multiset_insert (fst (DataRow_parse p)) rows).
Proof.
  destruct p; [contradiction|]. intros _. cbn [read_rows].
  destruct (DataRow_parse (b :: p)). reflexivity.
Qed.

Lemma read_rows_nil (fuel : nat) (rows : list DataRow) :
  read_rows fuel [] rows = rows.
Proof. destruct fuel; reflexivity. Qed.

Lemma record_frame_not_nil (r : DataRow) (rest : list byte) :
  all_empty r = false -> row_volume r < INT_MAX -> record_frame r ++ rest <> [].
Proof.
  intros Hr Hfit Hnil.
  destruct (encode_record_frame r 0 Hr Hfit) as (_ & Hsize & _).
  apply (f_equal (@length byte)) in Hnil. rewrite length_app in Hnil.
  simpl in Hnil. lia.
Qed.

(** The row loop of [readDbFile] reads a run of record frames back and
    inserts the rows in turn. *)
Lemma read_rows_frames (rows : list DataRow) :
  forall fuel acc,
    Forall (fun r => all_empty r = false /\ row_volume r < INT_MAX) rows ->
    (length rows <= fuel)%nat ->
    read_rows fuel (flat_map record_frame rows) acc
    = fold_left (fun s r => multiset_insert r s) rows acc.
Proof.
  induction rows as [|r rows IH]; intros fuel acc Hall Hfuel.
  - apply read_rows_nil.
  - apply Forall_cons_1 in Hall. destruct Hall as [[Hr Hfit] Hall].
    destruct fuel as [|fuel]; [simpl in Hfuel; lia|].
    cbn [flat_map fold_left].
    rewrite read_rows_step by (apply record_frame_not_nil; assumption).
    rewrite DataRow_parse_record_frame by assumption. cbn [fst snd].
    apply IH; [exact Hall | simpl in Hfuel; lia].
Qed.

Lemma length_record_frames (rows : list DataRow) :
  Forall (fun r => all_empty r = false /\ row_volume r < INT_MAX) rows ->
  (length rows <= length (flat_map record_frame rows))%nat.
Proof.
  induction 1 as [|r rows [Hr Hfit] _ IH]; [reflexivity|].
  cbn [flat_map length]. rewrite length_app.
  destruct (encode_record_frame r 0 Hr Hfit) as (_ & Hsize & _). lia.
Qed.

Lemma stored_rows_all (rows : list DataRow) :
  Forall (fun r => all_empty r = false) rows -> stored_rows rows = rows.
Proof.
  induction 1 as [|r rows Hr _ IH]; [reflexivity|].
  rewrite stored_rows_cons, Hr, IH. reflexivity.
Qed.

Lemma rows_fit (rows : list DataRow) :
  rows_volume rows < INT_MAX ->
  Forall (fun r => row_volume r < INT_MAX) rows.
Proof.
  induction rows as [|r rows IH]; intros Hfit; constructor.
  - rewrite rows_volume_cons in Hfit. pose proof (rows_volume_pos rows). lia.
  - apply IH. rewrite rows_volume_cons in Hfit.
    pose proof (row_volume_pos r). lia.
Qed.

(** [readDbFile] reads the outer sequence frame of rows that all have a
    non-empty cell back as the store made of these rows. *)
Lemma decode_db_sequence_frame (rows : list DataRow) :
  Forall (fun r => all_empty r = false) rows ->
  rows_volume rows < INT_MAX ->
  decode_db (sequence_frame rows) = Some (multiset_of rows).
Proof.
  intros Hne Hfit.
  assert (Hall : Forall (fun r => all_empty r = false /\ row_volume r < INT_MAX)
                        rows).
  { pose proof (rows_fit rows Hfit) as Hfits.
    rewrite List.Forall_forall in *. intros r Hin. auto. }
  pose proof (length_stored_frames rows Hfit) as Hinner.
  rewrite stored_rows_all in Hinner by exact Hne.
  pose proof (rows_volume_pos rows).
  assert (Hkind : In (1, V_ASN1_SEQUENCE, V_ASN1_UNIVERSAL) frame_kinds)
    by (unfold frame_kinds; simpl; tauto).
  assert (Hlen : 0 <= Z.of_nat (length (flat_map record_frame rows)) <= INT_MAX)
    by (unfold INT_MAX in *; lia).
  unfold decode_db, sequence_frame.
  rewrite (get_put_object 1 V_ASN1_SEQUENCE V_ASN1_UNIVERSAL _ _ Hkind Hlen
             (Z.le_refl _)).
  change (negb ((if 1 =? 0 then 0 else V_ASN1_CONSTRUCTED) =? V_ASN1_CONSTRUCTED))
    with false.
  change (negb (V_ASN1_SEQUENCE =? V_ASN1_SEQUENCE)) with false.
  change (negb (V_ASN1_UNIVERSAL =? V_ASN1_UNIVERSAL)) with false.
  rewrite Z.eqb_refl. cbn [orb negb].
  rewrite read_rows_frames; [reflexivity | exact Hall|].
  apply length_record_frames, Hall.
Qed.

(** ** The parsing loops end

    Each turn of the two parsing loops moves the pointer forward, so the
    number of turns granted to them ([length] of the region) is never
    used up: more turns give the same result. *)

Lemma get_high_tag_shorter (p : list byte) :
  forall l tag p', get_high_tag p l = Some (tag, p') ->
    (length p' < length p)%nat.
Proof.
  induction p as [|b p IH]; intros l tag p' H; [discriminate H|].
  cbn [get_high_tag] in H. destruct p as [|b' p]; [discriminate H|].
  destruct (Z.land (Z_of_byte b) 128 =? 0).
  - injection H as _ <-. cbn [length]. lia.
  - destruct (Z.shiftr INT_MAX 7 <? _); [discriminate H|].
    apply IH in H. cbn [length] in *. lia.
Qed.

Lemma skip_zeroes_shorter (i : nat) :
  forall p i' p', skip_zeroes i p = (i', p') -> (length p' <= length p)%nat.
Proof.
  induction i as [|i IH]; intros p i' p' H.
  - destruct p; injection H as _ <-; reflexivity.
  - destruct p as [|b p]; [injection H as _ <-; reflexivity|].
    cbn [skip_zeroes] in H. destruct (Z_of_byte b =? 0).
    + apply IH in H. cbn [length]. lia.
    + injection H as _ <-. reflexivity.
Qed.

Lemma asn1_get_length_shorter (p : list byte) (inf len : Z) (p' : list byte) :
  asn1_get_length p = Some (inf, len, p') -> (length p' < length p)%nat.
Proof.
  destruct p as [|b p1]; [discriminate|]. unfold asn1_get_length.
  destruct (Z_of_byte b =? 128); [intros [= _ _ <-]; cbn [length]; lia|].
  destruct (Z.land (Z_of_byte b) 128 =? 0);
    [intros [= _ _ <-]; cbn [length]; lia|].
  destruct (Z.of_nat (length p1) <? _); [discriminate|].
  destruct (skip_zeroes _ p1) as [i p2] eqn:Hskip.
  apply skip_zeroes_shorter in Hskip.
  destruct (8 <? i)%nat; [discriminate|].
  destruct (LONG_MAX <? _); [discriminate|].
  intros [= _ _ <-]. rewrite length_drop. cbn [length]. lia.
Qed.

Lemma get_object_shorter (p : list byte) (ret tag xclass len : Z)
    (rest : list byte) :
  ASN1_get_object p = Asn1Object ret tag xclass len rest ->
  (length rest < length p)%nat.
Proof.
  destruct p as [|b p1]; [discriminate|]. unfold ASN1_get_object.
  destruct p1 as [|b1 p1]; [discriminate|].
  set (tagged := if _ =? V_ASN1_PRIMITIVE_TAG then _ else _).
  assert (Htagged : forall t p2, tagged = Some (t, p2) ->
                      (length p2 <= length (b1 :: p1))%nat).
  { subst tagged. intros t p2.
    destruct (_ =? V_ASN1_PRIMITIVE_TAG).
    - intros H. apply get_high_tag_shorter in H. lia.
    - intros [= _ <-]. reflexivity. }
  destruct tagged as [[t p2]|]; [|discriminate].
  specialize (Htagged t p2 eq_refl).
  destruct (asn1_get_length p2) as [[[inf len'] p3]|] eqn:Hlen; [|discriminate].
  apply asn1_get_length_shorter in Hlen.
  destruct (negb (inf =? 0) && _); [discriminate|].
  intros [= _ _ _ _ <-]. cbn [length] in *. lia.
Qed.

Lemma parse_cells_fuel (n : nat) :
  forall fuel1 fuel2 body r,
    (length body <= n)%nat -> (n <= fuel1)%nat -> (n <= fuel2)%nat ->
    parse_cells fuel1 body r = parse_cells fuel2 body r.
Proof.
  induction n as [|n IH]; intros fuel1 fuel2 body r Hlen H1 H2.
  - destruct body; [|simpl in Hlen; lia]. rewrite !parse_cells_nil.
    reflexivity.
  - destruct body as [|b body]; [rewrite !parse_cells_nil; reflexivity|].
    destruct fuel1 as [|fuel1]; [lia|]. destruct fuel2 as [|fuel2]; [lia|].
    rewrite !parse_cells_step by discriminate.
    destruct (ASN1_get_object (b :: body)) as [|ret tag xclass len rest] eqn:Hget;
      [reflexivity|].
    apply get_object_shorter in Hget.
    destruct (negb (ret =? 0) || _); [reflexivity|].
    apply IH; [rewrite length_drop; lia | lia | lia].
Qed.

Lemma DataRow_parse_shorter (p : list byte) :
  p <> [] -> (length (snd (DataRow_parse p)) < length p)%nat.
Proof.
  intros Hp. unfold DataRow_parse.
  assert (Hpos : (0 < length p)%nat) by (destruct p; [contradiction | simpl; lia]).
  destruct (ASN1_get_object p) as [|ret tag xclass len rest] eqn:Hget;
    [exact Hpos|].
  apply get_object_shorter in Hget.
  destruct (_ || _); [exact Hpos|].
  cbn [snd]. rewrite length_drop. lia.
Qed.

Lemma read_rows_fuel (n : nat) :
  forall fuel1 fuel2 p rows,
    (length p <= n)%nat -> (n <= fuel1)%nat -> (n <= fuel2)%nat ->
    read_rows fuel1 p rows = read_rows fuel2 p rows.
Proof.
  induction n as [|n IH]; intros fuel1 fuel2 p rows Hlen H1 H2.
  - destruct p; [|simpl in Hlen; lia]. rewrite !read_rows_nil. reflexivity.
  - destruct p as [|b p]; [rewrite !read_rows_nil; reflexivity|].
    destruct fuel1 as [|fuel1]; [lia|]. destruct fuel2 as [|fuel2]; [lia|].
    rewrite !read_rows_step by discriminate.
    pose proof (DataRow_parse_shorter (b :: p) ltac:(discriminate)) as Hshort.
    apply IH; [lia | lia | lia].
Qed.

(** ** The order of the rows *)

Section LexCompare.

Context {A : Type} (cmp : A -> A -> comparison).
Hypothesis cmp_antisym : forall x y, cmp y x = CompOpp (cmp x y).
Hypothesis cmp_eq : forall x y z, cmp x y = Eq -> cmp x z = cmp y z.
Hypothesis cmp_trans :
  forall x y z, cmp x y = Lt -> cmp y z = Lt -> cmp x z = Lt.

Lemma lex_antisym (xs : list A) :
  forall ys, lex_compare cmp ys xs = CompOpp (lex_compare cmp xs ys).
Proof.
  induction xs as [|x xs IH]; intros [|y ys]; cbn [lex_compare]; try reflexivity.
  rewrite (cmp_antisym x y). destruct (cmp x y); cbn [CompOpp]; auto.
Qed.

Lemma lex_eq (xs : list A) :
  forall ys zs, lex_compare cmp xs ys = Eq ->
                lex_compare cmp xs zs = lex_compare cmp ys zs.
Proof.
  induction xs as [|x xs IH]; intros [|y ys] zs H; cbn [lex_compare] in H;
    try discriminate H; [reflexivity|].
  destruct (cmp x y) eqn:Hxy; try discriminate H.
  destruct zs as [|z zs]; cbn [lex_compare]; [reflexivity|].
  rewrite (cmp_eq x y z Hxy). destruct (cmp y z); auto.
Qed.

Lemma lex_trans (xs : list A) :
  forall ys zs, lex_compare cmp xs ys = Lt -> lex_compare cmp ys zs = Lt ->
                lex_compare cmp xs zs = Lt.
Proof.
  induction xs as [|x xs IH]; intros [|y ys] [|z zs] H1 H2;
    cbn [lex_compare] in *; try discriminate; try reflexivity.
  destruct (cmp x y) eqn:Hxy; try discriminate H1.
  - rewrite (cmp_eq x y z Hxy).
    destruct (cmp y z); try discriminate H2; eauto.
  - destruct (cmp y z) eqn:Hyz; try discriminate H2.
    + assert (Hxz : cmp x z = Lt).
      { rewrite (cmp_antisym z x), <- (cmp_eq y z x Hyz), (cmp_antisym x y), Hxy.
        reflexivity. }
      rewrite Hxz. reflexivity.
    + rewrite (cmp_trans x y z Hxy Hyz). reflexivity.
Qed.

End LexCompare.

Lemma byte_compare_antisym (x y : byte) :
  byte_compare y x = CompOpp (byte_compare x y).
Proof. apply Z.compare_antisym. Qed.

Lemma byte_compare_eq (x y z : byte) :
  byte_compare x y = Eq -> byte_compare x z = byte_compare y z.
Proof.
  unfold byte_compare. intros H. apply Z.compare_eq_iff in H. rewrite H.
  reflexivity.
Qed.

Lemma byte_compare_trans (x y z : byte) :
  byte_compare x y = Lt -> byte_compare y z = Lt -> byte_compare x z = Lt.
Proof. unfold byte_compare. rewrite !Z.compare_lt_iff. lia. Qed.

Lemma bytes_compare_antisym (a b : QByteArray) :
  bytes_compare b a = CompOpp (bytes_compare a b).
Proof. apply lex_antisym, byte_compare_antisym. Qed.

Lemma bytes_compare_eq (a b c : QByteArray) :
  bytes_compare a b = Eq -> bytes_compare a c = bytes_compare b c.
Proof. apply lex_eq, byte_compare_eq. Qed.

Lemma bytes_compare_trans (a b c : QByteArray) :
  bytes_compare a b = Lt -> bytes_compare b c = Lt -> bytes_compare a c = Lt.
Proof.
  apply lex_trans;
    [exact byte_compare_antisym | exact byte_compare_eq | exact byte_compare_trans].
Qed.

Lemma key_compare_antisym (k1 k2 : list QByteArray) :
  key_compare k2 k1 = CompOpp (key_compare k1 k2).
Proof. apply lex_antisym, bytes_compare_antisym. Qed.

Lemma key_compare_trans (k1 k2 k3 : list QByteArray) :
  key_compare k1 k2 = Lt -> key_compare k2 k3 = Lt -> key_compare k1 k3 = Lt.
Proof.
  apply lex_trans;
    [exact bytes_compare_antisym | exact bytes_compare_eq
    |exact bytes_compare_trans].
Qed.

(** The sign of [strcmp] is the byte-wise comparison of the two C
    strings. *)
Lemma strcmp_sign (a : QByteArray) :
  forall b, (strcmp a b ?= 0) = bytes_compare (c_str a) (c_str b).
Proof.
  induction a as [|c1 a IH]; intros [|c2 b]; cbn [strcmp c_str].
  - reflexivity.
  - pose proof (Z_of_byte_range c2).
    destruct (Z.eqb_spec (Z_of_byte c2) 0) as [->|Hne]; [reflexivity|].
    cbn [bytes_compare lex_compare]. apply Z.compare_lt_iff. lia.
  - pose proof (Z_of_byte_range c1).
    destruct (Z.eqb_spec (Z_of_byte c1) 0) as [->|Hne]; [reflexivity|].
    cbn [bytes_compare lex_compare]. apply Z.compare_gt_iff. lia.
  - pose proof (Z_of_byte_range c1). pose proof (Z_of_byte_range c2).
    destruct (Z.eqb_spec (Z_of_byte c1) (Z_of_byte c2)) as [Heq|Hne].
    + rewrite <- Heq.
      destruct (Z.eqb_spec (Z_of_byte c1) 0) as [?|?]; [reflexivity|].
      rewrite IH. unfold bytes_compare. cbn [lex_compare].
      unfold byte_compare. rewrite <- Heq, Z.compare_refl. reflexivity.
    + rewrite <- Z.compare_sub.
      destruct (Z.eqb_spec (Z_of_byte c1) 0) as [H1|H1];
        destruct (Z.eqb_spec (Z_of_byte c2) 0) as [H2|H2];
        unfold bytes_compare; cbn [lex_compare].
      * lia.
      * apply Z.compare_lt_iff. lia.
      * apply Z.compare_gt_iff. lia.
      * unfold byte_compare.
        destruct (Z.compare_spec (Z_of_byte c1) (Z_of_byte c2)); [lia|..];
          reflexivity.
Qed.

(** The loop of [operator<] decides the lexicographic order of the
    tuples of C strings. *)
Lemma cells_lt_key_compare (xs : list QByteArray) :
  forall ys, length xs = length ys ->
    cells_lt xs ys = true <-> key_compare (map c_str xs) (map c_str ys) = Lt.
Proof.
  induction xs as [|x xs IH]; intros [|y ys] Hlen; try discriminate Hlen.
  - cbn. split; discriminate.
  - cbn [cells_lt map]. unfold key_compare. cbn [lex_compare].
    rewrite <- strcmp_sign.
    destruct (Z.compare_spec (strcmp x y) 0) as [H0|Hlt|Hgt].
    + destruct (Z.ltb_spec (strcmp x y) 0) as [?|_]; [lia|].
      destruct (Z.ltb_spec 0 (strcmp x y)) as [?|_]; [lia|].
      apply IH. simpl in Hlen. lia.
    + destruct (Z.ltb_spec (strcmp x y) 0) as [_|?]; [|lia]. tauto.
    + destruct (Z.ltb_spec (strcmp x y) 0) as [?|_]; [lia|].
      destruct (Z.ltb_spec 0 (strcmp x y)) as [_|?]; [|lia].
      split; discriminate.
Qed.

Lemma DataRow_lt_key (r1 r2 : DataRow) :
  DataRow_lt r1 r2 = true
  <-> key_compare (map c_str (cells r1)) (map c_str (cells r2)) = Lt.
Proof. apply cells_lt_key_compare. reflexivity. Qed.

Lemma DataRow_lt_asym (a b : DataRow) :
  DataRow_lt a b = true -> DataRow_lt b a = false.
Proof.
  rewrite DataRow_lt_key. intros H.
  destruct (DataRow_lt b a) eqn:Hba; [|reflexivity].
  apply DataRow_lt_key in Hba. rewrite key_compare_antisym, H in Hba.
  discriminate Hba.
Qed.

Lemma DataRow_lt_trans (a b c : DataRow) :
  DataRow_lt a b = true -> DataRow_lt b c = true -> DataRow_lt a c = true.
Proof. rewrite !DataRow_lt_key. apply key_compare_trans. Qed.

Lemma c_str_no_nul (a : QByteArray) : no_nul a -> c_str a = a.
Proof.
  induction 1 as [|b a Hb _ IH]; [reflexivity|]. cbn [c_str].
  destruct (Z.eqb_spec (Z_of_byte b) 0); [contradiction|]. rewrite IH.
  reflexivity.
Qed.

Lemma map_c_str_no_nul (k : list QByteArray) :
  Forall no_nul k -> map c_str k = k.
Proof.
  induction 1 as [|a k Ha _ IH]; [reflexivity|]. cbn [map].
  rewrite c_str_no_nul, IH by assumption. reflexivity.
Qed.

(** ** The store *)

Lemma multiset_insert_perm (x : DataRow) (s : list DataRow) :
  Permutation (x :: s) (multiset_insert x s).
Proof.
  induction s as [|y s IH]; cbn [multiset_insert]; [reflexivity|].
  destruct (DataRow_lt x y); [reflexivity|].
  etransitivity; [apply perm_swap|]. apply perm_skip, IH.
Qed.

Lemma multiset_insert_in_order (x : DataRow) (s : list DataRow) :
  in_order s -> in_order (multiset_insert x s).
Proof.
  unfold in_order. induction s as [|y s IH]; intros Hs; cbn [multiset_insert].
  - repeat constructor.
  - apply StronglySorted_inv in Hs. destruct Hs as [Hs Hy].
    destruct (DataRow_lt x y) eqn:Hxy.
    + constructor; [constructor; assumption|].
      constructor; [apply DataRow_lt_asym, Hxy|].
      rewrite List.Forall_forall in Hy |- *. intros z Hz.
      destruct (DataRow_lt z x) eqn:Hzx; [|reflexivity].
      rewrite <- (Hy z Hz). symmetry. eapply DataRow_lt_trans; eassumption.
    + constructor; [apply IH, Hs|].
      rewrite List.Forall_forall in Hy |- *. intros z Hz.
      apply (Permutation_in _ (Permutation_sym (multiset_insert_perm x s))) in Hz.
      destruct Hz as [<-|Hz]; [exact Hxy | apply Hy, Hz].
Qed.

Lemma multiset_insert_last (x : DataRow) (s : list DataRow) :
  Forall (fun y => DataRow_lt x y = false) s ->
  multiset_insert x s = s ++ [x].
Proof.
  induction 1 as [|y s Hy _ IH]; cbn [multiset_insert]; [reflexivity|].
  rewrite Hy, IH. reflexivity.
Qed.


Lemma fold_insert_in_order (rows : list DataRow) :
  forall acc, in_order acc ->
    in_order (fold_left (fun s r => multiset_insert r s) rows acc).
Proof.
  induction rows as [|r rows IH]; intros acc Hacc; cbn [fold_left];
    [exact Hacc|].
  apply IH, multiset_insert_in_order, Hacc.
Qed.

(** Inserting the elements of a store in their order gives the store
    back. *)
Lemma fold_insert_in_order_id (rows : list DataRow) :
  forall acc, in_order (acc ++ rows) ->
    fold_left (fun s r => multiset_insert r s) rows acc = acc ++ rows.
Proof.
  induction rows as [|r rows IH]; intros acc Hs; cbn [fold_left].
  - rewrite app_nil_r. reflexivity.
  - rewrite multiset_insert_last.
    + rewrite IH; rewrite <- app_assoc; [reflexivity | exact Hs].
    + unfold in_order in Hs. apply StronglySorted_app in Hs.
      destruct Hs as (Hcross & _ & _).
      rewrite Forall_forall. intros y Hy.
      apply Hcross; [exact Hy | apply list_elem_of_here].
Qed.


Lemma multiset_of_in_order (rows : list DataRow) : in_order (multiset_of rows).
Proof. apply fold_insert_in_order. constructor. Qed.

Lemma multiset_of_in_order_id (s : list DataRow) :
  in_order s -> multiset_of s = s.
Proof. intros Hs. apply (fold_insert_in_order_id s []), Hs. Qed.


(** ** The claims on the codec and on the store *)



(** The record frame of a sample row: the login and the password follow
    the service, the empty comment is left out. *)
Example record_frame_gmail :
  map Z_of_byte (record_frame row_gmail)
  = [0x31; 13; 0x80; 5; 103; 109; 97; 105; 108; 0x81; 1; 117; 0x82; 1; 112].
Proof. reflexivity. Qed.

(** C5, as stated, fails: two rows whose service cells differ only
    behind a NUL byte are in byte-wise order, and [operator<] does not
    put the first before the second. *)
Lemma DataRow_lt_stops_at_nul :
  key_compare (cells row_nul_b) (cells row_nul_c) = Lt /\
  DataRow_lt row_nul_b row_nul_c = false.
Proof. split; reflexivity. Qed.

(** C5, amended.  [r1 < r2] holds exactly when the tuple of the four
    cells of [r1], each one cut at its first NUL byte, is
    lexicographically smaller byte-wise than that of [r2]; for cells
    without NUL bytes this is the byte-wise order of the cells
    themselves.  Rows with equal cells are not less than one another, and
    an insertion into the store keeps every element. *)
Theorem DataRow_lt_c_string_order (r1 r2 : DataRow) :
  (DataRow_lt r1 r2 = true
   <-> key_compare (map c_str (cells r1)) (map c_str (cells r2)) = Lt) /\
  (Forall no_nul (cells r1) -> Forall no_nul (cells r2) ->
   (DataRow_lt r1 r2 = true <-> key_compare (cells r1) (cells r2) = Lt)) /\
  (cells r1 = cells r2 ->
   DataRow_lt r1 r2 = false /\ DataRow_lt r2 r1 = false) /\
  (forall s, Permutation (r1 :: s) (multiset_insert r1 s)).
Proof.
  split; [apply DataRow_lt_key|].
  split; [|split].
  - intros H1 H2. rewrite DataRow_lt_key.
    rewrite !map_c_str_no_nul by assumption. reflexivity.
  - intros Heq.
    assert (Hirr : DataRow_lt r2 r2 = false).
    { destruct (DataRow_lt r2 r2) eqn:H; [|reflexivity].
      rewrite <- H. apply DataRow_lt_asym, H. }
    unfold DataRow_lt in *. rewrite Heq. auto.
  - apply multiset_insert_perm.
Qed.

Lemma no_nul_cells_bank : Forall no_nul (cells row_bank).
Proof.
  repeat constructor; intros H; vm_compute in H; discriminate H.
Qed.

Lemma no_nul_cells_gmail : Forall no_nul (cells row_gmail).
Proof.
  repeat constructor; intros H; vm_compute in H; discriminate H.
Qed.

Lemma DataRow_lt_c_string_order_witness :
  Forall no_nul (cells row_bank) /\ Forall no_nul (cells row_gmail) /\
  (DataRow_lt row_bank row_gmail = true
   <-> key_compare (cells row_bank) (cells row_gmail) = Lt).
Proof.
  split; [exact no_nul_cells_bank|]. split; [exact no_nul_cells_gmail|].
  exact (proj1 (proj2 (DataRow_lt_c_string_order row_bank row_gmail))
           no_nul_cells_bank no_nul_cells_gmail).
Defined.

(** *** The store and the canonical form *)














(** The scenario of the specification: the same row inserted twice. *)
Example round_trip_duplicates :
  multiset_of [row_gmail; row_bank; row_gmail] = [row_bank; row_gmail; row_gmail]
  /\ (encode_db [row_bank; row_gmail; row_gmail] ≫= decode_db)
     = Some [row_bank; row_gmail; row_gmail].
Proof. split; reflexivity. Qed.

(** ** The claims on the engine *)

(** C2.  Whatever the engine holds and whatever the file is, a
    [readDbFile] that returns [false] leaves [data] as it was and sets
    the error string: the file cannot be opened, or the decryption
    fails, or the outer sequence frame is refused.  Only a call that
    returns [true] replaces [data], by the rows decoded from the
    decrypted file. *)
Theorem readDbFile_failure_keeps_data
    (EVP_decrypt : QByteArray -> QByteArray -> QByteArray -> QByteArray ->
                   option (QByteArray * Z))
    (disk : option QByteArray) (st : StorageEngine) :
  match readDbFile EVP_decrypt disk st with
  | (false, st') =>
    data st' = data st /\ errorDescription st' <> EmptyString /\
    ((disk = None /\
      errorDescription st' = ("Cannot open DB file: " ++ dbFileName st)%string)
     \/ (exists fileContent,
           disk = Some fileContent /\
           decryptData EVP_decrypt (key st) fileContent = None /\
           errorDescription st' = "Wrong password or file corruption"%string)
     \/ (exists fileContent payload,
           disk = Some fileContent /\
           decryptData EVP_decrypt (key st) fileContent = Some payload /\
           decode_db payload = None /\
           errorDescription st' = "Password DB structure is corrupted"%string))
  | (true, st') =>
    exists fileContent payload rows,
      disk = Some fileContent /\
      decryptData EVP_decrypt (key st) fileContent = Some payload /\
      decode_db payload = Some rows /\
      data st' = rows /\ errorDescription st' = errorDescription st
  end.
Proof.
  unfold readDbFile, readFileContent.
  destruct disk as [fileContent|].
  - destruct (decryptData EVP_decrypt (key st) fileContent) as [payload|] eqn:Hdec.
    + destruct (decode_db payload) as [rows|] eqn:Hrows.
      * exists fileContent, payload, rows. auto.
      * split; [reflexivity|]. split; [discriminate|].
        right; right. exists fileContent, payload. auto.
    + split; [reflexivity|]. split; [discriminate|].
      right; left. exists fileContent. auto.
  - split; [reflexivity|]. split; [discriminate|]. left. auto.
Qed.

(** The outer frame is accepted exactly when it is a constructed
    universal SEQUENCE whose length is the number of bytes behind its
    header. *)
Lemma decode_db_accepted (payload : QByteArray) (rows : list DataRow) :
  decode_db payload = Some rows <->
  exists len rest,
    ASN1_get_object payload
    = Asn1Object V_ASN1_CONSTRUCTED V_ASN1_SEQUENCE V_ASN1_UNIVERSAL len rest
    /\ len = Z.of_nat (length rest)
    /\ rows = read_rows (length rest) rest [].
Proof.
  unfold decode_db.
  destruct (ASN1_get_object payload) as [|ret tag xclass len rest].
  - split; [discriminate | intros (? & ? & Heq & _); discriminate Heq].
  - destruct (Z.eqb_spec ret V_ASN1_CONSTRUCTED) as [Hret|Hret];
      destruct (Z.eqb_spec tag V_ASN1_SEQUENCE) as [Htag|Htag];
      destruct (Z.eqb_spec xclass V_ASN1_UNIVERSAL) as [Hclass|Hclass];
      destruct (Z.eqb_spec len (Z.of_nat (length rest))) as [Hlen|Hlen];
      cbn [negb orb];
      (split;
       [ intros H; try discriminate H; injection H as <-; subst;
         eexists _, _; eauto
       | intros (len' & rest' & Heq & Hl & Hr);
         injection Heq as ? ? ? ? ?; subst; congruence ]).
Qed.

(** C9.  For the empty store [writeDbFile] serializes the two bytes of
    an empty outer sequence frame.  With a key of 32 bytes in the engine,
    an IV of 12 bytes, a cipher that turns the two bytes into as many
    bytes and a tag of 16 bytes, and a file system that refuses nothing,
    the save succeeds and the file holds the encrypted frame, the IV and
    the tag: exactly 30 bytes.  Whatever the file system does, a save that
    succeeds leaves these 30 bytes. *)
Theorem empty_vault_file_size
    (EVP_encrypt : QByteArray -> QByteArray -> QByteArray ->
                   option (QByteArray * Z * QByteArray))
    (newFileName : string) (st : StorageEngine) (disk : option QByteArray)
    (iv payload mac : QByteArray) :
  data st = [] ->
  Z.of_nat (length (key st)) = EVP_CIPHER_key_length ->
  Z.of_nat (length iv) = ENC_IV_SIZE ->
  EVP_encrypt (key st) iv [byte_of_Z 0x30; byte_of_Z 0]
    = Some (payload, 0, mac) ->
  length payload = 2%nat ->
  Z.of_nat (length mac) = ENC_MAC_SIZE ->
  encode_db (data st) = Some [byte_of_Z 0x30; byte_of_Z 0] /\
  writeDbFile (Some iv) EVP_encrypt None newFileName st disk
    = (true, st, Some (payload ++ iv ++ mac)) /\
  length (payload ++ iv ++ mac) = 30%nat /\
  (forall fs_refuses st' disk',
     writeDbFile (Some iv) EVP_encrypt fs_refuses newFileName st disk
       = (true, st', disk') ->
     st' = st /\ disk' = Some (payload ++ iv ++ mac)).
Proof.
  intros Hdata Hkey Hiv Henc Hlen Hmac. rewrite Hdata.
  split; [reflexivity|].
  assert (Hcrypt : encryptData (Some iv) EVP_encrypt (key st)
                     [byte_of_Z 0x30; byte_of_Z 0]
                   = Some (payload ++ iv ++ mac)).
  { unfold encryptData. rewrite Hkey, Henc, Hlen. reflexivity. }
  assert (Hrun : forall fs_refuses,
            writeDbFile (Some iv) EVP_encrypt fs_refuses newFileName st disk
            = writeFileContent fs_refuses newFileName (payload ++ iv ++ mac)
                st disk).
  { intros fs_refuses. unfold writeDbFile. rewrite Hdata.
    change (encode_db []) with (Some [byte_of_Z 0x30; byte_of_Z 0]).
    cbv beta iota. rewrite Hcrypt. reflexivity. }
  split; [rewrite Hrun; destruct disk; reflexivity|].
  split.
  { unfold ENC_IV_SIZE in Hiv. unfold ENC_MAC_SIZE in Hmac.
    rewrite !length_app. lia. }
  intros fs_refuses st' disk'. rewrite Hrun. unfold writeFileContent.
  intros Hwrite.
  destruct fs_refuses as [[| | |]|]; destruct disk;
    try discriminate Hwrite; injection Hwrite as <- <-; split; reflexivity.
Qed.

Lemma sample_iv_sized : iv_sized sample_iv.
Proof. intros iv [= <-]. reflexivity. Qed.

Lemma sample_mac_sized : mac_sized sample_encrypt.
Proof. intros k iv buf payload outLen mac [= _ _ <-]. reflexivity. Qed.

Lemma empty_vault_file_size_witness :
  data sample_engine = [] /\
  Z.of_nat (length (key sample_engine)) = EVP_CIPHER_key_length /\
  Z.of_nat (length (repeat x01 12)) = ENC_IV_SIZE /\
  sample_encrypt (key sample_engine) (repeat x01 12)
                 [byte_of_Z 0x30; byte_of_Z 0]
    = Some ([byte_of_Z 0x1a; byte_of_Z 0x2a], 0, repeat x02 16) /\
  length [byte_of_Z 0x1a; byte_of_Z 0x2a] = 2%nat /\
  Z.of_nat (length (repeat x02 16)) = ENC_MAC_SIZE /\
  encode_db (data sample_engine) = Some [byte_of_Z 0x30; byte_of_Z 0] /\
  writeDbFile (Some (repeat x01 12)) sample_encrypt None "vault.db_0"
              sample_engine None
    = (true, sample_engine,
       Some ([byte_of_Z 0x1a; byte_of_Z 0x2a] ++ repeat x01 12
             ++ repeat x02 16)) /\
  length ([byte_of_Z 0x1a; byte_of_Z 0x2a] ++ repeat x01 12 ++ repeat x02 16)
    = 30%nat /\
  (forall fs_refuses st' disk',
     writeDbFile (Some (repeat x01 12)) sample_encrypt fs_refuses "vault.db_0"
                 sample_engine None
       = (true, st', disk') ->
     st' = sample_engine /\
     disk' = Some ([byte_of_Z 0x1a; byte_of_Z 0x2a] ++ repeat x01 12
                   ++ repeat x02 16)).
Proof.
  split; [reflexivity|]. split; [reflexivity|]. split; [reflexivity|].
  split; [reflexivity|]. split; [reflexivity|]. split; [reflexivity|].
  exact (empty_vault_file_size sample_encrypt "vault.db_0" sample_engine None
           (repeat x01 12) [byte_of_Z 0x1a; byte_of_Z 0x2a] (repeat x02 16)
           eq_refl eq_refl eq_refl eq_refl eq_refl eq_refl).
Defined.

(** The scenario of the specification: a new vault saved at once. *)
Example empty_vault_saved :
  exists bytes,
    writeDbFile sample_iv sample_encrypt None "vault.db_0" sample_engine None
      = (true, sample_engine, Some bytes)
    /\ length bytes = 30%nat.
Proof. eexists. split; reflexivity. Qed.

(** * Further properties *)

(** ** The pool as a stream of bits *)

Lemma mod_pow2_split (L x a b : Z) :
  0 <= a -> 0 <= b -> 0 <= L < 2 ^ a ->
  (L + 2 ^ a * x) mod 2 ^ (a + b) = L + 2 ^ a * (x mod 2 ^ b).
Proof.
  intros Ha Hb HL.
  assert (Hpa : 0 < 2 ^ a) by (apply pow2_pos; lia).
  assert (Hpb : 0 < 2 ^ b) by (apply pow2_pos; lia).
  rewrite Z.pow_add_r by lia.
  rewrite Z.rem_mul_r by lia.
  replace (L + 2 ^ a * x) with (L + x * 2 ^ a) by ring.
  rewrite Z.mod_add by lia. rewrite Z.div_add by lia.
  rewrite (Z.mod_small L) by lia. rewrite (Z.div_small L) by lia.
  reflexivity.
Qed.

Lemma mod_pow2_mod (x a b : Z) :
  0 <= b <= a -> (x mod 2 ^ a) mod 2 ^ b = x mod 2 ^ b.
Proof.
  intros H. apply Z.mod_mod_divide.
  exists (2 ^ (a - b)). rewrite <- Z.pow_add_r by lia. f_equal. lia.
Qed.

Lemma div_pow2_mod (x c b : Z) :
  0 <= c -> 0 <= b -> (x mod 2 ^ (c + b)) / 2 ^ c = (x / 2 ^ c) mod 2 ^ b.
Proof.
  intros Hc Hb.
  assert (Hpc : 0 < 2 ^ c) by (apply pow2_pos; lia).
  assert (Hpb : 0 < 2 ^ b) by (apply pow2_pos; lia).
  rewrite Z.pow_add_r by lia. rewrite Z.rem_mul_r by lia.
  rewrite (Z.mul_comm (2 ^ c)). rewrite Z.div_add by lia.
  rewrite Z.div_small by (apply Z.mod_pos_bound; lia). reflexivity.
Qed.

Lemma lor_shifted (hi lo k : Z) :
  0 <= k -> 0 <= lo < 2 ^ k -> Z.lor (hi * 2 ^ k) lo = hi * 2 ^ k + lo.
Proof.
  intros Hk Hlo.
  assert (Hland : Z.land (hi * 2 ^ k) lo = 0).
  { rewrite <- Z.shiftl_mul_pow2 by lia.
    apply Z.bits_inj'. intros i Hi. rewrite Z.land_spec, Z.bits_0.
    destruct (Z.ltb_spec i k).
    - rewrite Z.shiftl_spec_low by lia. reflexivity.
    - replace (Z.testbit lo i) with false; [apply Bool.andb_false_r|].
      symmetry. destruct (Z.eq_dec lo 0) as [->|?]; [apply Z.bits_0|].
      apply Z.bits_above_log2; [lia|]. apply Z.log2_lt_pow2; [lia|].
      eapply Z.lt_le_trans; [apply Hlo|]. apply pow2_le; lia. }
  rewrite <- Z.lxor_lor by exact Hland.
  rewrite <- Z.add_nocarry_lxor by exact Hland. reflexivity.
Qed.

(** The value of the limbs around limb [q]: the limbs below it, the limb
    itself and the limbs above it. *)
Lemma limbs_value_at (pl : list Z) :
  forall (q : nat) (limb : Z),
    pl !! q = Some limb -> Forall is_u32 pl ->
    exists L H,
      0 <= L < 2 ^ (32 * Z.of_nat q) /\
      limbs_value pl = L + 2 ^ (32 * Z.of_nat q) * (limb + 2 ^ 32 * H) /\
      forall x, limbs_value (<[q := x]> pl)
                = L + 2 ^ (32 * Z.of_nat q) * (x + 2 ^ 32 * H).
Proof.
  induction pl as [|l pl IH]; intros q limb Hl Hall; [discriminate|].
  apply Forall_cons_1 in Hall. destruct Hall as [Hu Hall].
  destruct q as [|q].
  - injection Hl as ->. exists 0, (limbs_value pl).
    change (2 ^ (32 * Z.of_nat 0)) with 1.
    split; [lia|]. split; [cbn [limbs_value]; lia|].
    intros x. cbn [limbs_value]. change (<[0%nat:=x]> (limb :: pl)) with (x :: pl).
    cbn [limbs_value]. lia.
  - destruct (IH q limb Hl Hall) as (L & H & HL & Hv & Hins).
    unfold is_u32 in Hu.
    assert (Hp : 0 < 2 ^ (32 * Z.of_nat q)) by (apply pow2_pos; lia).
    assert (Hpow : 2 ^ (32 * Z.of_nat (S q)) = 2 ^ 32 * 2 ^ (32 * Z.of_nat q)).
    { rewrite <- Z.pow_add_r by lia. f_equal. lia. }
    exists (l + 2 ^ 32 * L), H. rewrite Hpow.
    split; [nia|]. split.
    + cbn [limbs_value]. rewrite Hv. ring.
    + intros x. change (<[S q:=x]> (l :: pl)) with (l :: <[q:=x]> pl).
      cbn [limbs_value]. rewrite Hins. ring.
Qed.

Lemma limbs_value_bound (pl : list Z) :
  Forall is_u32 pl -> 0 <= limbs_value pl < 2 ^ (32 * Z.of_nat (length pl)).
Proof.
  induction 1 as [|l pl Hu _ IH]; [cbn; lia|].
  unfold is_u32 in Hu. cbn [limbs_value length].
  assert (Hpow : 2 ^ (32 * Z.of_nat (S (length pl)))
                 = 2 ^ 32 * 2 ^ (32 * Z.of_nat (length pl))).
  { rewrite <- Z.pow_add_r by lia. f_equal. lia. }
  rewrite Hpow. nia.
Qed.

(** The low [32 * q + k] bits of the limbs are the limbs below limb [q]
    and the low [k] bits of that limb; storing into limb [q] changes
    only these [k] bits. *)
Lemma limbs_value_low (pl : list Z) (q : nat) (limb k : Z) :
  pl !! q = Some limb -> Forall is_u32 pl -> 0 <= k <= 32 ->
  limbs_value pl mod 2 ^ (32 * Z.of_nat q + k)
  = limbs_value pl mod 2 ^ (32 * Z.of_nat q)
    + 2 ^ (32 * Z.of_nat q) * (limb mod 2 ^ k)
  /\ 0 <= limbs_value pl mod 2 ^ (32 * Z.of_nat q) < 2 ^ (32 * Z.of_nat q)
  /\ forall x,
       limbs_value (<[q := x]> pl) mod 2 ^ (32 * Z.of_nat q + k)
       = limbs_value pl mod 2 ^ (32 * Z.of_nat q)
         + 2 ^ (32 * Z.of_nat q) * (x mod 2 ^ k).
Proof.
  intros Hl Hall Hk.
  destruct (limbs_value_at pl q limb Hl Hall) as (L & H & HL & Hv & Hins).
  assert (Hp : 0 < 2 ^ (32 * Z.of_nat q)) by (apply pow2_pos; lia).
  assert (Hlow : limbs_value pl mod 2 ^ (32 * Z.of_nat q) = L).
  { rewrite Hv. rewrite <- (Z.add_0_r (32 * Z.of_nat q)) at 2.
    rewrite mod_pow2_split by lia.
    change (2 ^ 0) with 1. rewrite Z.mod_1_r. lia. }
  assert (Hhigh : forall x, (x + 2 ^ 32 * H) mod 2 ^ k = x mod 2 ^ k).
  { intros x. replace (2 ^ 32 * H) with (H * 2 ^ (32 - k) * 2 ^ k).
    - apply Z.mod_add. pose proof (pow2_pos k). lia.
    - rewrite <- Z.mul_assoc, <- Z.pow_add_r by lia.
      replace (32 - k + k) with 32 by lia. ring. }
  rewrite Hlow. split; [|split; [exact HL|]].
  - rewrite Hv, mod_pow2_split by lia. rewrite Hhigh. reflexivity.
  - intros x. rewrite Hins, mod_pow2_split by lia. rewrite Hhigh. reflexivity.
Qed.

(** The loop of [getBits] hands out the [count] highest unread bits and
    leaves the others unread. *)
Lemma getBits_loop_exact (n : Z) (fuel : nat) :
  forall res count pl ps res' pl' ps',
    pool_ok pl ps -> 0 <= count <= n -> n <= 32 -> count <= ps ->
    0 <= res < 2 ^ (n - count) ->
    (res = 0 \/ (ps mod 32 = 0 /\ count < 32)) ->
    getBits_loop fuel res count pl ps = Some (res', pl', ps') ->
    ps' = ps - count /\
    res' = res * 2 ^ count + (limbs_value pl mod 2 ^ ps) / 2 ^ (ps - count) /\
    limbs_value pl' mod 2 ^ ps' = limbs_value pl mod 2 ^ (ps - count).
Proof.
  induction fuel as [|fuel IH];
    intros res count pl ps res' pl' ps' Hok Hc Hn Hps Hres Hz Hrun.
  - cbn [getBits_loop] in Hrun.
    destruct (Z.ltb_spec 0 count) as [Hpos|Hle]; [discriminate|].
    assert (count = 0) as -> by lia. injection Hrun as <- <- <-.
    rewrite !Z.sub_0_r. split; [reflexivity|]. split; [|reflexivity].
    rewrite Z.div_small; [change (2 ^ 0) with 1; lia|].
    apply Z.mod_pos_bound, pow2_pos. destruct Hok as (_ & _ & ? & _). lia.
  - cbn [getBits_loop] in Hrun.
    destruct (Z.ltb_spec 0 count) as [Hpos|Hle].
    2:{ assert (count = 0) as -> by lia. injection Hrun as <- <- <-.
        rewrite !Z.sub_0_r. split; [reflexivity|]. split; [|reflexivity].
        rewrite Z.div_small; [change (2 ^ 0) with 1; lia|].
        apply Z.mod_pos_bound, pow2_pos. destruct Hok as (_ & _ & ? & _). lia. }
    destruct (limb_position ps) as (Hquot & Hq & Hr);
      [destruct Hok as (_ & _ & ? & _); lia|].
    rewrite Hquot in Hrun.
    destruct (pool_ok_limb pl ps Hok) as (limb & Hl & Hlimb); [lia|].
    set (q := (ps - 1) / 32) in *.
    destruct (Z.ltb_spec q 0) as [?|_]; [lia|].
    rewrite Hl in Hrun.
    assert (Hdef : shl32_defined res count = true).
    { unfold shl32_defined. destruct Hz as [->|[_ Hc32]].
      - rewrite Z.eqb_refl. apply Bool.orb_true_r.
      - destruct (Z.ltb_spec count 32); [reflexivity | lia]. }
    rewrite Hdef in Hrun. cbn [negb] in Hrun.
    destruct Hok as (Hlen & Hall & Hpsb & Hcur).
    assert (Hqn : 32 * Z.of_nat (Z.to_nat q) = q * 32) by lia.
    assert (Hp : 0 < 2 ^ (q * 32)) by (apply pow2_pos; lia).
    destruct (limbs_value_low pl (Z.to_nat q) limb (ps - q * 32) Hl Hall)
      as (Hcur_v & HL & _); [lia|].
    rewrite Hqn in Hcur_v, HL.
    replace (q * 32 + (ps - q * 32)) with ps in Hcur_v by lia.
    rewrite (Z.mod_small limb) in Hcur_v by exact Hlimb.
    set (L := limbs_value pl mod 2 ^ (q * 32)) in *.
    destruct (Z.leb_spec (ps - q * 32) count) as [Hwhole|Hpart].
    + (* the rest of the limb is taken whole *)
      assert (res = 0) as -> by (destruct Hz as [?|[Hm ?]]; [assumption|zdiv]).
      assert (shl32 0 count = 0) as Hz0
        by (unfold shl32, u32; rewrite Z.shiftl_0_l; reflexivity).
      rewrite Hz0, Z.lor_0_l in Hrun.
      apply IH in Hrun; try lia.
      * destruct Hrun as (-> & -> & Hrest).
        replace (ps - (ps - q * 32)) with (q * 32) in * by lia.
        replace (q * 32 - (count - (ps - q * 32))) with (ps - count) in * by lia.
        split; [reflexivity|]. split; [|exact Hrest].
        fold L. rewrite Hcur_v. rewrite Z.mul_0_l, Z.add_0_l.
        assert (Hd : 0 < 2 ^ (ps - count)) by (apply pow2_pos; lia).
        replace (2 ^ (q * 32))
          with (2 ^ (count - (ps - q * 32)) * 2 ^ (ps - count)).
        2:{ rewrite <- Z.pow_add_r by lia. f_equal. lia. }
        replace (L + 2 ^ (count - (ps - q * 32)) * 2 ^ (ps - count) * limb)
          with (L + limb * 2 ^ (count - (ps - q * 32)) * 2 ^ (ps - count))
          by ring.
        rewrite Z.div_add by lia. ring.
      * replace (ps - (ps - q * 32)) with (q * 32) by lia.
        apply pool_ok_whole_limbs; [assumption..|lia].
      * split; [lia|].
        eapply Z.lt_le_trans; [apply Hlimb|]. apply pow2_le; lia.
      * right. split; [zdiv | lia].
    + (* the high [count] bits of the rest of the limb *)
      destruct (shl32_small res count n) as (Hshl & Hsh); [lia..|assumption|].
      rewrite Hshl in Hrun.
      pose proof (shiftr_bound limb (ps - q * 32) count ltac:(lia) Hlimb) as Hhi.
      rewrite land_low_mask in Hrun by lia.
      assert (Hend : forall r p s,
                getBits_loop fuel r 0 p s = Some (r, p, s))
        by (intros; destruct fuel; reflexivity).
      rewrite Hend in Hrun. injection Hrun as <- <- <-.
      split; [reflexivity|].
      assert (Hd : 0 < 2 ^ (ps - q * 32 - count)) by (apply pow2_pos; lia).
      split.
      * rewrite lor_shifted by lia.
        rewrite Z.shiftr_div_pow2 by lia. f_equal.
        rewrite Hcur_v.
        replace (ps - count) with (q * 32 + (ps - q * 32 - count)) by lia.
        rewrite Z.pow_add_r by lia.
        rewrite <- Z.div_div by lia.
        rewrite (Z.add_comm L), (Z.mul_comm (2 ^ (q * 32))).
        rewrite Z.div_add_l by lia. rewrite (Z.div_small L) by lia.
        rewrite Z.add_0_r. reflexivity.
      * destruct (limbs_value_low pl (Z.to_nat q) limb (ps - q * 32 - count)
                    Hl Hall) as (Hnew & _ & Hins); [lia|].
        rewrite Hqn in Hnew, Hins.
        replace (ps - count) with (q * 32 + (ps - q * 32 - count)) by lia.
        rewrite Hins, Hnew. rewrite Z.mod_mod by lia. reflexivity.
Qed.

Lemma getBits_plain (RAND_bytes : nat -> option (list Z)) (n : Z)
    (st : Randomizer) :
  pool_inv st -> 1 <= n <= 32 -> n <= poolSize st ->
  exists st',
    getBits RAND_bytes n st
      = Some (Some (unread st / 2 ^ (poolSize st - n)), st') /\
    pool_inv st' /\ poolSize st' = poolSize st - n /\
    unread st' = unread st mod 2 ^ (poolSize st - n) /\
    refills st' = refills st.
Proof.
  intros Hinv Hn Hps. unfold getBits.
  destruct (Z.ltb_spec (poolSize st) n) as [?|_]; [lia|].
  assert (Hps' : 0 <= poolSize st <= 256) by (destruct Hinv as (_ & _ & ? & _); lia).
  destruct (getBits_loop_ok RAND_bytes n (Z.to_nat n) 0 n (pool st) (poolSize st))
    as (res' & pl' & ps' & Hrun & Hok' & _); try lia; [exact Hinv|].
  rewrite Hrun.
  apply (getBits_loop_exact n) in Hrun; try lia; [|exact Hinv].
  destruct Hrun as (-> & -> & Hrest).
  eexists. split; [reflexivity|]. split; [exact Hok'|].
  split; [reflexivity|]. split; [|reflexivity].
  unfold unread. cbn [pool poolSize]. rewrite Hrest.
  rewrite mod_pow2_mod by lia. reflexivity.
Qed.

Lemma getBits_refilled (RAND_bytes : nat -> option (list Z)) (n : Z)
    (st : Randomizer) (fresh : list Z) :
  csprng_ok RAND_bytes -> pool_inv st -> 1 <= n <= 32 -> poolSize st < n ->
  RAND_bytes (refills st) = Some fresh ->
  exists st',
    getBits RAND_bytes n st
      = Some (Some (unread st * 2 ^ (n - poolSize st)
                    + limbs_value fresh / 2 ^ (256 - (n - poolSize st))),
              st') /\
    pool_inv st' /\ poolSize st' = 256 - (n - poolSize st) /\
    unread st' = limbs_value fresh mod 2 ^ (256 - (n - poolSize st)) /\
    refills st' = S (refills st).
Proof.
  intros Hrand Hinv Hn Hps Hfresh. unfold getBits.
  destruct (Z.ltb_spec (poolSize st) n) as [_|?]; [|lia].
  destruct Hinv as (Hlen & Hall & Hpsb & Hcur).
  destruct (lookup_lt_is_Some_2 (pool st) 0) as [limb0 Hl0]; [lia|].
  rewrite Hl0, Hfresh.
  destruct (Hrand _ _ Hfresh) as (Hflen & Hfall).
  rewrite land_low_mask by lia.
  assert (Hres : 0 <= limb0 mod 2 ^ poolSize st < 2 ^ poolSize st)
    by (apply Z.mod_pos_bound, pow2_pos; lia).
  assert (Hfok : pool_ok fresh 256)
    by (apply (pool_ok_whole_limbs fresh 8); [assumption..|lia]).
  assert (Hres' : 0 <= limb0 mod 2 ^ poolSize st < 2 ^ (n - (n - poolSize st)))
    by (replace (n - (n - poolSize st)) with (poolSize st) by lia; exact Hres).
  assert (Hz : limb0 mod 2 ^ poolSize st = 0 \/ (256 mod 32 = 0 /\ n - poolSize st < 32)).
  { destruct (Z.eq_dec (poolSize st) 0) as [H0|H0].
    - left. rewrite H0, Z.pow_0_r. apply Z.mod_1_r.
    - right. split; [reflexivity|lia]. }
  destruct (getBits_loop_ok RAND_bytes n (Z.to_nat (n - poolSize st))
              (limb0 mod 2 ^ poolSize st) (n - poolSize st) fresh 256)
    as (res' & pl' & ps' & Hrun & Hok' & _); try lia; try assumption.
  rewrite Hrun.
  apply (getBits_loop_exact n) in Hrun; try lia; try assumption.
  destruct Hrun as (-> & -> & Hrest).
  assert (Hun : unread st = limb0 mod 2 ^ poolSize st).
  { unfold unread.
    destruct (limbs_value_low (pool st) 0 limb0 (poolSize st) Hl0 Hall)
      as (Hv & _ & _); [lia|].
    change (32 * Z.of_nat 0) with 0 in Hv. rewrite Z.add_0_l in Hv.
    rewrite Hv. change (2 ^ 0) with 1. rewrite Z.mod_1_r. lia. }
  pose proof (limbs_value_bound fresh Hfall) as Hfb.
  rewrite Hflen in Hfb. change (32 * Z.of_nat 8) with 256 in Hfb.
  rewrite (Z.mod_small (limbs_value fresh) (2 ^ 256)) in * by exact Hfb.
  eexists. split; [rewrite Hun; reflexivity|]. split; [exact Hok'|].
  split; [reflexivity|]. split; [|reflexivity].
  unfold unread. cbn [pool poolSize]. exact Hrest.
Qed.

Lemma pool_AB_inv : pool_inv pool_AB.
Proof.
  apply (pool_ok_whole_limbs limbs_AB 8);
    [reflexivity | exact is_u32_limbs_AB | lia].
Qed.

(** X1.  With enough unread bits in the pool, [getBits] does not call
    the CSPRNG: it hands out the [n] highest unread bits and leaves the
    others unread, in their order; the bits handed out followed by the
    bits left are the bits that were unread. *)
Theorem getBits_takes_high_bits (RAND_bytes : nat -> option (list Z)) (n : Z)
    (st : Randomizer) :
  pool_inv st -> 1 <= n <= 32 -> n <= poolSize st ->
  exists t st',
    getBits RAND_bytes n st = Some (Some t, st') /\
    pool_inv st' /\ refills st' = refills st /\
    poolSize st' = poolSize st - n /\
    t = unread st / 2 ^ poolSize st' /\
    unread st' = unread st mod 2 ^ poolSize st' /\
    unread st = t * 2 ^ poolSize st' + unread st'.
Proof.
  intros Hinv Hn Hps.
  destruct (getBits_plain RAND_bytes n st Hinv Hn Hps)
    as (st' & Hrun & Hinv' & Hps' & Hun & Href).
  exists (unread st / 2 ^ (poolSize st - n)), st'.
  rewrite Hps', Hun.
  split; [exact Hrun|]. split; [exact Hinv'|]. split; [exact Href|].
  split; [reflexivity|]. split; [reflexivity|]. split; [reflexivity|].
  rewrite Z.mul_comm. apply Z.div_mod.
  pose proof (pow2_pos (poolSize st - n)). lia.
Qed.

Lemma getBits_takes_high_bits_witness :
  pool_inv pool_AB /\ 1 <= 8 <= 32 /\ 8 <= poolSize pool_AB /\
  exists t st',
    getBits csprng_refusing 8 pool_AB = Some (Some t, st') /\
    pool_inv st' /\ refills st' = refills pool_AB /\
    poolSize st' = poolSize pool_AB - 8 /\
    t = unread pool_AB / 2 ^ poolSize st' /\
    unread st' = unread pool_AB mod 2 ^ poolSize st' /\
    unread pool_AB = t * 2 ^ poolSize st' + unread st'.
Proof.
  assert (H2 : 1 <= 8 <= 32) by lia.
  assert (H3 : 8 <= poolSize pool_AB) by (cbn; lia).
  split; [exact pool_AB_inv|]. split; [exact H2|]. split; [exact H3|].
  exact (getBits_takes_high_bits csprng_refusing 8 pool_AB pool_AB_inv H2 H3).
Defined.

(** X2.  With fewer unread bits than asked for, and a refill that is
    granted, [getBits] keeps the unread bits as the high bits of its
    value and completes them, below, with the highest bits of the fresh
    pool; the fresh bits not handed out stay unread.  The bits handed
    out followed by the bits left are the bits that were unread followed
    by the 256 fresh ones: the refill wastes no bit. *)
Theorem getBits_refill_keeps_leftover (RAND_bytes : nat -> option (list Z))
    (n : Z) (st : Randomizer) (fresh : list Z) :
  csprng_ok RAND_bytes -> pool_inv st -> 1 <= n <= 32 -> poolSize st < n ->
  RAND_bytes (refills st) = Some fresh ->
  exists t st',
    getBits RAND_bytes n st = Some (Some t, st') /\
    pool_inv st' /\ refills st' = S (refills st) /\
    poolSize st' = 256 - (n - poolSize st) /\
    t = unread st * 2 ^ (n - poolSize st)
        + limbs_value fresh / 2 ^ poolSize st' /\
    unread st' = limbs_value fresh mod 2 ^ poolSize st' /\
    unread st * 2 ^ 256 + limbs_value fresh
      = t * 2 ^ poolSize st' + unread st'.
Proof.
  intros Hrand Hinv Hn Hps Hfresh.
  destruct (getBits_refilled RAND_bytes n st fresh Hrand Hinv Hn Hps Hfresh)
    as (st' & Hrun & Hinv' & Hps' & Hun & Href).
  assert (H0 : 0 <= poolSize st) by (destruct Hinv as (_ & _ & ? & _); lia).
  eexists _, st'. rewrite Hps', Hun.
  split; [exact Hrun|]. split; [exact Hinv'|]. split; [exact Href|].
  split; [reflexivity|]. split; [reflexivity|]. split; [reflexivity|].
  set (k := 256 - (n - poolSize st)).
  assert (Hk : 0 < 2 ^ k) by (apply pow2_pos; lia).
  replace (2 ^ 256) with (2 ^ (n - poolSize st) * 2 ^ k)
    by (rewrite <- Z.pow_add_r by lia; f_equal; lia).
  pose proof (Z.div_mod (limbs_value fresh) (2 ^ k) ltac:(lia)) as Hdm.
  rewrite Hdm at 1. ring.
Qed.

Lemma getBits_refill_keeps_leftover_witness :
  csprng_ok (csprng_once limbs_AB) /\
  pool_inv (mkRandomizer stale_limbs 3 0) /\ 1 <= 8 <= 32 /\
  poolSize (mkRandomizer stale_limbs 3 0) < 8 /\
  csprng_once limbs_AB (refills (mkRandomizer stale_limbs 3 0))
    = Some limbs_AB /\
  exists t st',
    getBits (csprng_once limbs_AB) 8 (mkRandomizer stale_limbs 3 0)
      = Some (Some t, st') /\
    pool_inv st' /\
    refills st' = S (refills (mkRandomizer stale_limbs 3 0)) /\
    poolSize st' = 256 - (8 - poolSize (mkRandomizer stale_limbs 3 0)) /\
    t = unread (mkRandomizer stale_limbs 3 0)
          * 2 ^ (8 - poolSize (mkRandomizer stale_limbs 3 0))
        + limbs_value limbs_AB / 2 ^ poolSize st' /\
    unread st' = limbs_value limbs_AB mod 2 ^ poolSize st' /\
    unread (mkRandomizer stale_limbs 3 0) * 2 ^ 256 + limbs_value limbs_AB
      = t * 2 ^ poolSize st' + unread st'.
Proof.
  assert (H1 : csprng_ok (csprng_once limbs_AB))
    by (apply csprng_once_ok; [reflexivity | exact is_u32_limbs_AB]).
  assert (H2 : pool_inv (mkRandomizer stale_limbs 3 0)).
  { split; [reflexivity|]. split; [exact is_u32_stale_limbs|].
    split; [cbn; lia|].
    intros limb _ Hl. vm_compute in Hl. injection Hl as <-.
    vm_compute. reflexivity. }
  assert (H3 : 1 <= 8 <= 32) by lia.
  assert (H4 : poolSize (mkRandomizer stale_limbs 3 0) < 8) by (cbn; lia).
  split; [exact H1|]. split; [exact H2|]. split; [exact H3|].
  split; [exact H4|]. split; [reflexivity|].
  exact (getBits_refill_keeps_leftover (csprng_once limbs_AB) 8
           (mkRandomizer stale_limbs 3 0) limbs_AB H1 H2 H3 H4 eq_refl).
Defined.

(** X3.  The pool is a stream: drawing [a] bits and then [b] bits gives
    the two parts of the value that one draw of [a + b] bits gives, and
    leaves the same bits unread. *)
Theorem getBits_draws_compose (RAND_bytes : nat -> option (list Z))
    (a b : Z) (st : Randomizer) :
  pool_inv st -> 1 <= a -> 1 <= b -> a + b <= 32 -> a + b <= poolSize st ->
  exists t st12 st1 st2,
    getBits RAND_bytes (a + b) st = Some (Some t, st12) /\
    getBits RAND_bytes a st = Some (Some (t / 2 ^ b), st1) /\
    getBits RAND_bytes b st1 = Some (Some (t mod 2 ^ b), st2) /\
    poolSize st2 = poolSize st12 /\ unread st2 = unread st12.
Proof.
  intros Hinv Ha Hb Hab Hps.
  destruct (getBits_plain RAND_bytes (a + b) st Hinv) as
    (st12 & Hrun12 & _ & Hps12 & Hun12 & _); [lia..|].
  destruct (getBits_plain RAND_bytes a st Hinv) as
    (st1 & Hrun1 & Hinv1 & Hps1 & Hun1 & _); [lia..|].
  destruct (getBits_plain RAND_bytes b st1 Hinv1) as
    (st2 & Hrun2 & _ & Hps2 & Hun2 & _); [lia..|].
  exists (unread st / 2 ^ (poolSize st - (a + b))), st12, st1, st2.
  assert (Hpb : 0 < 2 ^ b) by (apply pow2_pos; lia).
  assert (Hpc : 0 < 2 ^ (poolSize st - (a + b))) by (apply pow2_pos; lia).
  split; [exact Hrun12|]. split; [|split; [|split]].
  - rewrite Hrun1. do 3 f_equal.
    rewrite Z.div_div by lia. rewrite <- Z.pow_add_r by lia.
    do 2 f_equal. lia.
  - rewrite Hrun2. do 3 f_equal.
    rewrite Hun1, Hps1.
    replace (poolSize st - a - b) with (poolSize st - (a + b)) by lia.
    replace (poolSize st - a) with (poolSize st - (a + b) + b) by lia.
    apply div_pow2_mod; lia.
  - lia.
  - rewrite Hun2, Hun1, Hun12, Hps1.
    replace (poolSize st - a - b) with (poolSize st - (a + b)) by lia.
    apply mod_pow2_mod. lia.
Qed.

Lemma getBits_draws_compose_witness :
  pool_inv pool_AB /\ 1 <= 4 /\ 1 <= 6 /\ 4 + 6 <= 32 /\
  4 + 6 <= poolSize pool_AB /\
  exists t st12 st1 st2,
    getBits csprng_refusing (4 + 6) pool_AB = Some (Some t, st12) /\
    getBits csprng_refusing 4 pool_AB = Some (Some (t / 2 ^ 6), st1) /\
    getBits csprng_refusing 6 st1 = Some (Some (t mod 2 ^ 6), st2) /\
    poolSize st2 = poolSize st12 /\ unread st2 = unread st12.
Proof.
  assert (H2 : 1 <= 4) by lia.
  assert (H3 : 1 <= 6) by lia.
  assert (H4 : 4 + 6 <= 32) by lia.
  assert (H5 : 4 + 6 <= poolSize pool_AB) by (cbn; lia).
  split; [exact pool_AB_inv|]. split; [exact H2|]. split; [exact H3|].
  split; [exact H4|]. split; [exact H5|].
  exact (getBits_draws_compose csprng_refusing 4 6 pool_AB pool_AB_inv
           H2 H3 H4 H5).
Defined.

(** ** The literal tables *)

Lemma walk_total (table : list LitInfo) :
  forall t,
    Forall (fun i => 0 <= weight i) table ->
    0 <= t < total_weight table -> t < 2 ^ 32 ->
    exists i, getLiteral_walk table t = Some i /\ In i table.
Proof.
  induction table as [|i table IH]; intros t Hall Ht H32.
  - cbn in Ht. lia.
  - apply Forall_cons_1 in Hall. destruct Hall as [Hi Hall].
    cbn [total_weight fold_right] in Ht. fold (total_weight table) in Ht.
    cbn [getLiteral_walk].
    destruct (Z.ltb_spec t (weight i)) as [Hlt|Hge].
    + exists i. split; [reflexivity | left; reflexivity].
    + unfold u32. rewrite Z.mod_small by lia.
      destruct (IH (t - weight i) Hall) as (j & Hj & Hin); [lia..|].
      exists j. split; [exact Hj | right; exact Hin].
Qed.

Lemma walk_interval (pre : list LitInfo) (i : LitInfo) (post : list LitInfo) :
  forall t,
    Forall (fun i => 0 <= weight i) pre ->
    total_weight pre <= t < total_weight pre + weight i -> t < 2 ^ 32 ->
    getLiteral_walk (pre ++ i :: post) t = Some i.
Proof.
  induction pre as [|p pre IH]; intros t Hall Ht H32.
  - cbn in Ht. cbn [app getLiteral_walk].
    destruct (Z.ltb_spec t (weight i)); [reflexivity | lia].
  - apply Forall_cons_1 in Hall. destruct Hall as [Hp Hall].
    cbn [total_weight fold_right] in Ht. fold (total_weight pre) in Ht.
    assert (Hnn : 0 <= total_weight pre).
    { clear -Hall. induction Hall as [|x l Hx _ IHl]; [cbn; lia|].
      cbn [total_weight fold_right]. fold (total_weight l). lia. }
    rewrite <- app_comm_cons. cbn [getLiteral_walk].
    destruct (Z.ltb_spec t (weight p)) as [Hlt|Hge]; [lia|].
    unfold u32. rewrite Z.mod_small by lia.
    apply IH; [exact Hall | lia | lia].
Qed.

(** Each table of [makeName] has non-negative weights whose sum is
    [2 ^ 24], the number of values of a 24-bit draw. *)
Lemma literal_tables_weights (table : list LitInfo) :
  In table literal_tables ->
  Forall (fun i => 0 <= weight i) table /\ total_weight table = 2 ^ 24.
Proof.
  intros [<-|[<-|[<-|[]]]]; (split; [|vm_compute; reflexivity]);
    repeat constructor; vm_compute; discriminate.
Qed.

Lemma literal_tables_lowercase (table : list LitInfo) (i : LitInfo) :
  In table literal_tables -> In i table -> Forall is_lowercase (value i).
Proof.
  intros Ht Hi.
  assert (Hall : Forall (fun i => Forall is_lowercase (value i)) table).
  { destruct Ht as [<-|[<-|[<-|[]]]];
      repeat constructor; vm_compute; discriminate. }
  rewrite List.Forall_forall in Hall. apply Hall, Hi.
Qed.

(** ** Runs that return *)

Lemma returns_ret {A} (a : A) (Q : A -> Prop) : Q a -> returns (ret a) Q.
Proof. intros Ha st Hinv. exists a, st. auto. Qed.

Lemma returns_bind {A B} (m : Run A) (k : A -> Run B)
    (P : A -> Prop) (Q : B -> Prop) :
  returns m P -> (forall a, P a -> returns (k a) Q) -> returns (bind m k) Q.
Proof.
  intros Hm Hk st Hinv. unfold bind.
  destruct (Hm st Hinv) as (a & st1 & -> & Hinv1 & Ha).
  exact (Hk a Ha st1 Hinv1).
Qed.

Lemma returns_weaken {A} (m : Run A) (P Q : A -> Prop) :
  returns m P -> (forall a, P a -> Q a) -> returns m Q.
Proof.
  intros Hm HPQ st Hinv.
  destruct (Hm st Hinv) as (a & st1 & Hrun & Hinv1 & Ha).
  exists a, st1. auto.
Qed.

Lemma returns_index {A} (arr : list A) (i : Z) :
  0 <= i < Z.of_nat (length arr) ->
  returns (index arr i) (fun a => arr !! Z.to_nat i = Some a).
Proof.
  intros Hi st Hinv. unfold index.
  destruct (Z.ltb_spec i 0) as [?|_]; [lia|].
  destruct (lookup_lt_is_Some_2 arr (Z.to_nat i)) as [a Ha]; [lia|].
  rewrite Ha. exists a, st. auto.
Qed.

Section Returning.

Variable RAND_bytes : nat -> option (list Z).
Hypothesis RAND_bytes_ok : csprng_ok RAND_bytes.

Lemma returns_getBits (n : Z) :
  1 <= n <= 32 ->
  returns (getBits RAND_bytes n) (fun r => forall t, r = Some t -> 0 <= t < 2 ^ n).
Proof.
  intros Hn st Hinv.
  destruct (getBits_ok RAND_bytes RAND_bytes_ok n st Hinv Hn)
    as (r & st' & Hrun & Hinv' & Hval & _).
  exists r, st'. auto.
Qed.

Lemma returns_getLiteral (table : list LitInfo) :
  In table literal_tables ->
  returns (getLiteral RAND_bytes table)
          (fun r => forall i, r = Some i -> In i table).
Proof.
  intros Htable. unfold getLiteral.
  eapply returns_bind; [apply (returns_getBits 24); lia|].
  intros [t|] Ht; apply returns_ret; [|discriminate].
  specialize (Ht t eq_refl).
  destruct (literal_tables_weights table Htable) as [Hall Hsum].
  destruct (walk_total table t Hall) as (j & Hj & Hin); [lia|lia|].
  intros i Hi. congruence.
Qed.

Lemma returns_makeNumber (modulo : Z) :
  0 < modulo -> returns (makeNumber RAND_bytes modulo) (fun t => 0 <= t <= modulo).
Proof.
  intros Hm st Hinv.
  destruct (makeNumber_ok RAND_bytes RAND_bytes_ok modulo st Hinv Hm)
    as (t & st' & H). exists t, st'. exact H.
Qed.

End Returning.

Lemma is_u32_limbs_name : Forall is_u32 limbs_name.
Proof. repeat constructor; unfold is_u32; lia. Qed.

(** X4.  On each of the three tables of [makeName], [getLiteral] returns
    a literal of the table whenever its 24-bit draw succeeds: the
    weights of the table add up to [2 ^ 24], so the walk never runs off
    its end, and the NULL result stands for a refused refill only. *)
Theorem getLiteral_null_only_on_refusal (RAND_bytes : nat -> option (list Z))
    (table : list LitInfo) (st : Randomizer) :
  csprng_ok RAND_bytes -> pool_inv st -> In table literal_tables ->
  total_weight table = 2 ^ 24 /\
  exists r st',
    getLiteral RAND_bytes table st = Some (r, st') /\ pool_inv st' /\
    (r = None <-> poolSize st < 24 /\ RAND_bytes (refills st) = None) /\
    (forall i, r = Some i -> In i table).
Proof.
  intros Hrand Hinv Htable.
  destruct (literal_tables_weights table Htable) as [Hall Hsum].
  split; [exact Hsum|].
  unfold getLiteral, bind.
  destruct (getBits_ok RAND_bytes Hrand 24 st Hinv)
    as (r & st' & -> & Hinv' & Hval & Hfail & _); [lia|].
  destruct r as [t|].
  - specialize (Hval t eq_refl).
    destruct (walk_total table t Hall) as (j & Hj & Hin); [lia|lia|].
    unfold ret. rewrite Hj. eexists _, _. split; [reflexivity|].
    split; [exact Hinv'|]. split.
    + split; [discriminate|]. intros H. apply Hfail in H. discriminate H.
    + intros i [= <-]. exact Hin.
  - unfold ret. eexists _, _. split; [reflexivity|].
    split; [exact Hinv'|]. split.
    + split; [intros _; apply Hfail; reflexivity | reflexivity].
    + discriminate.
Qed.

Lemma getLiteral_null_only_on_refusal_witness :
  csprng_ok (csprng_once limbs_name) /\
  pool_inv (Randomizer_new stale_limbs) /\
  In consonantSet literal_tables /\
  total_weight consonantSet = 2 ^ 24 /\
  exists r st',
    getLiteral (csprng_once limbs_name) consonantSet
               (Randomizer_new stale_limbs) = Some (r, st') /\
    pool_inv st' /\
    (r = None <-> poolSize (Randomizer_new stale_limbs) < 24 /\
                  csprng_once limbs_name
                    (refills (Randomizer_new stale_limbs)) = None) /\
    (forall i, r = Some i -> In i consonantSet).
Proof.
  assert (H1 : csprng_ok (csprng_once limbs_name))
    by (apply csprng_once_ok; [reflexivity | exact is_u32_limbs_name]).
  assert (H2 : pool_inv (Randomizer_new stale_limbs))
    by (apply Randomizer_new_inv; [reflexivity | exact is_u32_stale_limbs]).
  assert (H3 : In consonantSet literal_tables) by (right; left; reflexivity).
  split; [exact H1|]. split; [exact H2|]. split; [exact H3|].
  exact (getLiteral_null_only_on_refusal (csprng_once limbs_name) consonantSet
           (Randomizer_new stale_limbs) H1 H2 H3).
Defined.

(** ** The generators *)

(** X5.  [getLiteral] picks by weight: with the 24-bit value [t] drawn,
    the literal returned is the one whose interval of cumulated weights
    holds [t]; a literal of weight [w] is thus the answer to [w] of the
    [2 ^ 24] values. *)
Theorem getLiteral_picks_by_weight (RAND_bytes : nat -> option (list Z))
    (pre : list LitInfo) (i : LitInfo) (post : list LitInfo)
    (st st' : Randomizer) (t : Z) :
  csprng_ok RAND_bytes -> pool_inv st ->
  In (pre ++ i :: post) literal_tables ->
  getBits RAND_bytes 24 st = Some (Some t, st') ->
  total_weight pre <= t < total_weight pre + weight i ->
  getLiteral RAND_bytes (pre ++ i :: post) st = Some (Some i, st').
Proof.
  intros Hrand Hinv Htable Hdraw Ht.
  destruct (literal_tables_weights _ Htable) as [Hall _].
  apply Forall_app in Hall. destruct Hall as [Hpre _].
  destruct (getBits_ok RAND_bytes Hrand 24 st Hinv)
    as (r & st1 & Hrun & _ & Hval & _); [lia|].
  rewrite Hdraw in Hrun. injection Hrun as <- <-.
  specialize (Hval t eq_refl).
  unfold getLiteral, bind. rewrite Hdraw. unfold ret.
  rewrite walk_interval; [reflexivity | exact Hpre | exact Ht | lia].
Qed.

Lemma getLiteral_picks_by_weight_witness :
  csprng_ok (csprng_once limbs_AB) /\
  pool_inv (Randomizer_new stale_limbs) /\
  In ([lit "e" 1 5040273; lit "a" 0 3406646] ++ lit "o" 1 3221018
        :: [lit "i" 0 3063451; lit "u" 0 1159547; lit "y" 0 886281]) literal_tables /\
  getBits (csprng_once limbs_AB) 24 (Randomizer_new stale_limbs)
    = Some (Some 0xAB0000, mkRandomizer [0; 0; 0; 0; 0; 0; 0; 0] 232 1) /\
  total_weight [lit "e" 1 5040273; lit "a" 0 3406646] <= 0xAB0000
    < total_weight [lit "e" 1 5040273; lit "a" 0 3406646]
      + weight (lit "o" 1 3221018) /\
  getLiteral (csprng_once limbs_AB)
    ([lit "e" 1 5040273; lit "a" 0 3406646] ++ lit "o" 1 3221018
       :: [lit "i" 0 3063451; lit "u" 0 1159547; lit "y" 0 886281])
    (Randomizer_new stale_limbs)
  = Some (Some (lit "o" 1 3221018), mkRandomizer [0; 0; 0; 0; 0; 0; 0; 0] 232 1).
Proof.
  assert (H1 : csprng_ok (csprng_once limbs_AB))
    by (apply csprng_once_ok; [reflexivity | exact is_u32_limbs_AB]).
  assert (H2 : pool_inv (Randomizer_new stale_limbs))
    by (apply Randomizer_new_inv; [reflexivity | exact is_u32_stale_limbs]).
  assert (H3 : In ([lit "e" 1 5040273; lit "a" 0 3406646] ++ lit "o" 1 3221018
                     :: [lit "i" 0 3063451; lit "u" 0 1159547;
                         lit "y" 0 886281])
                  literal_tables) by (left; reflexivity).
  assert (H4 : getBits (csprng_once limbs_AB) 24 (Randomizer_new stale_limbs)
               = Some (Some 0xAB0000, mkRandomizer [0; 0; 0; 0; 0; 0; 0; 0] 232 1))
    by (vm_compute; reflexivity).
  assert (H5 : total_weight [lit "e" 1 5040273; lit "a" 0 3406646]
               <= 0xAB0000
               < total_weight [lit "e" 1 5040273; lit "a" 0 3406646]
                 + weight (lit "o" 1 3221018))
    by (cbn; lia).
  split; [exact H1|]. split; [exact H2|]. split; [exact H3|].
  split; [exact H4|]. split; [exact H5|].
  exact (getLiteral_picks_by_weight (csprng_once limbs_AB)
           [lit "e" 1 5040273; lit "a" 0 3406646] (lit "o" 1 3221018)
           [lit "i" 0 3063451; lit "u" 0 1159547; lit "y" 0 886281]
           (Randomizer_new stale_limbs) (mkRandomizer [0; 0; 0; 0; 0; 0; 0; 0] 232 1)
           0xAB0000 H1 H2 H3 H4 H5).
Defined.

Lemma makeNumber_spec (RAND_bytes : nat -> option (list Z))
    (modulo : Z) (st : Randomizer) :
  csprng_ok RAND_bytes -> pool_inv st -> 0 < modulo < 2 ^ 32 ->
  exists t st',
    makeNumber RAND_bytes modulo st = Some (t, st') /\ pool_inv st' /\
    0 <= t <= modulo /\
    (t = modulo <-> refill_failed RAND_bytes st st').
Proof.
  intros Hrand Hinv Hm. unfold makeNumber, bind.
  destruct (getBits_step RAND_bytes Hrand 32 st Hinv) as
    [(lo & st1 & -> & Hinv1 & Hlo & Hle1 & Hiff1)
    |(st1 & -> & Hinv1 & Href1 & Hnone1)]; [lia| |].
  - destruct (getBits_step RAND_bytes Hrand 32 st1 Hinv1) as
      [(hi & st2 & -> & Hinv2 & Hhi & Hle2 & Hiff2)
      |(st2 & -> & Hinv2 & Href2 & Hnone2)]; [lia| |].
    + destruct (Z.eqb_spec modulo 0) as [?|_]; [lia|].
      assert (Hr : 0 <= (lo + hi * 2 ^ 32) mod modulo < modulo)
        by (apply Z.mod_pos_bound; lia).
      unfold u32, ret. rewrite (Z.mod_small _ (2 ^ 32)) by lia.
      eexists _, _. split; [reflexivity|]. split; [exact Hinv2|].
      split; [lia|].
      split; [lia|]. intros Hf. apply Hiff1, Hiff2 in Hf.
      destruct (refill_failed_refl RAND_bytes st2 Hf).
    + unfold ret. eexists _, _. split; [reflexivity|]. split; [exact Hinv2|].
      split; [lia|].
      split; [|reflexivity]. intros _. apply Hiff1.
      exists (refills st1). split; [lia | exact Hnone2].
  - unfold ret. eexists _, _. split; [reflexivity|]. split; [exact Hinv1|].
    split; [lia|].
    split; [|reflexivity]. intros _.
    exists (refills st). split; [lia | exact Hnone1].
Qed.

(** X6.  [makeNumber( modulo )] returns the 64-bit value of its two
    32-bit draws (the first is the low half) reduced modulo [modulo],
    which is below [modulo]; it returns [modulo] itself exactly when a
    refill is refused during the call. *)
Theorem makeNumber_sentinel_iff_refused (RAND_bytes : nat -> option (list Z))
    (modulo : Z) (st : Randomizer) :
  csprng_ok RAND_bytes -> pool_inv st -> 0 < modulo < 2 ^ 32 ->
  exists t st',
    makeNumber RAND_bytes modulo st = Some (t, st') /\ pool_inv st' /\
    0 <= t <= modulo /\
    (t = modulo <-> refill_failed RAND_bytes st st') /\
    forall lo hi, drawn_values RAND_bytes 32 2 st = [lo; hi] ->
                  t = (lo + hi * 2 ^ 32) mod modulo.
Proof.
  intros Hrand Hinv Hm.
  destruct (makeNumber_spec RAND_bytes modulo st Hrand Hinv Hm)
    as (t & st' & Hrun & Hinv' & Ht & Hiff).
  exists t, st'. split; [exact Hrun|]. split; [exact Hinv'|].
  split; [exact Ht|]. split; [exact Hiff|].
  intros lo hi Hdrawn. cbn [drawn_values] in Hdrawn.
  unfold makeNumber, bind in Hrun.
  destruct (getBits RAND_bytes 32 st) as [[[lo'|] st1]|]; try discriminate.
  destruct (getBits RAND_bytes 32 st1) as [[[hi'|] st2]|]; try discriminate.
  injection Hdrawn as -> ->.
  destruct (Z.eqb_spec modulo 0) as [?|_]; [lia|].
  unfold ret, u32 in Hrun. injection Hrun as <- _.
  apply Z.mod_small.
  pose proof (Z.mod_pos_bound (lo + hi * 2 ^ 32) modulo ltac:(lia)). lia.
Qed.

Lemma makeNumber_sentinel_iff_refused_witness :
  csprng_ok (csprng_once limbs_AB) /\
  pool_inv (Randomizer_new stale_limbs) /\ 0 < 10000 < 2 ^ 32 /\
  exists t st',
    makeNumber (csprng_once limbs_AB) 10000 (Randomizer_new stale_limbs)
      = Some (t, st') /\ pool_inv st' /\
    0 <= t <= 10000 /\
    (t = 10000 <-> refill_failed (csprng_once limbs_AB)
                     (Randomizer_new stale_limbs) st') /\
    forall lo hi,
      drawn_values (csprng_once limbs_AB) 32 2 (Randomizer_new stale_limbs)
        = [lo; hi] ->
      t = (lo + hi * 2 ^ 32) mod 10000.
Proof.
  assert (H1 : csprng_ok (csprng_once limbs_AB))
    by (apply csprng_once_ok; [reflexivity | exact is_u32_limbs_AB]).
  assert (H2 : pool_inv (Randomizer_new stale_limbs))
    by (apply Randomizer_new_inv; [reflexivity | exact is_u32_stale_limbs]).
  assert (H3 : 0 < 10000 < 2 ^ 32) by lia.
  split; [exact H1|]. split; [exact H2|]. split; [exact H3|].
  exact (makeNumber_sentinel_iff_refused (csprng_once limbs_AB) 10000
           (Randomizer_new stale_limbs) H1 H2 H3).
Defined.

Lemma makeNumber_down (RAND_bytes : nat -> option (list Z)) (modulo : Z)
    (st : Randomizer) :
  pool_inv st -> poolSize st < 32 -> csprng_down RAND_bytes st ->
  exists st',
    makeNumber RAND_bytes modulo st = Some (modulo, st') /\
    pool_inv st' /\ poolSize st' < 32 /\ csprng_down RAND_bytes st'.
Proof.
  intros (Hlen & Hall & Hps & _) Hlow Hdown. unfold makeNumber, bind, getBits.
  destruct (Z.ltb_spec (poolSize st) 32) as [_|?]; [|lia].
  destruct (lookup_lt_is_Some_2 (pool st) 0) as [limb0 Hl0]; [lia|].
  rewrite Hl0, (Hdown (refills st)) by lia.
  eexists. split; [reflexivity|].
  split; [apply (pool_ok_whole_limbs (pool st) 0); [assumption..|lia]|].
  split; [cbn; lia|].
  intros k Hk. apply Hdown. cbn in Hk. lia.
Qed.

Lemma push_digits_sentinel (res : std_string) :
  push_digits 4 10000 res = res ++ replicate 4 "0"%char.
Proof. cbn [push_digits]. rewrite <- !app_assoc. reflexivity. Qed.

Lemma makePin_loop_down (RAND_bytes : nat -> option (list Z)) (turns : nat) :
  forall res st,
    pool_inv st -> poolSize st < 32 -> csprng_down RAND_bytes st ->
    exists st',
      makePin_loop RAND_bytes turns res st
      = Some (res ++ replicate (4 * turns) "0"%char, st').
Proof.
  induction turns as [|turns IH]; intros res st Hinv Hlow Hdown.
  - exists st. cbn. rewrite app_nil_r. reflexivity.
  - cbn [makePin_loop]. unfold bind at 1.
    destruct (makeNumber_down RAND_bytes 10000 st Hinv Hlow Hdown)
      as (st1 & -> & Hinv1 & Hlow1 & Hdown1).
    destruct (IH (push_digits 4 10000 res) st1 Hinv1 Hlow1 Hdown1)
      as (st' & ->).
    exists st'. rewrite push_digits_sentinel, <- app_assoc.
    rewrite <- replicate_add.
    replace (4 + 4 * turns)%nat with (4 * S turns)%nat by lia. reflexivity.
Qed.

(** X7.  With fewer than 32 unread bits in the pool and a CSPRNG that
    refuses every refill, [makePin( n )], for [0 <= n] and
    [n + 3 <= INT_MAX], returns [n] times the digit '0': every block is
    made of the digits of the sentinel 10000. *)
Theorem makePin_zeros_when_csprng_down (RAND_bytes : nat -> option (list Z))
    (n : Z) (st : Randomizer) :
  pool_inv st -> poolSize st < 32 -> csprng_down RAND_bytes st ->
  0 <= n -> n + 3 <= INT_MAX ->
  exists st',
    makePin RAND_bytes n st = Some (replicate (Z.to_nat n) "0"%char, st').
Proof.
  intros Hinv Hlow Hdown Hn Hmax. unfold makePin, bind.
  rewrite reserve_ok by lia.
  destruct (makePin_loop_down RAND_bytes (Z.to_nat ((n + 3) / 4)) [] st
              Hinv Hlow Hdown) as (st' & ->).
  destruct (Z.ltb_spec n 0) as [?|_]; [lia|].
  exists st'. unfold ret, resize. cbn [app].
  rewrite take_replicate, length_replicate.
  assert (Hge : (Z.to_nat n <= 4 * Z.to_nat ((n + 3) / 4))%nat) by zdiv.
  replace (Z.to_nat n - 4 * Z.to_nat ((n + 3) / 4))%nat with 0%nat by lia.
  rewrite Nat.min_l by exact Hge.
  cbn [replicate]. rewrite app_nil_r. reflexivity.
Qed.

Lemma makePin_zeros_when_csprng_down_witness :
  pool_inv (Randomizer_new stale_limbs) /\
  poolSize (Randomizer_new stale_limbs) < 32 /\
  csprng_down csprng_refusing (Randomizer_new stale_limbs) /\
  0 <= 6 /\ 6 + 3 <= INT_MAX /\
  exists st',
    makePin csprng_refusing 6 (Randomizer_new stale_limbs)
    = Some (replicate (Z.to_nat 6) "0"%char, st').
Proof.
  assert (H1 : pool_inv (Randomizer_new stale_limbs))
    by (apply Randomizer_new_inv; [reflexivity | exact is_u32_stale_limbs]).
  assert (H2 : poolSize (Randomizer_new stale_limbs) < 32) by (cbn; lia).
  assert (H3 : csprng_down csprng_refusing (Randomizer_new stale_limbs))
    by (intros k _; reflexivity).
  assert (H4 : 0 <= 6) by lia.
  assert (H5 : 6 + 3 <= INT_MAX) by (unfold INT_MAX; lia).
  split; [exact H1|]. split; [exact H2|]. split; [exact H3|].
  split; [exact H4|]. split; [exact H5|].
  exact (makePin_zeros_when_csprng_down csprng_refusing 6
           (Randomizer_new stale_limbs) H1 H2 H3 H4 H5).
Defined.

(** ** Names *)

Section Names.

Variable RAND_bytes : nat -> option (list Z).
Hypothesis RAND_bytes_ok : csprng_ok RAND_bytes.

Ltac in_tables := unfold literal_tables; cbn [In]; tauto.

Ltac lowercase :=
  repeat first
    [ assumption
    | apply Forall_nil_2
    | apply Forall_app_2
    | match goal with
      | H : In ?i ?table |- Forall is_lowercase (value ?i) =>
        apply (literal_tables_lowercase table i); [in_tables | exact H]
      | |- Forall _ (if ?c then _ else _) => destruct c
      end ].

(** One step of a derivation that a run of [makeName] returns. *)
Ltac run_step IH :=
  cbv beta iota zeta;
  lazymatch goal with
  | |- returns (bind (getLiteral _ _) _) _ =>
    eapply returns_bind;
    [ apply (returns_getLiteral RAND_bytes RAND_bytes_ok); in_tables |];
    let H := fresh "Hlit" in
    intros [?|] H; [specialize (H _ eq_refl)|clear H]
  | |- returns (bind (getBits _ _) _) _ =>
    eapply returns_bind;
    [ apply (returns_getBits RAND_bytes RAND_bytes_ok); lia |];
    let H := fresh "Hbits" in
    intros [?|] H; [specialize (H _ eq_refl)|clear H]
  | |- returns (ret _) _ => apply returns_ret; cbn [fst]; lowercase
  | |- returns (if ?c then _ else _) _ => destruct c
  | |- returns (makeName_syllables _ _ _ _) _ => apply IH; lowercase
  end.

Lemma makeName_count_returns (turns : nat) :
  forall syllableCount,
    returns (makeName_count RAND_bytes turns syllableCount) (fun _ => True).
Proof.
  induction turns as [|turns IH]; intros syllableCount;
    cbn [makeName_count].
  - apply returns_ret. exact I.
  - eapply returns_bind;
      [apply (returns_getBits RAND_bytes RAND_bytes_ok); lia|].
    intros [t|] _; [apply IH | apply returns_ret; exact I].
Qed.

Lemma makeName_syllables_returns (turns : nat) :
  forall i res,
    Forall is_lowercase res ->
    returns (makeName_syllables RAND_bytes turns i res)
            (fun r => Forall is_lowercase (fst r)).
Proof.
  induction turns as [|turns IH]; intros i res Hres;
    cbn [makeName_syllables].
  - apply returns_ret. exact Hres.
  - repeat run_step IH.
Qed.

Lemma makeName_returns (minSyllables maxSyllables : Z) :
  returns (makeName RAND_bytes minSyllables maxSyllables)
          (Forall is_lowercase).
Proof.
  unfold makeName.
  eapply returns_bind; [apply makeName_count_returns|].
  intros [syllableCount|] _; [|apply returns_ret; constructor].
  eapply returns_bind;
    [apply makeName_syllables_returns; constructor|].
  intros [res [|]] Hres; cbn [fst] in Hres; [|apply returns_ret; exact Hres].
  eapply returns_bind;
    [apply (returns_getLiteral RAND_bytes RAND_bytes_ok); in_tables|].
  intros [literal|] Hlit; apply returns_ret; [|exact Hres].
  specialize (Hlit _ eq_refl). lowercase.
Qed.

End Names.

(** X8.  [makeName] returns for every pair of syllable counts and
    whatever the CSPRNG answers, it reads its tables in bounds only, and
    the name is made of lowercase letters 'a'..'z' only. *)
Theorem makeName_lowercase (RAND_bytes : nat -> option (list Z))
    (minSyllables maxSyllables : Z) (st : Randomizer) :
  csprng_ok RAND_bytes -> pool_inv st ->
  exists res st',
    makeName RAND_bytes minSyllables maxSyllables st = Some (res, st') /\
    pool_inv st' /\ Forall is_lowercase res.
Proof.
  intros Hrand Hinv.
  exact (makeName_returns RAND_bytes Hrand minSyllables maxSyllables st Hinv).
Qed.

Lemma makeName_lowercase_witness :
  csprng_ok (csprng_once limbs_name) /\
  pool_inv (Randomizer_new stale_limbs) /\
  exists res st',
    makeName (csprng_once limbs_name) 2 5 (Randomizer_new stale_limbs)
      = Some (res, st') /\
    pool_inv st' /\ Forall is_lowercase res.
Proof.
  assert (H1 : csprng_ok (csprng_once limbs_name))
    by (apply csprng_once_ok; [reflexivity | exact is_u32_limbs_name]).
  assert (H2 : pool_inv (Randomizer_new stale_limbs))
    by (apply Randomizer_new_inv; [reflexivity | exact is_u32_stale_limbs]).
  split; [exact H1|]. split; [exact H2|].
  exact (makeName_lowercase (csprng_once limbs_name) 2 5
           (Randomizer_new stale_limbs) H1 H2).
Defined.

(** ** Callers of the generators *)

(** X9.  The random service name of [MainWindow::randomizeCell] reads
    [randomDomainSet] in bounds whatever the CSPRNG answers: the number
    drawn is at most 4.  The name gets one of the four domains, and the
    empty fifth entry exactly when a refill is refused while the number
    is drawn. *)
Theorem randomizeCell_domain_in_bounds (RAND_bytes : nat -> option (list Z))
    (st : Randomizer) :
  csprng_ok RAND_bytes -> pool_inv st ->
  exists name st1 suffix st',
    makeName RAND_bytes 2 5 st = Some (name, st1) /\
    randomizeCell_name RAND_bytes 0 st = Some (name ++ suffix, st') /\
    pool_inv st' /\ Forall is_lowercase name /\
    In suffix randomDomainSet /\
    (suffix = [] <-> refill_failed RAND_bytes st1 st').
Proof.
  intros Hrand Hinv. unfold randomizeCell_name, bind.
  destruct (makeName_returns RAND_bytes Hrand 2 5 st Hinv)
    as (name & st1 & -> & Hinv1 & Hname).
  change (0 =? 0) with true. cbv iota.
  change (Z.of_nat (length randomDomainSet) - 1) with 4.
  destruct (makeNumber_spec RAND_bytes 4 st1 Hrand Hinv1)
    as (d & st' & -> & Hinv' & Hd & Hiff); [lia|].
  exists name, st1.
  assert (Hcases : d = 0 \/ d = 1 \/ d = 2 \/ d = 3 \/ d = 4) by lia.
  destruct Hcases as [->|[->|[->|[->| ->]]]];
    (eexists _, st'; split; [reflexivity|]; split; [reflexivity|];
     split; [exact Hinv'|]; split; [exact Hname|];
     split; [unfold randomDomainSet; cbn [In]; tauto|]).
  1-4: split; [discriminate | intros Hf; apply Hiff in Hf; discriminate Hf].
  split; [intros _; apply Hiff; reflexivity | reflexivity].
Qed.

Lemma randomizeCell_domain_in_bounds_witness :
  csprng_ok (csprng_once limbs_name) /\
  pool_inv (Randomizer_new stale_limbs) /\
  exists name st1 suffix st',
    makeName (csprng_once limbs_name) 2 5 (Randomizer_new stale_limbs)
      = Some (name, st1) /\
    randomizeCell_name (csprng_once limbs_name) 0 (Randomizer_new stale_limbs)
      = Some (name ++ suffix, st') /\
    pool_inv st' /\ Forall is_lowercase name /\
    In suffix randomDomainSet /\
    (suffix = [] <-> refill_failed (csprng_once limbs_name) st1 st').
Proof.
  assert (H1 : csprng_ok (csprng_once limbs_name))
    by (apply csprng_once_ok; [reflexivity | exact is_u32_limbs_name]).
  assert (H2 : pool_inv (Randomizer_new stale_limbs))
    by (apply Randomizer_new_inv; [reflexivity | exact is_u32_stale_limbs]).
  split; [exact H1|]. split; [exact H2|].
  exact (randomizeCell_domain_in_bounds (csprng_once limbs_name)
           (Randomizer_new stale_limbs) H1 H2).
Defined.



(** ** The envelope *)

Lemma envelope_round_trip
    (RAND_bytes_iv : option QByteArray)
    (EVP_encrypt : QByteArray -> QByteArray -> QByteArray ->
                   option (QByteArray * Z * QByteArray))
    (EVP_decrypt : QByteArray -> QByteArray -> QByteArray -> QByteArray ->
                   option (QByteArray * Z))
    (key buf out : QByteArray) :
  iv_sized RAND_bytes_iv -> mac_sized EVP_encrypt ->
  cipher_inverse EVP_encrypt EVP_decrypt -> buf <> [] ->
  encryptData RAND_bytes_iv EVP_encrypt key buf = Some out ->
  decryptData EVP_decrypt key out = Some buf /\
  length out = (length buf + 28)%nat.
Proof.
  intros Hiv Hmac Hinv Hne. unfold encryptData, decryptData.
  destruct (negb (EVP_CIPHER_iv_length =? ENC_IV_SIZE)
            || negb (EVP_CIPHER_key_length =? Z.of_nat (length key)));
    [discriminate|].
  destruct RAND_bytes_iv as [iv|] eqn:Hrand; [|discriminate].
  destruct (EVP_encrypt key iv buf) as [[[payload outLen] mac]|] eqn:Henc;
    [|discriminate].
  destruct (Z.eqb_spec (Z.of_nat (length payload)) (Z.of_nat (length buf)))
    as [Hlen|?]; [|discriminate].
  destruct (Z.eqb_spec outLen 0) as [->|?]; [|discriminate].
  cbn [negb orb]. intros [= <-].
  specialize (Hiv iv eq_refl). specialize (Hmac _ _ _ _ _ _ Henc).
  unfold ENC_IV_SIZE in Hiv. unfold ENC_MAC_SIZE in Hmac.
  assert (Hbuf : (0 < length buf)%nat) by (destruct buf; [contradiction|cbn; lia]).
  assert (Hout : length (payload ++ iv ++ mac) = (length buf + 28)%nat)
    by (rewrite !length_app; lia).
  split; [|exact Hout].
  rewrite Hout. unfold FILE_APPENDIX_SIZE, ENC_IV_SIZE, ENC_MAC_SIZE.
  destruct (Z.leb_spec (Z.of_nat (length buf + 28)) (12 + 16)) as [?|_]; [lia|].
  replace (Z.to_nat (Z.of_nat (length buf + 28) - (12 + 16)))
    with (length payload) by lia.
  rewrite take_app_length, drop_app_length.
  replace (Z.to_nat 12) with (length iv) by lia.
  rewrite take_app_length, drop_app_length.
  rewrite (Hinv _ _ _ _ _ Henc).
  rewrite Z.eqb_sym. rewrite (proj2 (Z.eqb_eq _ _) Hlen).
  reflexivity.
Qed.

Lemma byte_of_Z_of_byte (b : byte) : byte_of_Z (Z_of_byte b) = b.
Proof. destruct b; reflexivity. Qed.

Lemma lxor_byte (a k : Z) :
  0 <= a < 256 -> 0 <= k < 256 -> 0 <= Z.lxor a k < 256.
Proof.
  intros Ha Hk.
  assert (H0 : 0 <= Z.lxor a k) by (apply Z.lxor_nonneg; lia).
  split; [exact H0|].
  destruct (Z.eq_dec (Z.lxor a k) 0) as [->|Hnz]; [lia|].
  change 256 with (2 ^ 8). apply Z.log2_lt_pow2; [lia|].
  eapply Z.le_lt_trans; [apply Z.log2_lxor; lia|].
  apply Z.max_lub_lt.
  - destruct (Z.eq_dec a 0) as [->|?]; [cbn; lia|].
    apply Z.log2_lt_pow2; lia.
  - destruct (Z.eq_dec k 0) as [->|?]; [cbn; lia|].
    apply Z.log2_lt_pow2; lia.
Qed.

Lemma sample_cipher_inverse : cipher_inverse sample_encrypt sample_decrypt.
Proof.
  intros key iv buf payload mac [= <- _]. unfold sample_decrypt.
  do 2 f_equal. rewrite map_map. rewrite <- (map_id buf) at 2.
  apply map_ext. intros b.
  pose proof (Z_of_byte_range b) as Hb.
  pose proof (Z_of_byte_range (hd x00 key)) as Hk.
  rewrite Z_of_byte_of_Z_small by (apply lxor_byte; assumption).
  rewrite Z.lxor_assoc, Z.lxor_nilpotent, Z.lxor_0_r.
  apply byte_of_Z_of_byte.
Qed.

(** X11.  What [encryptData] makes of a non-empty buffer is the
    encrypted payload, as long as the buffer, followed by the 12 bytes
    of the IV and the 16 bytes of the tag, and [decryptData] under the
    same key hands the buffer back, for any cipher whose decryption
    undoes its encryption. *)
Theorem decryptData_undoes_encryptData
    (RAND_bytes_iv : option QByteArray)
    (EVP_encrypt : QByteArray -> QByteArray -> QByteArray ->
                   option (QByteArray * Z * QByteArray))
    (EVP_decrypt : QByteArray -> QByteArray -> QByteArray -> QByteArray ->
                   option (QByteArray * Z))
    (key buf out : QByteArray) :
  iv_sized RAND_bytes_iv -> mac_sized EVP_encrypt ->
  cipher_inverse EVP_encrypt EVP_decrypt -> buf <> [] ->
  encryptData RAND_bytes_iv EVP_encrypt key buf = Some out ->
  (exists payload iv mac,
     RAND_bytes_iv = Some iv /\
     EVP_encrypt key iv buf = Some (payload, 0, mac) /\
     out = payload ++ iv ++ mac /\
     length payload = length buf /\
     length iv = 12%nat /\ length mac = 16%nat) /\
  decryptData EVP_decrypt key out = Some buf.
Proof.
  intros Hiv Hmac Hinv Hne Hout.
  split; [|exact (proj1 (envelope_round_trip _ _ _ _ _ _ Hiv Hmac Hinv Hne
                           Hout))].
  unfold encryptData in Hout.
  destruct (negb (EVP_CIPHER_iv_length =? ENC_IV_SIZE)
            || negb (EVP_CIPHER_key_length =? Z.of_nat (length key)));
    [discriminate|].
  destruct RAND_bytes_iv as [iv|] eqn:Hrand; [|discriminate].
  destruct (EVP_encrypt key iv buf) as [[[payload outLen] mac]|] eqn:Henc;
    [|discriminate].
  destruct (Z.eqb_spec (Z.of_nat (length payload)) (Z.of_nat (length buf)))
    as [Hlen|?]; [|discriminate].
  destruct (Z.eqb_spec outLen 0) as [->|?]; [|discriminate].
  cbn [negb orb] in Hout. injection Hout as <-.
  specialize (Hiv iv eq_refl). specialize (Hmac _ _ _ _ _ _ Henc).
  unfold ENC_IV_SIZE in Hiv. unfold ENC_MAC_SIZE in Hmac.
  exists payload, iv, mac.
  split; [reflexivity|]. split; [exact Henc|]. split; [reflexivity|].
  lia.
Qed.

Lemma decryptData_undoes_encryptData_witness :
  iv_sized sample_iv /\ mac_sized sample_encrypt /\
  cipher_inverse sample_encrypt sample_decrypt /\
  bytes "vault" <> [] /\
  encryptData sample_iv sample_encrypt sample_key (bytes "vault")
    = Some (bytes "\K_F^" ++ repeat x01 12 ++ repeat x02 16) /\
  (exists payload iv mac,
     sample_iv = Some iv /\
     sample_encrypt sample_key iv (bytes "vault") = Some (payload, 0, mac) /\
     bytes "\K_F^" ++ repeat x01 12 ++ repeat x02 16 = payload ++ iv ++ mac /\
     length payload = length (bytes "vault") /\
     length iv = 12%nat /\ length mac = 16%nat) /\
  decryptData sample_decrypt sample_key
    (bytes "\K_F^" ++ repeat x01 12 ++ repeat x02 16)
    = Some (bytes "vault").
Proof.
  assert (H4 : bytes "vault" <> []) by discriminate.
  assert (H5 : encryptData sample_iv sample_encrypt sample_key (bytes "vault")
               = Some (bytes "\K_F^" ++ repeat x01 12 ++ repeat x02 16))
    by (vm_compute; reflexivity).
  split; [exact sample_iv_sized|]. split; [exact sample_mac_sized|].
  split; [exact sample_cipher_inverse|]. split; [exact H4|].
  split; [exact H5|].
  exact (decryptData_undoes_encryptData sample_iv sample_encrypt sample_decrypt
           sample_key (bytes "vault") _ sample_iv_sized sample_mac_sized
           sample_cipher_inverse H4 H5).
Defined.

(** ** Saving and opening *)

Lemma stored_rows_not_empty (rows : list DataRow) :
  Forall (fun r => all_empty r = false) (stored_rows rows).
Proof.
  apply List.Forall_forall. intros r Hin. unfold stored_rows in Hin.
  apply filter_In in Hin. destruct Hin as [_ Hr].
  destruct (all_empty r); [discriminate | reflexivity].
Qed.

Lemma stored_rows_volume (rows : list DataRow) :
  rows_volume (stored_rows rows) <= rows_volume rows.
Proof.
  induction rows as [|r rows IH]; [reflexivity|].
  rewrite stored_rows_cons. pose proof (row_volume_pos r).
  destruct (all_empty r); rewrite !rows_volume_cons; lia.
Qed.

Lemma stored_rows_in_order (rows : list DataRow) :
  in_order rows -> in_order (stored_rows rows).
Proof.
  unfold in_order. induction 1 as [|r rows _ IH Hr]; [constructor|].
  rewrite stored_rows_cons. destruct (all_empty r); [exact IH|].
  constructor; [exact IH|].
  rewrite List.Forall_forall in Hr |- *. intros x Hx. apply Hr.
  unfold stored_rows in Hx. apply filter_In in Hx. tauto.
Qed.

Lemma sequence_frame_not_nil (rows : list DataRow) : sequence_frame rows <> [].
Proof.
  unfold sequence_frame. rewrite put_object_low_tag by reflexivity.
  discriminate.
Qed.

(** What [readDbFile] makes of the frame that [writeDbFile] serializes:
    the rows with a non-empty cell, in the order of the store. *)
Lemma decode_encode_db (rows : list DataRow) :
  in_order rows -> rows_volume rows < INT_MAX ->
  encode_db rows = Some (sequence_frame (stored_rows rows)) /\
  decode_db (sequence_frame (stored_rows rows)) = Some (stored_rows rows).
Proof.
  intros Hord Hfit. split; [apply encode_db_spec, Hfit|].
  pose proof (stored_rows_volume rows).
  rewrite decode_db_sequence_frame;
    [|apply stored_rows_not_empty | lia].
  rewrite multiset_of_in_order_id by (apply stored_rows_in_order, Hord).
  reflexivity.
Qed.

Lemma writeFileContent_true
    (fs_refuses : option fs_refusal) (newFileName : string)
    (buf : QByteArray) (st st' : StorageEngine) (disk disk' : option QByteArray) :
  writeFileContent fs_refuses newFileName buf st disk = (true, st', disk') ->
  st' = st /\ disk' = Some buf.
Proof.
  unfold writeFileContent.
  destruct fs_refuses as [[| | |]|]; destruct disk; intros H;
    try discriminate H; injection H as <- <-; auto.
Qed.

Lemma writeDbFile_readDbFile
    (RAND_bytes_iv : option QByteArray)
    (EVP_encrypt : QByteArray -> QByteArray -> QByteArray ->
                   option (QByteArray * Z * QByteArray))
    (EVP_decrypt : QByteArray -> QByteArray -> QByteArray -> QByteArray ->
                   option (QByteArray * Z))
    (fs_refuses : option fs_refusal) (newFileName : string)
    (st st' st2 : StorageEngine) (disk disk' : option QByteArray) :
  iv_sized RAND_bytes_iv -> mac_sized EVP_encrypt ->
  cipher_inverse EVP_encrypt EVP_decrypt ->
  in_order (data st) -> rows_volume (data st) < INT_MAX ->
  writeDbFile RAND_bytes_iv EVP_encrypt fs_refuses newFileName st disk
    = (true, st', disk') ->
  key st2 = key st ->
  st' = st /\
  readDbFile EVP_decrypt disk' st2
    = (true, set_data st2 (stored_rows (data st))).
Proof.
  intros Hiv Hmac Hinv Hord Hfit Hsave Hkey.
  destruct (decode_encode_db (data st) Hord Hfit) as [Henc Hdec].
  unfold writeDbFile in Hsave. rewrite Henc in Hsave.
  destruct (encryptData RAND_bytes_iv EVP_encrypt (key st)
              (sequence_frame (stored_rows (data st)))) as [out|] eqn:Hout;
    [|discriminate Hsave].
  apply writeFileContent_true in Hsave. destruct Hsave as [-> ->].
  split; [reflexivity|].
  destruct (envelope_round_trip _ _ EVP_decrypt _ _ _ Hiv Hmac Hinv
              (sequence_frame_not_nil _) Hout) as [Hback _].
  unfold readDbFile, readFileContent. rewrite Hkey, Hback, Hdec.
  reflexivity.
Qed.

(** X12.  A store that is saved and opened again with the same key comes
    back as it was, less the rows with four empty cells: a
    [writeDbFile] that returns [true] leaves the engine as it was and a
    file of 28 bytes more than the frame of the store, which
    [readDbFile] accepts, and the store read is the store saved without
    those rows.  (Stores in order whose frame size fits an [int]; any
    cipher whose decryption undoes its encryption.) *)
Theorem save_then_open
    (RAND_bytes_iv : option QByteArray)
    (EVP_encrypt : QByteArray -> QByteArray -> QByteArray ->
                   option (QByteArray * Z * QByteArray))
    (EVP_decrypt : QByteArray -> QByteArray -> QByteArray -> QByteArray ->
                   option (QByteArray * Z))
    (fs_refuses : option fs_refusal) (newFileName : string)
    (st st' st2 : StorageEngine) (disk disk' : option QByteArray) :
  iv_sized RAND_bytes_iv -> mac_sized EVP_encrypt ->
  cipher_inverse EVP_encrypt EVP_decrypt ->
  in_order (data st) -> rows_volume (data st) < INT_MAX ->
  writeDbFile RAND_bytes_iv EVP_encrypt fs_refuses newFileName st disk
    = (true, st', disk') ->
  key st2 = key st ->
  st' = st /\
  (exists fileContent,
     disk' = Some fileContent /\
     length fileContent
     = (length (sequence_frame (stored_rows (data st))) + 28)%nat) /\
  readDbFile EVP_decrypt disk' st2
    = (true, set_data st2 (stored_rows (data st))).
Proof.
  intros Hiv Hmac Hinv Hord Hfit Hsave Hkey.
  destruct (writeDbFile_readDbFile _ _ EVP_decrypt _ _ _ _ st2 _ _
              Hiv Hmac Hinv Hord Hfit Hsave Hkey) as [Hst Hread].
  split; [exact Hst|]. split; [|exact Hread].
  unfold writeDbFile in Hsave.
  rewrite (encode_db_spec _ Hfit) in Hsave.
  destruct (encryptData RAND_bytes_iv EVP_encrypt (key st)
              (sequence_frame (stored_rows (data st)))) as [out|] eqn:Hout;
    [|discriminate Hsave].
  apply writeFileContent_true in Hsave. destruct Hsave as [_ ->].
  exists out. split; [reflexivity|].
  exact (proj2 (envelope_round_trip _ _ EVP_decrypt _ _ _ Hiv Hmac Hinv
                  (sequence_frame_not_nil _) Hout)).
Qed.

Lemma save_then_open_witness :
  iv_sized sample_iv /\ mac_sized sample_encrypt /\
  cipher_inverse sample_encrypt sample_decrypt /\
  in_order (data sample_store) /\ rows_volume (data sample_store) < INT_MAX /\
  writeDbFile sample_iv sample_encrypt None "vault.db_0" sample_store None
    = (true, sample_store,
       snd (writeDbFile sample_iv sample_encrypt None "vault.db_0"
              sample_store None)) /\
  key sample_engine = key sample_store /\
  sample_store = sample_store /\
  (exists fileContent,
     snd (writeDbFile sample_iv sample_encrypt None "vault.db_0"
            sample_store None) = Some fileContent /\
     length fileContent
     = (length (sequence_frame (stored_rows (data sample_store))) + 28)%nat) /\
  readDbFile sample_decrypt
    (snd (writeDbFile sample_iv sample_encrypt None "vault.db_0"
            sample_store None))
    sample_engine
  = (true, set_data sample_engine (stored_rows (data sample_store))).
Proof.
  assert (H4 : in_order (data sample_store)).
  { replace (data sample_store) with (multiset_of [row_gmail; row_bank])
      by (vm_compute; reflexivity).
    apply multiset_of_in_order. }
  assert (H5 : rows_volume (data sample_store) < INT_MAX)
    by (vm_compute; reflexivity).
  assert (H6 : writeDbFile sample_iv sample_encrypt None "vault.db_0"
                 sample_store None
               = (true, sample_store,
                  snd (writeDbFile sample_iv sample_encrypt None "vault.db_0"
                         sample_store None)))
    by (vm_compute; reflexivity).
  assert (H7 : key sample_engine = key sample_store) by reflexivity.
  split; [exact sample_iv_sized|]. split; [exact sample_mac_sized|].
  split; [exact sample_cipher_inverse|]. split; [exact H4|].
  split; [exact H5|]. split; [exact H6|]. split; [exact H7|].
  exact (save_then_open sample_iv sample_encrypt sample_decrypt None
           "vault.db_0" sample_store sample_store sample_engine None _
           sample_iv_sized sample_mac_sized sample_cipher_inverse
           H4 H5 H6 H7).
Defined.

(** X13.  A file of at most 28 bytes, the size of the IV and the tag,
    is never decrypted: whatever the key and the cipher, [readDbFile]
    reports a wrong password or a corrupted file.  What [encryptData]
    makes of the empty buffer is such a file. *)
Theorem short_file_rejected
    (RAND_bytes_iv : option QByteArray)
    (EVP_encrypt : QByteArray -> QByteArray -> QByteArray ->
                   option (QByteArray * Z * QByteArray))
    (EVP_decrypt : QByteArray -> QByteArray -> QByteArray -> QByteArray ->
                   option (QByteArray * Z)) :
  iv_sized RAND_bytes_iv -> mac_sized EVP_encrypt ->
  (forall fileContent st,
     (length fileContent <= 28)%nat ->
     decryptData EVP_decrypt (key st) fileContent = None /\
     readDbFile EVP_decrypt (Some fileContent) st
     = (false, set_error st "Wrong password or file corruption")) /\
  (forall key out,
     encryptData RAND_bytes_iv EVP_encrypt key [] = Some out ->
     length out = 28%nat /\ decryptData EVP_decrypt key out = None).
Proof.
  intros Hiv Hmac.
  assert (Hshort : forall key buf, (length buf <= 28)%nat ->
                     decryptData EVP_decrypt key buf = None).
  { intros key buf Hlen. unfold decryptData.
    unfold FILE_APPENDIX_SIZE, ENC_IV_SIZE, ENC_MAC_SIZE.
    destruct (Z.leb_spec (Z.of_nat (length buf)) (12 + 16)) as [_|?]; [|lia].
    rewrite Bool.orb_true_r. reflexivity. }
  split.
  - intros fileContent st Hlen. split; [apply Hshort, Hlen|].
    unfold readDbFile, readFileContent. rewrite Hshort by exact Hlen.
    reflexivity.
  - intros key out. unfold encryptData.
    destruct (negb (EVP_CIPHER_iv_length =? ENC_IV_SIZE)
              || negb (EVP_CIPHER_key_length =? Z.of_nat (length key)));
      [discriminate|].
    destruct RAND_bytes_iv as [iv|] eqn:Hrand; [|discriminate].
    destruct (EVP_encrypt key iv []) as [[[payload outLen] mac]|] eqn:Henc;
      [|discriminate].
    destruct (Z.eqb_spec (Z.of_nat (length payload))
                (Z.of_nat (length (@nil byte)))) as [Hlen|?]; [|discriminate].
    destruct (Z.eqb_spec outLen 0) as [->|?]; [|discriminate].
    cbn [negb orb]. intros [= <-].
    specialize (Hiv iv eq_refl). specialize (Hmac _ _ _ _ _ _ Henc).
    unfold ENC_IV_SIZE in Hiv. unfold ENC_MAC_SIZE in Hmac.
    cbn [length] in Hlen.
    assert (Hout : length (payload ++ iv ++ mac) = 28%nat)
      by (rewrite !length_app; lia).
    split; [exact Hout|]. apply Hshort. lia.
Qed.

Lemma short_file_rejected_witness :
  iv_sized sample_iv /\ mac_sized sample_encrypt /\
  (forall fileContent st,
     (length fileContent <= 28)%nat ->
     decryptData sample_decrypt (key st) fileContent = None /\
     readDbFile sample_decrypt (Some fileContent) st
     = (false, set_error st "Wrong password or file corruption")) /\
  (forall key out,
     encryptData sample_iv sample_encrypt key [] = Some out ->
     length out = 28%nat /\ decryptData sample_decrypt key out = None).
Proof.
  split; [exact sample_iv_sized|]. split; [exact sample_mac_sized|].
  exact (short_file_rejected sample_iv sample_encrypt sample_decrypt
           sample_iv_sized sample_mac_sized).
Defined.


(** ** What the parsing constructor accepts *)

Lemma context_tag_ident (tag : Z) :
  0 <= tag <= 30 ->
  (tag <? 31) = true /\
  let v := Z_of_byte (byte_of_Z
             (Z.lor (Z.lor 0 (Z.land V_ASN1_CONTEXT_SPECIFIC V_ASN1_PRIVATE))
                    (Z.land tag V_ASN1_PRIMITIVE_TAG))) in
  Z.land v V_ASN1_CONSTRUCTED = 0 /\
  Z.land v V_ASN1_PRIVATE = V_ASN1_CONTEXT_SPECIFIC /\
  Z.land v V_ASN1_PRIMITIVE_TAG = tag /\
  (tag =? V_ASN1_PRIMITIVE_TAG) = false.
Proof.
  intros Htag.
  assert (Hk : exists k : nat, tag = Z.of_nat k /\ (k <= 30)%nat)
    by (exists (Z.to_nat tag); lia).
  destruct Hk as (k & -> & Hk).
  do 31 (destruct k as [|k]; [vm_compute; repeat split; reflexivity|]).
  lia.
Qed.

(** [ASN1_get_object] reads the header of a primitive context-specific
    frame back, whatever its tag below 31. *)
Lemma get_put_object_context (tag len : Z) (rest : list byte) :
  0 <= tag <= 30 -> 0 <= len <= INT_MAX -> len <= Z.of_nat (length rest) ->
  ASN1_get_object (ASN1_put_object 0 len tag V_ASN1_CONTEXT_SPECIFIC ++ rest)
  = Asn1Object 0 tag V_ASN1_CONTEXT_SPECIFIC len rest.
Proof.
  intros Htag Hlen Hrest.
  destruct (context_tag_ident tag Htag) as (Hlow & Hret & Hclass & Hi & Hhigh).
  cbv zeta in Hret, Hclass, Hi.
  pose proof (asn1_get_put_length len rest Hlen Hrest) as Hget.
  destruct (length_asn1_put_length len Hlen) as [_ Hl].
  rewrite put_object_low_tag by (exact Hlow || reflexivity).
  change (if 0 =? 0 then 0 else V_ASN1_CONSTRUCTED) with 0.
  destruct (asn1_put_length len) as [|l0 ls] eqn:Hput; [cbn in Hl; lia|].
  rewrite <- !app_comm_cons in *.
  unfold ASN1_get_object. cbv zeta.
  rewrite Hret, Hclass, Hi, Hhigh, Hget.
  change (negb (0 =? 0)) with false. cbn [andb].
  destruct (Z.ltb_spec (Z.of_nat (length rest)) len) as [?|_]; [lia|].
  reflexivity.
Qed.

Lemma tagged_frame_not_nil (f : Z * QByteArray) :
  0 <= fst f <= 30 -> frame_of_cell f <> [].
Proof.
  intros Htag. unfold frame_of_cell.
  destruct (context_tag_ident _ Htag) as (Hlow & _).
  rewrite put_object_low_tag by (exact Hlow || reflexivity). discriminate.
Qed.

Lemma parse_cells_tagged (frames : list (Z * QByteArray)) :
  forall fuel r0,
    Forall (fun f => 0 <= fst f <= 30 /\
                     Z.of_nat (length (snd f)) <= INT_MAX) frames ->
    (length frames <= fuel)%nat ->
    parse_cells fuel (flat_map frame_of_cell frames) r0
    = fold_left (fun r f => append_cell r (fst f) (snd f)) frames r0.
Proof.
  induction frames as [|f frames IH]; intros fuel r0 Hall Hfuel.
  - apply parse_cells_nil.
  - apply Forall_cons_1 in Hall. destruct Hall as [[Htag Hfit] Hall].
    destruct fuel as [|fuel]; [simpl in Hfuel; lia|].
    cbn [flat_map fold_left].
    rewrite parse_cells_step.
    2:{ intros Hnil. apply app_eq_nil in Hnil.
        destruct Hnil as [Hnil _].
        exact (tagged_frame_not_nil f Htag Hnil). }
    assert (Hlen : 0 <= Z.of_nat (length (snd f)) <= INT_MAX) by lia.
    assert (Hrest : Z.of_nat (length (snd f))
                    <= Z.of_nat (length (snd f ++ flat_map frame_of_cell frames)))
      by (rewrite length_app; lia).
    unfold frame_of_cell at 1. rewrite <- app_assoc.
    rewrite (get_put_object_context (fst f) _ _ Htag Hlen Hrest).
    change (negb (0 =? 0)) with false.
    change (negb (V_ASN1_CONTEXT_SPECIFIC =? V_ASN1_CONTEXT_SPECIFIC)) with false.
    cbn [orb].
    rewrite Nat2Z.id, take_app_length, drop_app_length.
    apply IH; [exact Hall | simpl in Hfuel; lia].
Qed.

Lemma length_tagged_frames (frames : list (Z * QByteArray)) :
  Forall (fun f => 0 <= fst f <= 30 /\
                   Z.of_nat (length (snd f)) <= INT_MAX) frames ->
  (length frames <= length (flat_map frame_of_cell frames))%nat.
Proof.
  induction 1 as [|f frames [Htag Hfit] _ IH]; [reflexivity|].
  cbn [flat_map length]. rewrite length_app.
  pose proof (tagged_frame_not_nil f Htag) as Hne.
  destruct (frame_of_cell f); [contradiction|]. cbn [length]. lia.
Qed.

Lemma append_cells_content (frames : list (Z * QByteArray)) :
  forall r0,
    fold_left (fun r f => append_cell r (fst f) (snd f)) frames r0
    = mkDataRow (cell_service r0 ++ cell_content 0 frames)
                (cell_login r0 ++ cell_content 1 frames)
                (cell_password r0 ++ cell_content 2 frames)
                (cell_comment r0 ++ cell_content 16 frames).
Proof.
  unfold cell_content.
  induction frames as [|[tag bs] frames IH]; intros [c0 c1 c2 c3].
  - cbn. rewrite !app_nil_r. reflexivity.
  - cbn [fold_left]. rewrite IH. unfold append_cell.
    cbn [fst snd List.filter].
    destruct (Z.eqb_spec tag 0) as [->|H0];
      [|destruct (Z.eqb_spec tag 1) as [->|H1];
        [|destruct (Z.eqb_spec tag 2) as [->|H2];
          [|destruct (Z.eqb_spec tag 16) as [->|H16]]]];
      cbn [Z.eqb Pos.eqb flat_map snd fst cell_service cell_login
           cell_password cell_comment];
      rewrite <- ?app_assoc; reflexivity.
Qed.

(** X15.  The parsing constructor takes the cell frames of a record in
    any order and number: each cell gets the contents of the frames that
    carry the tag of its role, joined in their order, and frames with
    another tag below 31 are passed over. *)
Theorem DataRow_parse_any_frames (frames : list (Z * QByteArray))
    (rest : list byte) :
  Forall (fun f => 0 <= fst f <= 30 /\
                   Z.of_nat (length (snd f)) <= INT_MAX) frames ->
  Z.of_nat (length (flat_map frame_of_cell frames)) <= INT_MAX ->
  DataRow_parse
    (ASN1_put_object 1 (Z.of_nat (length (flat_map frame_of_cell frames)))
                     V_ASN1_SET V_ASN1_UNIVERSAL
     ++ flat_map frame_of_cell frames ++ rest)
  = (mkDataRow (cell_content 0 frames) (cell_content 1 frames)
               (cell_content 2 frames) (cell_content 16 frames),
     rest).
Proof.
  intros Hall Hfit.
  assert (Hkind : In (1, V_ASN1_SET, V_ASN1_UNIVERSAL) frame_kinds)
    by (unfold frame_kinds; simpl; tauto).
  set (body := flat_map frame_of_cell frames) in *.
  assert (Hlen : 0 <= Z.of_nat (length body) <= INT_MAX) by lia.
  assert (Hrest : Z.of_nat (length body) <= Z.of_nat (length (body ++ rest)))
    by (rewrite length_app; lia).
  unfold DataRow_parse.
  rewrite (get_put_object 1 V_ASN1_SET V_ASN1_UNIVERSAL _ _ Hkind Hlen Hrest).
  change (negb ((if 1 =? 0 then 0 else V_ASN1_CONSTRUCTED) =? V_ASN1_CONSTRUCTED))
    with false.
  change (negb (V_ASN1_SET =? V_ASN1_SET)) with false.
  change (negb (V_ASN1_UNIVERSAL =? V_ASN1_UNIVERSAL)) with false.
  cbn [orb].
  destruct (Z.ltb_spec (Z.of_nat (length (body ++ rest)))
              (Z.of_nat (length body))) as [Hlt|_];
    [rewrite length_app in Hlt; lia|].
  rewrite Nat2Z.id, take_app_length, drop_app_length.
  subst body. rewrite parse_cells_tagged;
    [|exact Hall | apply length_tagged_frames, Hall].
  rewrite append_cells_content. reflexivity.
Qed.

Lemma DataRow_parse_any_frames_witness :
  Forall (fun f => 0 <= fst f <= 30 /\
                   Z.of_nat (length (snd f)) <= INT_MAX)
         [(2, bytes "p1"); (7, bytes "zz"); (0, bytes "svc"); (2, bytes "p2")]
  /\
  Z.of_nat (length (flat_map frame_of_cell
              [(2, bytes "p1"); (7, bytes "zz"); (0, bytes "svc");
               (2, bytes "p2")])) <= INT_MAX /\
  DataRow_parse
    (ASN1_put_object 1
       (Z.of_nat (length (flat_map frame_of_cell
          [(2, bytes "p1"); (7, bytes "zz"); (0, bytes "svc");
           (2, bytes "p2")])))
       V_ASN1_SET V_ASN1_UNIVERSAL
     ++ flat_map frame_of_cell
          [(2, bytes "p1"); (7, bytes "zz"); (0, bytes "svc"); (2, bytes "p2")]
     ++ [])
  = (mkDataRow
       (cell_content 0
          [(2, bytes "p1"); (7, bytes "zz"); (0, bytes "svc"); (2, bytes "p2")])
       (cell_content 1
          [(2, bytes "p1"); (7, bytes "zz"); (0, bytes "svc"); (2, bytes "p2")])
       (cell_content 2
          [(2, bytes "p1"); (7, bytes "zz"); (0, bytes "svc"); (2, bytes "p2")])
       (cell_content 16
          [(2, bytes "p1"); (7, bytes "zz"); (0, bytes "svc"); (2, bytes "p2")]),
     []).
Proof.
  assert (H1 : Forall (fun f => 0 <= fst f <= 30 /\
                         Z.of_nat (length (snd f)) <= INT_MAX)
                 [(2, bytes "p1"); (7, bytes "zz"); (0, bytes "svc");
                  (2, bytes "p2")])
    by (repeat constructor; cbn; unfold INT_MAX; lia).
  assert (H2 : Z.of_nat (length (flat_map frame_of_cell
                  [(2, bytes "p1"); (7, bytes "zz"); (0, bytes "svc");
                   (2, bytes "p2")])) <= INT_MAX)
    by (vm_compute; discriminate).
  split; [exact H1|]. split; [exact H2|].
  exact (DataRow_parse_any_frames
           [(2, bytes "p1"); (7, bytes "zz"); (0, bytes "svc"); (2, bytes "p2")]
           [] H1 H2).
Defined.

(** The scenario of a record whose password comes in two frames around
    a frame of an unknown role. *)
Example DataRow_parse_split_password :
  mkDataRow
    (cell_content 0
       [(2, bytes "p1"); (7, bytes "zz"); (0, bytes "svc"); (2, bytes "p2")])
    (cell_content 1
       [(2, bytes "p1"); (7, bytes "zz"); (0, bytes "svc"); (2, bytes "p2")])
    (cell_content 2
       [(2, bytes "p1"); (7, bytes "zz"); (0, bytes "svc"); (2, bytes "p2")])
    (cell_content 16
       [(2, bytes "p1"); (7, bytes "zz"); (0, bytes "svc"); (2, bytes "p2")])
  = mkDataRow (bytes "svc") [] (bytes "p1p2") [].
Proof. reflexivity. Qed.

Lemma asn1_get_length_flag (p : list byte) (inf len : Z) (p' : list byte) :
  asn1_get_length p = Some (inf, len, p') -> inf = 0 \/ inf = 1.
Proof.
  unfold asn1_get_length. destruct p as [|b p1]; [discriminate|].
  destruct (Z_of_byte b =? 0x80); [intros [= <- _ _]; auto|].
  destruct (Z.land (Z_of_byte b) 0x80 =? 0); [intros [= <- _ _]; auto|].
  destruct (Z.of_nat (length p1) <? Z.land (Z_of_byte b) 0x7f + 1);
    [discriminate|].
  destruct (skip_zeroes (Z.to_nat (Z.land (Z_of_byte b) 0x7f)) p1) as [i p2].
  destruct (8 <? i)%nat; [discriminate|].
  destruct (LONG_MAX <? read_octets (take i p2)); [discriminate|].
  intros [= <- _ _]. auto.
Qed.

Lemma land_constructed_bit (x : Z) :
  Z.land x V_ASN1_CONSTRUCTED = 0 \/ Z.land x V_ASN1_CONSTRUCTED = 0x20.
Proof.
  unfold V_ASN1_CONSTRUCTED. change 0x20 with (2 ^ 5).
  destruct (Z.testbit x 5) eqn:Hbit; [right | left];
    apply Z.bits_inj'; intros k Hk; rewrite Z.land_spec;
    destruct (Z.eq_dec k 5) as [->|Hne];
    rewrite ?Hbit, ?Z.pow2_bits_true, ?Z.bits_0 by lia;
    try reflexivity;
    rewrite ?Z.pow2_bits_false by lia; apply Bool.andb_false_r.
Qed.

Lemma DataRow_parse_not_a_set (b : byte) (p : list byte) :
  Z.land (Z_of_byte b) V_ASN1_CONSTRUCTED = 0 \/
  Z.land (Z_of_byte b) V_ASN1_PRIVATE <> 0 ->
  DataRow_parse (b :: p) = (DataRow_new, []).
Proof.
  intros Hb. unfold DataRow_parse, ASN1_get_object. cbv zeta.
  destruct (match p with
            | [] => None
            | _ :: _ =>
              if Z.land (Z_of_byte b) V_ASN1_PRIMITIVE_TAG =? V_ASN1_PRIMITIVE_TAG
              then get_high_tag p 0
              else Some (Z.land (Z_of_byte b) V_ASN1_PRIMITIVE_TAG, p)
            end) as [[tag p2]|]; [|reflexivity].
  destruct (asn1_get_length p2) as [[[inf len] p3]|] eqn:Hlen; [|reflexivity].
  apply asn1_get_length_flag in Hlen.
  destruct Hb as [Hprim|Hclass].
  - rewrite Hprim. change (Z.land 0 V_ASN1_CONSTRUCTED =? 0) with true.
    rewrite Bool.andb_true_r.
    destruct Hlen as [-> | ->]; [|reflexivity].
    change (negb (0 =? 0)) with false. cbv iota.
    destruct (Z.of_nat (length p3) <? len); reflexivity.
  - destruct (negb (inf =? 0)
              && (Z.land (Z.land (Z_of_byte b) V_ASN1_CONSTRUCTED)
                         V_ASN1_CONSTRUCTED =? 0)); [reflexivity|].
    destruct (Z.eqb_spec (Z.land (Z_of_byte b) V_ASN1_PRIVATE)
                V_ASN1_UNIVERSAL) as [Heq|_]; [contradiction|].
    cbn [negb]. rewrite !Bool.orb_true_r. reflexivity.
Qed.

(** X16.  A record that does not start as a constructed universal frame
    is not an error for [readDbFile]: the parsing constructor hands back
    an empty row and the end of the region, so that an outer frame with
    such a content is accepted and read as one row with four empty
    cells. *)
Theorem junk_content_read_as_empty_row (b : byte) (p : list byte) :
  Z.land (Z_of_byte b) V_ASN1_CONSTRUCTED = 0 \/
  Z.land (Z_of_byte b) V_ASN1_PRIVATE <> 0 ->
  Z.of_nat (length (b :: p)) <= INT_MAX ->
  DataRow_parse (b :: p) = (DataRow_new, []) /\
  decode_db (ASN1_put_object 1 (Z.of_nat (length (b :: p)))
                             V_ASN1_SEQUENCE V_ASN1_UNIVERSAL ++ b :: p)
  = Some [DataRow_new].
Proof.
  intros Hb Hfit.
  pose proof (DataRow_parse_not_a_set b p Hb) as Hparse.
  split; [exact Hparse|].
  assert (Hkind : In (1, V_ASN1_SEQUENCE, V_ASN1_UNIVERSAL) frame_kinds)
    by (unfold frame_kinds; simpl; tauto).
  assert (Hlen : 0 <= Z.of_nat (length (b :: p)) <= INT_MAX) by lia.
  unfold decode_db.
  rewrite (get_put_object 1 V_ASN1_SEQUENCE V_ASN1_UNIVERSAL _ _ Hkind Hlen
             (Z.le_refl _)).
  change (negb ((if 1 =? 0 then 0 else V_ASN1_CONSTRUCTED) =? V_ASN1_CONSTRUCTED))
    with false.
  change (negb (V_ASN1_SEQUENCE =? V_ASN1_SEQUENCE)) with false.
  change (negb (V_ASN1_UNIVERSAL =? V_ASN1_UNIVERSAL)) with false.
  rewrite Z.eqb_refl. cbn [orb negb].
  change (length (b :: p)) with (S (length p)).
  rewrite read_rows_step by discriminate.
  rewrite Hparse. cbn [fst snd]. rewrite read_rows_nil. reflexivity.
Qed.

Lemma junk_content_read_as_empty_row_witness :
  (Z.land (Z_of_byte x04) V_ASN1_CONSTRUCTED = 0 \/
   Z.land (Z_of_byte x04) V_ASN1_PRIVATE <> 0) /\
  Z.of_nat (length [x04; x01; x41]) <= INT_MAX /\
  DataRow_parse [x04; x01; x41] = (DataRow_new, []) /\
  decode_db (ASN1_put_object 1 (Z.of_nat (length [x04; x01; x41]))
                             V_ASN1_SEQUENCE V_ASN1_UNIVERSAL
             ++ [x04; x01; x41])
  = Some [DataRow_new].
Proof.
  assert (H1 : Z.land (Z_of_byte x04) V_ASN1_CONSTRUCTED = 0 \/
               Z.land (Z_of_byte x04) V_ASN1_PRIVATE <> 0)
    by (left; reflexivity).
  assert (H2 : Z.of_nat (length [x04; x01; x41]) <= INT_MAX)
    by (vm_compute; discriminate).
  split; [exact H1|]. split; [exact H2|].
  exact (junk_content_read_as_empty_row x04 [x01; x41] H1 H2).
Defined.

(** ** The order of the store *)

Lemma key_compare_eq (k1 k2 k3 : list QByteArray) :
  key_compare k1 k2 = Eq -> key_compare k1 k3 = key_compare k2 k3.
Proof. apply lex_eq, bytes_compare_eq. Qed.

Lemma key_compare_refl (k : list QByteArray) : key_compare k k = Eq.
Proof.
  pose proof (key_compare_antisym k k) as H.
  destruct (key_compare k k); try reflexivity; discriminate H.
Qed.

Lemma DataRow_lt_false (a b : DataRow) :
  DataRow_lt a b = false
  <-> key_compare (map c_str (cells a)) (map c_str (cells b)) <> Lt.
Proof.
  rewrite <- DataRow_lt_key. destruct (DataRow_lt a b); split;
    congruence.
Qed.

(** X17.  [operator<] is a strict weak ordering, as [std::multiset]
    asks of its comparison: no row is less than itself, the relation is
    transitive, and so is the equivalence of the rows neither of which
    is less than the other. *)
Theorem DataRow_lt_strict_weak_order :
  (forall a, DataRow_lt a a = false) /\
  (forall a b c, DataRow_lt a b = true -> DataRow_lt b c = true ->
                 DataRow_lt a c = true) /\
  (forall a b c,
     DataRow_lt a b = false -> DataRow_lt b a = false ->
     DataRow_lt b c = false -> DataRow_lt c b = false ->
     DataRow_lt a c = false /\ DataRow_lt c a = false).
Proof.
  split; [|split].
  - intros a. apply DataRow_lt_false. rewrite key_compare_refl. discriminate.
  - exact DataRow_lt_trans.
  - intros a b c Hab Hba Hbc Hcb.
    apply DataRow_lt_false in Hab, Hba, Hbc, Hcb.
    rewrite !DataRow_lt_false.
    set (ka := map c_str (cells a)) in *.
    set (kb := map c_str (cells b)) in *.
    set (kc := map c_str (cells c)) in *.
    assert (Eab : key_compare ka kb = Eq).
    { rewrite (key_compare_antisym ka kb) in Hba.
      destruct (key_compare ka kb); cbn in *; congruence. }
    assert (Ebc : key_compare kb kc = Eq).
    { rewrite (key_compare_antisym kb kc) in Hcb.
      destruct (key_compare kb kc); cbn in *; congruence. }
    assert (Eac : key_compare ka kc = Eq)
      by (rewrite (key_compare_eq ka kb kc Eab); exact Ebc).
    split; [rewrite Eac; discriminate|].
    rewrite (key_compare_antisym ka kc), Eac. discriminate.
Qed.

(** * The command line *)

Lemma identifyCommand_values (cmd : string) :
  In (identifyCommand cmd) [5; 6; 3; CMD_HELP; CMD_NOTHING].
Proof.
  unfold identifyCommand.
  destruct (String.eqb cmd "open"); [cbn; tauto|].
  destruct (String.eqb cmd "new"); [cbn; tauto|].
  destruct (String.eqb cmd "chpass"); [cbn; tauto|].
  destruct (existsb (String.eqb cmd) helpKeywords); cbn; tauto.
Qed.


(** * The application *)

Lemma read_rows_in_order (fuel : nat) :
  forall p acc, in_order acc -> in_order (read_rows fuel p acc).
Proof.
  induction fuel as [|fuel IH]; intros p acc Hacc; [exact Hacc|].
  destruct p as [|b p]; [exact Hacc|].
  rewrite read_rows_step by discriminate.
  apply IH, multiset_insert_in_order, Hacc.
Qed.

Lemma decode_db_in_order (payload : QByteArray) (rows : list DataRow) :
  decode_db payload = Some rows -> in_order rows.
Proof.
  intros H. apply decode_db_accepted in H.
  destruct H as (len & rest & _ & _ & ->).
  apply read_rows_in_order. constructor.
Qed.

(** X19.  Whatever the file holds, a [readDbFile] that returns [true]
    leaves the store in order: no row is less than an earlier one. *)
Theorem readDbFile_store_in_order
    (EVP_decrypt : QByteArray -> QByteArray -> QByteArray -> QByteArray ->
                   option (QByteArray * Z))
    (disk : option QByteArray) (st st' : StorageEngine) :
  readDbFile EVP_decrypt disk st = (true, st') -> in_order (data st').
Proof.
  unfold readDbFile, readFileContent.
  destruct disk as [fileContent|]; [|discriminate].
  destruct (decryptData EVP_decrypt (key st) fileContent) as [payload|];
    [|discriminate].
  destruct (decode_db payload) as [rows|] eqn:Hrows; [|discriminate].
  intros [= <-]. cbn [set_data data]. exact (decode_db_in_order _ _ Hrows).
Qed.

Section AskPassword.

Variable passwordDialog : nat -> option string.

Lemma mismatched_shift (k j : nat) :
  mismatched passwordDialog k (S j) ->
  (exists pass1 pass2,
     passwordDialog k = Some pass1 /\ passwordDialog (S k) = Some pass2 /\
     pass1 <> pass2) /\
  mismatched passwordDialog (S (S k)) j.
Proof.
  intros H. split.
  - destruct (H 0%nat) as (p1 & p2 & H1 & H2 & Hne); [lia|].
    replace (k + 2 * 0)%nat with k in * by lia.
    replace (k + 1)%nat with (S k) in H2 by lia.
    exists p1, p2. auto.
  - intros i Hi. destruct (H (S i)) as (p1 & p2 & H1 & H2 & Hne); [lia|].
    replace (k + 2 * S i)%nat with (S (S k) + 2 * i)%nat in * by lia.
    exists p1, p2. auto.
Qed.

Lemma mismatched_cons (k j : nat) (pass1 pass2 : string) :
  passwordDialog k = Some pass1 -> passwordDialog (S k) = Some pass2 ->
  pass1 <> pass2 -> mismatched passwordDialog (S (S k)) j ->
  mismatched passwordDialog k (S j).
Proof.
  intros H1 H2 Hne H i Hi. destruct i as [|i].
  - replace (k + 2 * 0)%nat with k by lia.
    replace (k + 1)%nat with (S k) by lia. exists pass1, pass2. auto.
  - destruct (H i) as (p1 & p2 & Hp1 & Hp2 & Hp); [lia|].
    replace (k + 2 * S i)%nat with (S (S k) + 2 * i)%nat by lia.
    exists p1, p2. auto.
Qed.

(** The loop skips the pairs of answers that differ. *)
Lemma askSetNewPassword_loop_skip (j : nat) :
  forall k n,
    mismatched passwordDialog k j ->
    askSetNewPassword_loop passwordDialog (j + n) k
    = askSetNewPassword_loop passwordDialog n (k + 2 * j).
Proof.
  induction j as [|j IH]; intros k n Hmis.
  - replace (k + 2 * 0)%nat with k by lia. reflexivity.
  - apply mismatched_shift in Hmis.
    destruct Hmis as [(p1 & p2 & H1 & H2 & Hne) Hmis].
    cbn [Nat.add askSetNewPassword_loop]. rewrite H1, H2.
    destruct (String.eqb_spec p1 p2) as [?|_]; [contradiction|].
    rewrite IH by exact Hmis. f_equal. lia.
Qed.

Lemma askSetNewPassword_loop_confirmed (fuel : nat) :
  forall k pass k',
    askSetNewPassword_loop passwordDialog fuel k = Some (Some pass, k') ->
    exists j,
      mismatched passwordDialog k j /\
      passwordDialog (k + 2 * j)%nat = Some pass /\
      passwordDialog (k + 2 * j + 1)%nat = Some pass /\
      k' = (k + 2 * j + 2)%nat.
Proof.
  induction fuel as [|fuel IH]; intros k pass k' H; [discriminate|].
  cbn [askSetNewPassword_loop] in H.
  destruct (passwordDialog k) as [p1|] eqn:H1; [|discriminate].
  destruct (passwordDialog (S k)) as [p2|] eqn:H2; [|discriminate].
  destruct (String.eqb_spec p1 p2) as [<-|Hne].
  - injection H as <- <-. exists 0%nat.
    replace (k + 2 * 0)%nat with k by lia.
    replace (k + 1)%nat with (S k) by lia.
    split; [intros i Hi; lia|]. split; [exact H1|]. split; [exact H2|]. lia.
  - destruct (IH _ _ _ H) as (j & Hmis & Ha & Hb & ->).
    exists (S j).
    replace (k + 2 * S j)%nat with (S (S k) + 2 * j)%nat by lia.
    split; [exact (mismatched_cons k j p1 p2 H1 H2 Hne Hmis)|].
    split; [exact Ha|]. split; [exact Hb|]. lia.
Qed.

End AskPassword.

Lemma readDbFile_store_in_order_witness :
  readDbFile sample_decrypt
    (snd (writeDbFile sample_iv sample_encrypt None "vault.db_0"
            sample_store None))
    sample_engine
  = (true, set_data sample_engine [row_bank; row_gmail]) /\
  in_order (data (set_data sample_engine [row_bank; row_gmail])).
Proof.
  assert (H1 : readDbFile sample_decrypt
                 (snd (writeDbFile sample_iv sample_encrypt None "vault.db_0"
                         sample_store None))
                 sample_engine
               = (true, set_data sample_engine [row_bank; row_gmail]))
    by (vm_compute; reflexivity).
  split; [exact H1|].
  exact (readDbFile_store_in_order sample_decrypt _ sample_engine _ H1).
Defined.

Lemma askSetNewPassword_key
    (passwordDialog : nat -> option string) (toUtf8 : string -> QByteArray)
    (PKCS5_PBKDF2_HMAC : QByteArray -> Z -> option QByteArray)
    (key_left : QByteArray -> QByteArray)
    (fuel : nat) (storage storage' : StorageEngine) (k k' : nat) :
  askSetNewPassword passwordDialog toUtf8 PKCS5_PBKDF2_HMAC key_left
                    fuel storage k = Some (true, storage', k') ->
  exists pass,
    askSetNewPassword_loop passwordDialog fuel k = Some (Some pass, k') /\
    PKCS5_PBKDF2_HMAC (toUtf8 pass) EVP_CIPHER_key_length
      = Some (key storage') /\
    data storage' = data storage /\
    dbFileName storage' = dbFileName storage /\
    errorDescription storage' = errorDescription storage.
Proof.
  unfold askSetNewPassword.
  destruct (askSetNewPassword_loop passwordDialog fuel k)
    as [[[pass|] k1]|] eqn:Hloop; try discriminate.
  unfold setPassword.
  destruct (PKCS5_PBKDF2_HMAC (toUtf8 pass) EVP_CIPHER_key_length)
    as [derived|] eqn:Hkdf; [|discriminate].
  intros [= <- <-].
  exists pass. cbn [key data dbFileName errorDescription]. auto.
Qed.

(** X20.  [askSetNewPassword] returns [true] only behind a password
    that was entered twice in a row: all the pairs of answers before
    differ, the key of the engine is the key derived from that password,
    and the store and the file name of the engine are as before. *)
Theorem askSetNewPassword_confirmed
    (passwordDialog : nat -> option string) (toUtf8 : string -> QByteArray)
    (PKCS5_PBKDF2_HMAC : QByteArray -> Z -> option QByteArray)
    (key_left : QByteArray -> QByteArray)
    (fuel : nat) (storage storage' : StorageEngine) (k k' : nat) :
  askSetNewPassword passwordDialog toUtf8 PKCS5_PBKDF2_HMAC key_left
                    fuel storage k = Some (true, storage', k') ->
  exists pass j,
    mismatched passwordDialog k j /\
    passwordDialog (k + 2 * j)%nat = Some pass /\
    passwordDialog (k + 2 * j + 1)%nat = Some pass /\
    k' = (k + 2 * j + 2)%nat /\
    PKCS5_PBKDF2_HMAC (toUtf8 pass) EVP_CIPHER_key_length
      = Some (key storage') /\
    data storage' = data storage /\
    dbFileName storage' = dbFileName storage /\
    errorDescription storage' = errorDescription storage.
Proof.
  intros Hask.
  destruct (askSetNewPassword_key _ _ _ _ _ _ _ _ _ Hask)
    as (pass & Hloop & Hkdf & Hdata & Hname & Herr).
  destruct (askSetNewPassword_loop_confirmed passwordDialog fuel k pass k'
              Hloop) as (j & Hmis & Ha & Hb & Hk).
  exists pass, j. auto 10.
Qed.

Lemma askSetNewPassword_confirmed_witness :
  askSetNewPassword sample_dialogs bytes sample_kdf (fun key => key)
                    2 sample_engine 1
  = Some (true,
          mkStorageEngine [] "vault.db" EmptyString (repeat x6e 32), 5%nat) /\
  exists pass j,
    mismatched sample_dialogs 1 j /\
    sample_dialogs (1 + 2 * j)%nat = Some pass /\
    sample_dialogs (1 + 2 * j + 1)%nat = Some pass /\
    5%nat = (1 + 2 * j + 2)%nat /\
    sample_kdf (bytes pass) EVP_CIPHER_key_length
      = Some (key (mkStorageEngine [] "vault.db" EmptyString (repeat x6e 32)))
    /\
    data (mkStorageEngine [] "vault.db" EmptyString (repeat x6e 32))
      = data sample_engine /\
    dbFileName (mkStorageEngine [] "vault.db" EmptyString (repeat x6e 32))
      = dbFileName sample_engine /\
    errorDescription (mkStorageEngine [] "vault.db" EmptyString (repeat x6e 32))
      = errorDescription sample_engine.
Proof.
  assert (H1 : askSetNewPassword sample_dialogs bytes sample_kdf
                 (fun key => key) 2 sample_engine 1
               = Some (true,
                       mkStorageEngine [] "vault.db" EmptyString
                                       (repeat x6e 32), 5%nat))
    by (vm_compute; reflexivity).
  split; [exact H1|].
  exact (askSetNewPassword_confirmed sample_dialogs bytes sample_kdf
           (fun key => key) 2 sample_engine _ 1 5 H1).
Defined.

(** X21.  [askSetNewPassword] ends as soon as a pair of dialogs is
    decisive: behind [j] pairs of answers that differ, more than [j]
    turns of its loop give its result.  It then sets the password that
    is entered twice, and returns [false], with the engine untouched,
    when the first or the second dialog of the pair is dismissed. *)
Theorem askSetNewPassword_ends
    (passwordDialog : nat -> option string) (toUtf8 : string -> QByteArray)
    (PKCS5_PBKDF2_HMAC : QByteArray -> Z -> option QByteArray)
    (key_left : QByteArray -> QByteArray)
    (fuel : nat) (storage : StorageEngine) (k j : nat) :
  mismatched passwordDialog k j -> (j < fuel)%nat ->
  match passwordDialog (k + 2 * j)%nat,
        passwordDialog (k + 2 * j + 1)%nat with
  | None, _ =>
    askSetNewPassword passwordDialog toUtf8 PKCS5_PBKDF2_HMAC key_left
                      fuel storage k
    = Some (false, storage, (k + 2 * j + 1)%nat)
  | Some _, None =>
    askSetNewPassword passwordDialog toUtf8 PKCS5_PBKDF2_HMAC key_left
                      fuel storage k
    = Some (false, storage, (k + 2 * j + 2)%nat)
  | Some pass1, Some pass2 =>
    pass1 = pass2 ->
    askSetNewPassword passwordDialog toUtf8 PKCS5_PBKDF2_HMAC key_left
                      fuel storage k
    = Some (setPassword toUtf8 PKCS5_PBKDF2_HMAC key_left pass1 storage,
            (k + 2 * j + 2)%nat)
  end.
Proof.
  intros Hmis Hfuel. unfold askSetNewPassword.
  replace fuel with (j + S (fuel - S j))%nat by lia.
  rewrite (askSetNewPassword_loop_skip passwordDialog j k _ Hmis).
  cbn [askSetNewPassword_loop].
  replace (k + 2 * j + 1)%nat with (S (k + 2 * j)) by lia.
  replace (k + 2 * j + 2)%nat with (S (S (k + 2 * j))) by lia.
  destruct (passwordDialog (k + 2 * j)%nat) as [pass1|]; [|reflexivity].
  destruct (passwordDialog (S (k + 2 * j))) as [pass2|]; [|reflexivity].
  intros <-. rewrite String.eqb_refl.
  destruct (setPassword toUtf8 PKCS5_PBKDF2_HMAC key_left pass1 storage).
  reflexivity.
Qed.

Lemma askSetNewPassword_ends_witness :
  mismatched sample_dialogs 1 1 /\ (1 < 2)%nat /\
  match sample_dialogs (1 + 2 * 1)%nat,
        sample_dialogs (1 + 2 * 1 + 1)%nat with
  | None, _ =>
    askSetNewPassword sample_dialogs bytes sample_kdf (fun key => key)
                      2 sample_engine 1
    = Some (false, sample_engine, (1 + 2 * 1 + 1)%nat)
  | Some _, None =>
    askSetNewPassword sample_dialogs bytes sample_kdf (fun key => key)
                      2 sample_engine 1
    = Some (false, sample_engine, (1 + 2 * 1 + 2)%nat)
  | Some pass1, Some pass2 =>
    pass1 = pass2 ->
    askSetNewPassword sample_dialogs bytes sample_kdf (fun key => key)
                      2 sample_engine 1
    = Some (setPassword bytes sample_kdf (fun key => key) pass1 sample_engine,
            (1 + 2 * 1 + 2)%nat)
  end.
Proof.
  assert (H1 : mismatched sample_dialogs 1 1).
  { intros i Hi. assert (i = 0%nat) as -> by lia.
    exists "new"%string, "mew"%string.
    split; [reflexivity|]. split; [reflexivity | discriminate]. }
  assert (H2 : (1 < 2)%nat) by lia.
  split; [exact H1|]. split; [exact H2|].
  exact (askSetNewPassword_ends sample_dialogs bytes sample_kdf
           (fun key => key) 2 sample_engine 1 1 H1 H2).
Defined.

Lemma parse_chpass (file_exists : string -> bool) (argv0 fileName : string) :
  parse_arguments file_exists [argv0; "chpass"%string; fileName]
  = Proceed (Z.lor CMD_OPEN CMD_NEWPASS) fileName.
Proof. reflexivity. Qed.

(** X22.  Changing the master password keeps the records: when [main]
    on the command chpass returns 0, the store was opened with the
    password of the first dialog, the new password was entered twice in
    a row, and the file left behind opens with the new password as the
    store that was read, less the rows with four empty cells.  (Stores
    whose frame size fits an [int]; any cipher whose decryption undoes
    its encryption.) *)
Theorem main_chpass_keeps_records
    (passwordDialog : nat -> option string)
    (fileDialog : bool -> option string)
    (toUtf8 : string -> QByteArray)
    (PKCS5_PBKDF2_HMAC : QByteArray -> Z -> option QByteArray)
    (key_left : QByteArray -> QByteArray)
    (RAND_bytes_iv : option QByteArray)
    (EVP_encrypt : QByteArray -> QByteArray -> QByteArray ->
                   option (QByteArray * Z * QByteArray))
    (EVP_decrypt : QByteArray -> QByteArray -> QByteArray -> QByteArray ->
                   option (QByteArray * Z))
    (fs_refuses : option fs_refusal) (newFileName : string)
    (file_exists : string -> bool)
    (file_content : string -> option QByteArray)
    (fuel : nat) (argv0 fileName : string) (disk' : option QByteArray) :
  iv_sized RAND_bytes_iv -> mac_sized EVP_encrypt ->
  cipher_inverse EVP_encrypt EVP_decrypt ->
  main passwordDialog fileDialog toUtf8 PKCS5_PBKDF2_HMAC key_left
       RAND_bytes_iv EVP_encrypt EVP_decrypt fs_refuses newFileName
       file_exists file_content fuel [argv0; "chpass"%string; fileName]
    = Some (MainReturn 0 (Some disk')) ->
  exists old new loaded newkey,
    passwordDialog 0%nat = Some old /\
    loadDataFile passwordDialog toUtf8 PKCS5_PBKDF2_HMAC key_left EVP_decrypt
                 (StorageEngine_new fileName) (file_content fileName) 0
      = (true, loaded, 1%nat) /\
    (exists j, mismatched passwordDialog 1 j /\
               passwordDialog (1 + 2 * j)%nat = Some new /\
               passwordDialog (1 + 2 * j + 1)%nat = Some new) /\
    PKCS5_PBKDF2_HMAC (toUtf8 new) EVP_CIPHER_key_length = Some newkey /\
    (rows_volume (data loaded) < INT_MAX ->
     forall passwordDialog2 : nat -> option string,
       passwordDialog2 0%nat = Some new ->
       loadDataFile passwordDialog2 toUtf8 PKCS5_PBKDF2_HMAC key_left
                    EVP_decrypt (StorageEngine_new fileName) disk' 0
       = (true,
          mkStorageEngine (stored_rows (data loaded)) fileName EmptyString
                          newkey,
          1%nat)).
Proof.
  intros Hiv Hmac Hinv. unfold main. rewrite parse_chpass. cbv zeta.
  change (Z.land (Z.lor CMD_OPEN CMD_NEWPASS) CMD_FILEDLG =? 0) with true.
  change (Z.land (Z.lor CMD_OPEN CMD_NEWPASS) CMD_OPEN =? 0) with false.
  change (Z.land (Z.lor CMD_OPEN CMD_NEWPASS) CMD_NEWPASS =? 0) with false.
  change (Z.land (Z.lor CMD_OPEN CMD_NEWPASS) CMD_EDIT =? 0) with true.
  cbn [negb].
  destruct (loadDataFile passwordDialog toUtf8 PKCS5_PBKDF2_HMAC key_left
              EVP_decrypt (StorageEngine_new fileName) (file_content fileName)
              0) as [[ok1 st1] k1] eqn:Hload.
  destruct ok1; cbn [negb]; [|discriminate].
  destruct (askSetNewPassword passwordDialog toUtf8 PKCS5_PBKDF2_HMAC key_left
              fuel st1 k1) as [[[ok2 st2] k2]|] eqn:Hask; [|discriminate].
  destruct ok2; [|discriminate].
  destruct (writeDbFile RAND_bytes_iv EVP_encrypt fs_refuses newFileName st2
              (file_content fileName)) as [[ok3 st3] disk3] eqn:Hsave.
  destruct ok3; [|discriminate]. intros [= <-].
  (* the store was opened *)
  assert (Hopen : exists old st0,
            passwordDialog 0%nat = Some old /\ k1 = 1%nat /\
            readDbFile EVP_decrypt (file_content fileName) st0 = (true, st1) /\
            dbFileName st0 = fileName /\ errorDescription st0 = EmptyString).
  { unfold loadDataFile in Hload.
    destruct (passwordDialog 0%nat) as [old|]; [|discriminate].
    unfold setPassword in Hload.
    destruct (PKCS5_PBKDF2_HMAC (toUtf8 old) EVP_CIPHER_key_length)
      as [derived|]; cbn [negb] in Hload; [|discriminate].
    destruct (readDbFile EVP_decrypt (file_content fileName) _)
      as [ok st] eqn:Hread.
    injection Hload as -> -> <-.
    eexists old, _. split; [reflexivity|]. split; [reflexivity|].
    split; [exact Hread|]. split; reflexivity. }
  destruct Hopen as (old & st0 & Hold & -> & Hread & Hname0 & Herr0).
  assert (Hst1 : dbFileName st1 = fileName /\
                 errorDescription st1 = EmptyString /\ in_order (data st1)).
  { unfold readDbFile, readFileContent in Hread.
    destruct (file_content fileName) as [content|]; [|discriminate].
    destruct (decryptData EVP_decrypt (key st0) content) as [payload|];
      [|discriminate].
    destruct (decode_db payload) as [rows|] eqn:Hrows; [|discriminate].
    injection Hread as <-. cbn.
    pose proof (decode_db_in_order _ _ Hrows). auto. }
  destruct Hst1 as (Hname1 & Herr1 & Hord).
  (* the new password was confirmed *)
  destruct (askSetNewPassword_key _ _ _ _ _ _ _ _ _ Hask)
    as (new & Hloop & Hkdf & Hdata & Hname2 & Herr2).
  destruct (askSetNewPassword_loop_confirmed _ _ _ _ _ Hloop)
    as (j & Hmis & Ha & Hb & _).
  exists old, new, st1, (key st2).
  split; [exact Hold|]. split; [reflexivity|].
  split; [exists j; auto|]. split; [exact Hkdf|].
  intros Hfit passwordDialog2 Hnew.
  unfold loadDataFile. rewrite Hnew. unfold setPassword. rewrite Hkdf.
  cbn [negb data dbFileName errorDescription StorageEngine_new].
  rewrite <- Hdata in Hord, Hfit |- *.
  destruct (writeDbFile_readDbFile _ _ EVP_decrypt _ _ st2 st3
              (mkStorageEngine [] fileName EmptyString (key st2))
              _ _ Hiv Hmac Hinv Hord Hfit Hsave eq_refl) as [_ Hback].
  rewrite Hback. reflexivity.
Qed.

Lemma main_chpass_keeps_records_witness :
  iv_sized sample_iv /\ mac_sized sample_encrypt /\
  cipher_inverse sample_encrypt sample_decrypt /\
  main sample_dialogs (fun _ => None) bytes sample_kdf (fun key => key)
       sample_iv sample_encrypt sample_decrypt None "vault.db_0"
       (fun _ => true) sample_files 3
       ["passkeeper"; "chpass"; "vault.db"]%string
    = Some (MainReturn 0 (Some sample_file_new)) /\
  exists old new loaded newkey,
    sample_dialogs 0%nat = Some old /\
    loadDataFile sample_dialogs bytes sample_kdf (fun key => key)
                 sample_decrypt (StorageEngine_new "vault.db")
                 (sample_files "vault.db") 0
      = (true, loaded, 1%nat) /\
    (exists j, mismatched sample_dialogs 1 j /\
               sample_dialogs (1 + 2 * j)%nat = Some new /\
               sample_dialogs (1 + 2 * j + 1)%nat = Some new) /\
    sample_kdf (bytes new) EVP_CIPHER_key_length = Some newkey /\
    (rows_volume (data loaded) < INT_MAX ->
     forall passwordDialog2 : nat -> option string,
       passwordDialog2 0%nat = Some new ->
       loadDataFile passwordDialog2 bytes sample_kdf (fun key => key)
                    sample_decrypt (StorageEngine_new "vault.db")
                    sample_file_new 0
       = (true,
          mkStorageEngine (stored_rows (data loaded)) "vault.db" EmptyString
                          newkey,
          1%nat)).
Proof.
  assert (H4 : main sample_dialogs (fun _ => None) bytes sample_kdf
                 (fun key => key) sample_iv sample_encrypt sample_decrypt
                 None "vault.db_0" (fun _ => true) sample_files 3
                 ["passkeeper"; "chpass"; "vault.db"]%string
               = Some (MainReturn 0 (Some sample_file_new)))
    by (vm_compute; reflexivity).
  split; [exact sample_iv_sized|]. split; [exact sample_mac_sized|].
  split; [exact sample_cipher_inverse|]. split; [exact H4|].
  exact (main_chpass_keeps_records sample_dialogs (fun _ => None) bytes
           sample_kdf (fun key => key) sample_iv sample_encrypt sample_decrypt
           None "vault.db_0" (fun _ => true) sample_files 3
           "passkeeper" "vault.db" sample_file_new
           sample_iv_sized sample_mac_sized sample_cipher_inverse H4).
Defined.

Lemma parse_arguments_commands (file_exists : string -> bool)
    (argv : list string) (appCommand : Z) (fileName : string) :
  parse_arguments file_exists argv = Proceed appCommand fileName ->
  In appCommand [0x16; 0x05; 0x06; 0x03; 0x15; 0x13].
Proof.
  destruct argv as [|argv0 [|argv1 rest]]; cbn [parse_arguments].
  - discriminate.
  - intros [= <- _]. left. reflexivity.
  - cbv zeta. pose proof (identifyCommand_values argv1) as Hv.
    destruct (Z.eqb_spec (Z.land (identifyCommand argv1) CMD_HELP) 0)
      as [Hnohelp|_]; cbn [negb]; [|discriminate].
    destruct (Z.eqb_spec CMD_NOTHING (identifyCommand argv1)) as [Hnone|Hsome];
      cbn [negb].
    + destruct ((length (argv0 :: argv1 :: rest) =? 2)%nat
                && file_exists argv1); [|discriminate].
      intros [= <- _]. right; left. reflexivity.
    + destruct rest as [|argv2 rest]; intros [= <- _];
        destruct Hv as [Hv|[Hv|[Hv|[Hv|[Hv|[]]]]]]; rewrite <- Hv in *;
        try discriminate Hnohelp; try (destruct Hsome; reflexivity);
        cbn; tauto.
Qed.

Lemma loadDataFile_true
    (passwordDialog : nat -> option string) (toUtf8 : string -> QByteArray)
    (PKCS5_PBKDF2_HMAC : QByteArray -> Z -> option QByteArray)
    (key_left : QByteArray -> QByteArray)
    (EVP_decrypt : QByteArray -> QByteArray -> QByteArray -> QByteArray ->
                   option (QByteArray * Z))
    (storage storage' : StorageEngine) (disk : option QByteArray) (k k' : nat) :
  loadDataFile passwordDialog toUtf8 PKCS5_PBKDF2_HMAC key_left EVP_decrypt
               storage disk k = (true, storage', k') ->
  exists pass,
    passwordDialog k = Some pass /\
    PKCS5_PBKDF2_HMAC (toUtf8 pass) EVP_CIPHER_key_length
      = Some (key storage') /\
    dbFileName storage' = dbFileName storage /\
    in_order (data storage').
Proof.
  unfold loadDataFile.
  destruct (passwordDialog k) as [pass|]; [|discriminate].
  unfold setPassword.
  destruct (PKCS5_PBKDF2_HMAC (toUtf8 pass) EVP_CIPHER_key_length)
    as [derived|] eqn:Hkdf; cbn [negb]; [|discriminate].
  destruct (readDbFile EVP_decrypt disk _) as [ok st] eqn:Hread.
  intros [= -> <- _].
  exists pass. split; [reflexivity|].
  unfold readDbFile, readFileContent in Hread.
  destruct disk as [content|]; [|discriminate].
  destruct (decryptData EVP_decrypt _ content) as [payload|]; [|discriminate].
  destruct (decode_db payload) as [rows|] eqn:Hrows; [|discriminate].
  injection Hread as <-. cbn.
  pose proof (decode_db_in_order _ _ Hrows). auto.
Qed.

(** X23.  [main] shows the editing window only on an engine whose key
    was derived from a password entered in a dialog of the run, and it
    has not written the file by then: the window gets the file as it
    was found, and a store in order. *)
Theorem main_window_has_key
    (passwordDialog : nat -> option string)
    (fileDialog : bool -> option string)
    (toUtf8 : string -> QByteArray)
    (PKCS5_PBKDF2_HMAC : QByteArray -> Z -> option QByteArray)
    (key_left : QByteArray -> QByteArray)
    (RAND_bytes_iv : option QByteArray)
    (EVP_encrypt : QByteArray -> QByteArray -> QByteArray ->
                   option (QByteArray * Z * QByteArray))
    (EVP_decrypt : QByteArray -> QByteArray -> QByteArray -> QByteArray ->
                   option (QByteArray * Z))
    (fs_refuses : option fs_refusal) (newFileName : string)
    (file_exists : string -> bool)
    (file_content : string -> option QByteArray)
    (fuel : nat) (argv : list string)
    (storage : StorageEngine) (disk : option QByteArray) :
  main passwordDialog fileDialog toUtf8 PKCS5_PBKDF2_HMAC key_left
       RAND_bytes_iv EVP_encrypt EVP_decrypt fs_refuses newFileName
       file_exists file_content fuel argv
    = Some (MainWindow_shown storage disk) ->
  (exists k pass,
     passwordDialog k = Some pass /\
     PKCS5_PBKDF2_HMAC (toUtf8 pass) EVP_CIPHER_key_length
       = Some (key storage)) /\
  disk = file_content (dbFileName storage) /\
  in_order (data storage).
Proof.
  unfold main.
  destruct (parse_arguments file_exists argv) as [code|appCommand fileName]
    eqn:Hparse; [discriminate|].
  apply parse_arguments_commands in Hparse. cbv zeta.
  destruct (if negb (Z.land appCommand CMD_FILEDLG =? 0)
            then fileDialog (Z.land appCommand CMD_OPEN =? 0)
            else Some fileName) as [file|]; [|discriminate].
  clear fileName.
  destruct Hparse as [<-|[<-|[<-|[<-|[<-|[<-|[]]]]]]].
  all: repeat
    match goal with
    | |- context [Z.land ?c ?f =? 0] =>
      let b := eval vm_compute in (Z.land c f =? 0) in
      change (Z.land c f =? 0) with b
    end.
  all: cbn [negb].
  all: repeat
    match goal with
    | |- context [loadDataFile ?d ?u ?p ?l ?e ?s ?c ?n] =>
      let H := fresh "Hload" in
      destruct (loadDataFile d u p l e s c n) as [[[|] ?st] ?k] eqn:H;
      cbn [negb]; [apply loadDataFile_true in H|discriminate]
    | |- context [askSetNewPassword ?d ?u ?p ?l ?f ?s ?n] =>
      let H := fresh "Hask" in
      destruct (askSetNewPassword d u p l f s n) as [[[[|] ?st] ?k]|] eqn:H;
      [apply askSetNewPassword_key in H|discriminate|discriminate]
    | |- context [writeDbFile ?a ?b ?c ?d ?e ?f] =>
      destruct (writeDbFile a b c d e f) as [[[|] ?] ?]
    end;
    try discriminate.
  all: intros [= <- <-].
  all: repeat
    match goal with
    | H : exists _, _ |- _ => destruct H
    | H : _ /\ _ |- _ => destruct H
    | H : askSetNewPassword_loop _ _ _ = Some (Some _, _) |- _ =>
      apply askSetNewPassword_loop_confirmed in H
    end.
  all: cbn [StorageEngine_new dbFileName data] in *.
  all: repeat split;
    try (eexists _, _; split; eassumption);
    try (f_equal; congruence);
    try assumption;
    try (unfold in_order; congruence || (replace (data _) with (@nil DataRow) by congruence; constructor)).
Qed.

Lemma main_window_has_key_witness :
  main sample_dialogs (fun _ => None) bytes sample_kdf (fun key => key)
       sample_iv sample_encrypt sample_decrypt None "vault.db_0"
       (fun _ => true) sample_files 3
       ["passkeeper"; "open"; "vault.db"]%string
    = Some (MainWindow_shown
              (mkStorageEngine [row_bank; row_gmail] "vault.db" EmptyString
                               (repeat x6f 32))
              (sample_files "vault.db")) /\
  (exists k pass,
     sample_dialogs k = Some pass /\
     sample_kdf (bytes pass) EVP_CIPHER_key_length
       = Some (key (mkStorageEngine [row_bank; row_gmail] "vault.db"
                                    EmptyString (repeat x6f 32)))) /\
  sample_files "vault.db"
    = sample_files
        (dbFileName (mkStorageEngine [row_bank; row_gmail] "vault.db"
                                     EmptyString (repeat x6f 32))) /\
  in_order (data (mkStorageEngine [row_bank; row_gmail] "vault.db"
                                  EmptyString (repeat x6f 32))).
Proof.
  assert (H1 : main sample_dialogs (fun _ => None) bytes sample_kdf
                 (fun key => key) sample_iv sample_encrypt sample_decrypt
                 None "vault.db_0" (fun _ => true) sample_files 3
                 ["passkeeper"; "open"; "vault.db"]%string
               = Some (MainWindow_shown
                         (mkStorageEngine [row_bank; row_gmail] "vault.db"
                                          EmptyString (repeat x6f 32))
                         (sample_files "vault.db")))
    by (vm_compute; reflexivity).
  split; [exact H1|].
  exact (main_window_has_key sample_dialogs (fun _ => None) bytes sample_kdf
           (fun key => key) sample_iv sample_encrypt sample_decrypt None
           "vault.db_0" (fun _ => true) sample_files 3
           ["passkeeper"; "open"; "vault.db"]%string _ _ H1).
Defined.

(** ** The bits spent *)

Lemma spends_ret {A} (a : A) (Q : A -> Prop) : Q a -> spends (ret a) 0 Q.
Proof. intros Ha st Hinv. exists a, st. rewrite Z.add_0_r. auto. Qed.

Lemma spends_bind {A B} (m : Run A) (k : A -> Run B) (n1 n2 : Z)
    (P : A -> Prop) (Q : B -> Prop) :
  spends m n1 P -> (forall a, P a -> spends (k a) n2 Q) ->
  spends (bind m k) (n1 + n2) Q.
Proof.
  intros Hm Hk st Hinv. unfold bind.
  destruct (Hm st Hinv) as (a & st1 & -> & Hinv1 & Hc1 & Ha).
  destruct (Hk a Ha st1 Hinv1) as (b & st2 & Hrun & Hinv2 & Hc2 & Hb).
  exists b, st2. split; [exact Hrun|]. split; [exact Hinv2|].
  split; [lia | exact Hb].
Qed.

Lemma spends_eq {A} (m : Run A) (n n' : Z) (Q : A -> Prop) :
  n = n' -> spends m n Q -> spends m n' Q.
Proof. intros ->. auto. Qed.

Section BitsSpent.

Variable RAND_bytes : nat -> option (list Z).
Hypothesis RAND_bytes_ok : csprng_ok RAND_bytes.
Hypothesis RAND_bytes_up : csprng_up RAND_bytes.

Lemma spends_getBits (n : Z) :
  1 <= n <= 32 ->
  spends (getBits RAND_bytes n) n
         (fun r => exists t, r = Some t /\ 0 <= t < 2 ^ n).
Proof.
  intros Hn st Hinv.
  destruct (getBits_ok RAND_bytes RAND_bytes_ok n st Hinv Hn)
    as (r & st' & Hrun & Hinv' & Hval & _).
  assert (Hps : 0 <= poolSize st <= 256) by (destruct Hinv as (_ & _ & ? & _); lia).
  destruct (Z.lt_ge_cases (poolSize st) n) as [Hlt|Hge].
  - destruct (RAND_bytes (refills st)) as [fresh|] eqn:Hfresh;
      [|destruct (RAND_bytes_up _ Hfresh)].
    destruct (getBits_refilled RAND_bytes n st fresh RAND_bytes_ok Hinv Hn Hlt
                Hfresh) as (st1 & Hrun1 & _ & Hps1 & _ & Href1).
    rewrite Hrun in Hrun1. injection Hrun1 as -> <-.
    eexists _, st'. split; [exact Hrun|]. split; [exact Hinv'|].
    split; [unfold consumed; rewrite Hps1, Href1; lia|].
    eexists. split; [reflexivity|]. apply Hval. reflexivity.
  - destruct (getBits_plain RAND_bytes n st Hinv Hn Hge)
      as (st1 & Hrun1 & _ & Hps1 & _ & Href1).
    rewrite Hrun in Hrun1. injection Hrun1 as -> <-.
    eexists _, st'. split; [exact Hrun|]. split; [exact Hinv'|].
    split; [unfold consumed; rewrite Hps1, Href1; lia|].
    eexists. split; [reflexivity|]. apply Hval. reflexivity.
Qed.

Lemma spends_makeNumber (modulo : Z) :
  0 < modulo ->
  spends (makeNumber RAND_bytes modulo) 64 (fun t => 0 <= t < modulo).
Proof.
  intros Hm. unfold makeNumber.
  apply (spends_eq _ (32 + (32 + 0))); [reflexivity|].
  eapply spends_bind; [apply spends_getBits; lia|].
  intros lo' (lo & -> & Hlo).
  eapply spends_bind; [apply spends_getBits; lia|].
  intros hi' (hi & -> & Hhi).
  destruct (Z.eqb_spec modulo 0) as [?|_]; [lia|].
  apply spends_ret.
  assert (Hr : 0 <= (lo + hi * 2 ^ 32) mod modulo < modulo)
    by (apply Z.mod_pos_bound; lia).
  unfold u32.
  pose proof (Z.mod_pos_bound ((lo + hi * 2 ^ 32) mod modulo) (2 ^ 32) ltac:(lia)).
  pose proof (Z.mod_le ((lo + hi * 2 ^ 32) mod modulo) (2 ^ 32) ltac:(lia) ltac:(lia)).
  lia.
Qed.

Lemma spends_makePin_loop (turns : nat) :
  forall res,
    spends (makePin_loop RAND_bytes turns res) (64 * Z.of_nat turns)
           (fun res' => length res' = (length res + 4 * turns)%nat).
Proof.
  induction turns as [|turns IH]; intros res; cbn [makePin_loop].
  - apply spends_ret. lia.
  - apply (spends_eq _ (64 + 64 * Z.of_nat turns)); [lia|].
    eapply spends_bind; [apply (spends_makeNumber 10000); lia|].
    intros t _. cbv beta.
    intros st Hinv.
    destruct (IH (push_digits 4 t res) st Hinv)
      as (res' & st' & Hrun & Hinv' & Hc & Hlen).
    exists res', st'. split; [exact Hrun|]. split; [exact Hinv'|].
    split; [exact Hc|].
    rewrite Hlen. cbn [push_digits]. rewrite !length_app. cbn [length]. lia.
Qed.

Lemma spends_makePassword_loop (turns : nat) :
  forall res,
    spends (makePassword_loop RAND_bytes turns res) (6 * Z.of_nat turns)
           (fun res' => length res' = (length res + turns)%nat).
Proof.
  induction turns as [|turns IH]; intros res; cbn [makePassword_loop].
  - apply spends_ret. lia.
  - apply (spends_eq _ (6 + 6 * Z.of_nat turns)); [lia|].
    eapply spends_bind; [apply (spends_getBits 6); lia|].
    intros t' (t & -> & Ht). cbv iota beta.
    intros st Hinv. unfold bind.
    destruct (index_password t st) as [Hc _]; [lia|].
    rewrite Hc.
    destruct (IH (res ++ [password_char t]) st Hinv)
      as (res' & st' & Hrun & Hinv' & Hcons & Hlen).
    exists res', st'. split; [exact Hrun|]. split; [exact Hinv'|].
    split; [exact Hcons|]. rewrite Hlen, length_app. cbn [length]. lia.
Qed.

Lemma spends_makeHexBlock_loop (turns : nat) :
  forall res,
    spends (makeHexBlock_loop RAND_bytes turns res) (8 * Z.of_nat turns)
           (fun res' => length res' = (length res + 2 * turns)%nat).
Proof.
  induction turns as [|turns IH]; intros res; cbn [makeHexBlock_loop].
  - apply spends_ret. lia.
  - apply (spends_eq _ (8 + 8 * Z.of_nat turns)); [lia|].
    eapply spends_bind; [apply (spends_getBits 8); lia|].
    intros t' (t & -> & Ht). cbv iota beta.
    intros st Hinv. unfold bind.
    destruct (hex_nibbles t) as (Hland & Hshr & Hlo & Hhi); [lia|].
    destruct (index_hex (Z.land t 15) st) as [Hl _]; [lia|].
    destruct (index_hex (Z.shiftr t 4) st) as [Hh _]; [lia|].
    rewrite Hl, Hh.
    destruct (IH (res ++ [hex_digit (Z.land t 15)]
                      ++ [hex_digit (Z.shiftr t 4)]) st Hinv)
      as (res' & st' & Hrun & Hinv' & Hcons & Hlen).
    exists res', st'. split; [exact Hrun|]. split; [exact Hinv'|].
    split; [exact Hcons|]. rewrite Hlen, !length_app. cbn [length]. lia.
Qed.

End BitsSpent.

Lemma csprng_AB_ok : csprng_ok csprng_AB.
Proof.
  intros k fresh [= <-]. split; [reflexivity | exact is_u32_limbs_AB].
Qed.

Lemma csprng_AB_up : csprng_up csprng_AB.
Proof. intros k. discriminate. Qed.

(** X24.  With a CSPRNG that grants every refill, the generators spend
    the bits of the pool to the bit: a draw of [getBits] spends the bits
    it hands out, through refills too, so that [makePassword( n )],
    [0 <= n], returns [n] characters for [6 * n] bits,
    [makeHexBlock( b )], [0 <= b] and [b * 2 <= INT_MAX], returns [2 * b]
    characters for [8 * b] bits, and [makePin( p )], [0 <= p] and
    [p + 3 <= INT_MAX], returns [p] digits for 64 bits per block of four
    digits begun. *)
Theorem generators_bits_spent (RAND_bytes : nat -> option (list Z))
    (n b p : Z) (st : Randomizer) :
  csprng_ok RAND_bytes -> csprng_up RAND_bytes -> pool_inv st ->
  0 <= n ->
  0 <= b -> b * 2 <= INT_MAX ->
  0 <= p -> p + 3 <= INT_MAX ->
  (exists res st',
     makePassword RAND_bytes n st = Some (res, st') /\
     Z.of_nat (length res) = n /\ consumed st' = consumed st + 6 * n) /\
  (exists res st',
     makeHexBlock RAND_bytes b st = Some (res, st') /\
     Z.of_nat (length res) = 2 * b /\ consumed st' = consumed st + 8 * b) /\
  (exists res st',
     makePin RAND_bytes p st = Some (res, st') /\
     Z.of_nat (length res) = p /\
     consumed st' = consumed st + 64 * ((p + 3) / 4)).
Proof.
  intros Hrand Hup Hinv Hn Hb Hbmax Hp Hpmax.
  split; [|split].
  - unfold makePassword. destruct (Z.ltb_spec n 0) as [?|_]; [lia|].
    destruct (spends_makePassword_loop RAND_bytes Hrand Hup (Z.to_nat n) []
                st Hinv) as (res & st' & Hrun & _ & Hc & Hlen).
    exists res, st'. split; [exact Hrun|]. cbn [length] in Hlen. lia.
  - unfold makeHexBlock, bind. rewrite reserve_ok by lia.
    destruct (spends_makeHexBlock_loop RAND_bytes Hrand Hup (Z.to_nat b) []
                st Hinv) as (res & st' & Hrun & _ & Hc & Hlen).
    exists res, st'. split; [exact Hrun|]. cbn [length] in Hlen. lia.
  - unfold makePin, bind. rewrite reserve_ok by lia.
    destruct (spends_makePin_loop RAND_bytes Hrand Hup
                (Z.to_nat ((p + 3) / 4)) [] st Hinv)
      as (res & st' & -> & _ & Hc & Hlen).
    destruct (Z.ltb_spec p 0) as [?|_]; [lia|].
    cbn [length] in Hlen.
    assert (Hge : (Z.to_nat p <= length res)%nat) by (rewrite Hlen; zdiv).
    eexists _, st'. split; [reflexivity|].
    unfold resize. rewrite length_app, length_take_le, length_replicate
      by exact Hge.
    split; [lia|]. rewrite Hc. f_equal. zdiv.
Qed.

Lemma generators_bits_spent_witness :
  csprng_ok csprng_AB /\ csprng_up csprng_AB /\
  pool_inv (Randomizer_new stale_limbs) /\
  0 <= 43 /\ 43 * 2 <= INT_MAX /\ 43 + 3 <= INT_MAX /\
  (exists res st',
     makePassword csprng_AB 43 (Randomizer_new stale_limbs) = Some (res, st') /\
     Z.of_nat (length res) = 43 /\
     consumed st' = consumed (Randomizer_new stale_limbs) + 6 * 43) /\
  (exists res st',
     makeHexBlock csprng_AB 43 (Randomizer_new stale_limbs) = Some (res, st') /\
     Z.of_nat (length res) = 2 * 43 /\
     consumed st' = consumed (Randomizer_new stale_limbs) + 8 * 43) /\
  (exists res st',
     makePin csprng_AB 43 (Randomizer_new stale_limbs) = Some (res, st') /\
     Z.of_nat (length res) = 43 /\
     consumed st' = consumed (Randomizer_new stale_limbs) + 64 * ((43 + 3) / 4)).
Proof.
  assert (H3 : pool_inv (Randomizer_new stale_limbs))
    by (apply Randomizer_new_inv; [reflexivity | exact is_u32_stale_limbs]).
  assert (H4 : 0 <= 43) by lia.
  assert (H5 : 43 * 2 <= INT_MAX) by (unfold INT_MAX; lia).
  assert (H6 : 43 + 3 <= INT_MAX) by (unfold INT_MAX; lia).
  split; [exact csprng_AB_ok|]. split; [exact csprng_AB_up|].
  split; [exact H3|]. split; [exact H4|].
  split; [exact H5|]. split; [exact H6|].
  exact (generators_bits_spent csprng_AB 43 43 43 (Randomizer_new stale_limbs)
           csprng_AB_ok csprng_AB_up H3 H4 H4 H5 H4 H6).
Defined.

(** ** The length of a name *)

Lemma literal_lengths (i : LitInfo) :
  (In i consonantSet ->
   (length (value i) <= 2)%nat /\
   (canDup i = true -> length (value i) = 1%nat)) /\
  (In i vowelSet -> length (value i) = 1%nat) /\
  (In i wordEndSet -> (length (value i) <= 2)%nat).
Proof.
  split; [|split]; intros Hin.
  - assert (Hall : Forall (fun i => (length (value i) <= 2)%nat /\
                             (canDup i = true -> length (value i) = 1%nat))
                          consonantSet)
      by (repeat constructor; cbn; lia || discriminate || reflexivity).
    rewrite List.Forall_forall in Hall. exact (Hall i Hin).
  - assert (Hall : Forall (fun i => length (value i) = 1%nat) vowelSet)
      by (repeat constructor).
    rewrite List.Forall_forall in Hall. exact (Hall i Hin).
  - assert (Hall : Forall (fun i => (length (value i) <= 2)%nat) wordEndSet)
      by (repeat constructor; cbn; lia).
    rewrite List.Forall_forall in Hall. exact (Hall i Hin).
Qed.

Section NameLength.

Variable RAND_bytes : nat -> option (list Z).
Hypothesis RAND_bytes_ok : csprng_ok RAND_bytes.
Hypothesis RAND_bytes_up : csprng_up RAND_bytes.

Lemma getBits_up (n : Z) :
  1 <= n <= 32 ->
  returns (getBits RAND_bytes n)
          (fun r => exists t, r = Some t /\ 0 <= t < 2 ^ n).
Proof.
  intros Hn st Hinv.
  destruct (spends_getBits RAND_bytes RAND_bytes_ok RAND_bytes_up n Hn st Hinv)
    as (r & st' & Hrun & Hinv' & _ & Hr).
  exists r, st'. auto.
Qed.

Lemma getLiteral_up (table : list LitInfo) :
  In table literal_tables ->
  returns (getLiteral RAND_bytes table)
          (fun r => exists i, r = Some i /\ In i table).
Proof.
  intros Htable. unfold getLiteral.
  eapply returns_bind; [apply (getBits_up 24); lia|].
  intros r (t & -> & Ht). apply returns_ret.
  destruct (literal_tables_weights table Htable) as [Hall Hsum].
  destruct (walk_total table t Hall) as (j & Hj & Hin); [lia|lia|].
  exists j. auto.
Qed.

Lemma makeName_count_up (turns : nat) :
  forall syllableCount,
    returns (makeName_count RAND_bytes turns syllableCount)
            (fun r => exists c, r = Some c /\
                       syllableCount <= c <= syllableCount + Z.of_nat turns).
Proof.
  induction turns as [|turns IH]; intros syllableCount;
    cbn [makeName_count].
  - apply returns_ret. exists syllableCount. split; [reflexivity | lia].
  - eapply returns_bind; [apply (getBits_up 1); lia|].
    intros r (t & -> & Ht). cbv iota beta.
    eapply returns_weaken; [apply IH|].
    intros r (c & -> & Hc). exists c. split; [reflexivity|].
    change (2 ^ 1) with 2 in Ht. lia.
Qed.

Ltac in_tables := unfold literal_tables; cbn [In]; tauto.

(** One step of a derivation on the length of a name. *)
Ltac length_step :=
  cbv beta iota zeta;
  lazymatch goal with
  | |- returns (bind (getLiteral _ ?table) _) _ =>
    eapply returns_bind; [apply (getLiteral_up table); in_tables |];
    let i := fresh "literal" in
    let Hin := fresh "Hin" in
    intros ? (i & -> & Hin);
    pose proof (literal_lengths i) as (? & ? & ?)
  | |- returns (bind (getBits _ _) _) _ =>
    eapply returns_bind; [apply getBits_up; lia |];
    intros ? (? & -> & ?)
  | |- returns (if ?c then _ else _) _ => destruct c eqn:?
  end.

Lemma makeName_syllables_length (turns : nat) :
  forall i res,
    returns (makeName_syllables RAND_bytes turns i res)
            (fun r => snd r = true /\
                      (length res + turns <= length (fst r)
                       <= length res + 4 * turns)%nat).
Proof.
  induction turns as [|turns IH]; intros i res;
    cbn [makeName_syllables].
  - apply returns_ret. cbn. split; [reflexivity | lia].
  - repeat length_step.
    all: eapply returns_weaken; [apply IH|].
    all: cbv beta; intros r [Hend Hlen]; split; [exact Hend|].
    all: repeat
      match goal with
      | H : In ?l consonantSet -> _ |- _ =>
        first [ specialize (H ltac:(assumption)); destruct H
              | clear H ]
      | H : In ?l vowelSet -> _ |- _ =>
        first [ specialize (H ltac:(assumption)) | clear H ]
      | H : In ?l wordEndSet -> _ |- _ => clear H
      end.
    all: repeat
      match goal with
      | H : context [if ?c then _ else _] |- _ => destruct c eqn:?
      end.
    all: repeat
      match goal with
      | H : (_ && _) = true |- _ => apply andb_prop in H; destruct H
      | H : canDup ?l = true -> _, H' : canDup ?l = true |- _ =>
        specialize (H H')
      end.
    all: rewrite ?length_app in *; lia.
Qed.

Lemma makeName_length (minSyllables maxSyllables : Z) :
  0 <= minSyllables <= maxSyllables ->
  returns (makeName RAND_bytes minSyllables maxSyllables)
          (fun res => minSyllables <= Z.of_nat (length res)
                      <= 4 * maxSyllables + 2).
Proof.
  intros Hrange. unfold makeName.
  eapply returns_bind; [apply makeName_count_up|].
  intros r (c & -> & Hc). cbv iota beta.
  eapply returns_bind; [apply makeName_syllables_length|].
  intros [res ended] [Hend Hlen]. cbn [fst snd length] in Hend, Hlen.
  subst ended.
  eapply returns_bind; [apply (getLiteral_up wordEndSet); in_tables|].
  intros r (literal & -> & Hin). apply returns_ret.
  destruct (literal_lengths literal) as (_ & _ & Hw).
  specialize (Hw Hin). rewrite length_app. lia.
Qed.

End NameLength.

(** X25.  With a CSPRNG that grants every refill, a name of
    [minSyllables] to [maxSyllables] syllables has at least
    [minSyllables] letters, one vowel for each syllable, and at most
    [4 * maxSyllables + 2]: up to four letters for a syllable and two
    for the end of the word. *)
Theorem makeName_length_range (RAND_bytes : nat -> option (list Z))
    (minSyllables maxSyllables : Z) (st : Randomizer) :
  csprng_ok RAND_bytes -> csprng_up RAND_bytes -> pool_inv st ->
  0 <= minSyllables <= maxSyllables ->
  exists res st',
    makeName RAND_bytes minSyllables maxSyllables st = Some (res, st') /\
    pool_inv st' /\
    minSyllables <= Z.of_nat (length res) <= 4 * maxSyllables + 2.
Proof.
  intros Hrand Hup Hinv Hrange.
  exact (makeName_length RAND_bytes Hrand Hup minSyllables maxSyllables
           Hrange st Hinv).
Qed.

Lemma makeName_length_range_witness :
  csprng_ok csprng_AB /\ csprng_up csprng_AB /\
  pool_inv (Randomizer_new stale_limbs) /\ 0 <= 2 <= 5 /\
  exists res st',
    makeName csprng_AB 2 5 (Randomizer_new stale_limbs) = Some (res, st') /\
    pool_inv st' /\
    2 <= Z.of_nat (length res) <= 4 * 5 + 2.
Proof.
  assert (H3 : pool_inv (Randomizer_new stale_limbs))
    by (apply Randomizer_new_inv; [reflexivity | exact is_u32_stale_limbs]).
  assert (H4 : 0 <= 2 <= 5) by lia.
  split; [exact csprng_AB_ok|]. split; [exact csprng_AB_up|].
  split; [exact H3|]. split; [exact H4|].
  exact (makeName_length_range csprng_AB 2 5 (Randomizer_new stale_limbs)
           csprng_AB_ok csprng_AB_up H3 H4).
Defined.
